(** * html2md: a shallow embedding of [src/html2md.ts]

    The converter walks a parsed DOM tree and produces Markdown text.
    JavaScript strings are sequences of UTF-16 code units, so a string is a
    list of code units here ([N]); every regular expression of the source
    is written out as the scanner it denotes. *)

From Stdlib Require Import List NArith Bool Arith Lia String Ascii DecimalString.
Import ListNotations.

Set Warnings "-register-all,-notation-for-abbreviation".

(* ================================================================== *)
(** ** Strings *)
(* ================================================================== *)

Module JS.

Definition char := N.
Definition jstring := list char.

(** An ASCII literal as a JavaScript string. *)
Definition str (s : string) : jstring := map N_of_ascii (list_ascii_of_string s).

Definition NL : char := 10%N.
Definition CR : char := 13%N.
Definition SP : char := 32%N.
Definition NBSP : char := 160%N.
Definition QUOTE : char := 34%N.
Definition BACKSLASH : char := 92%N.
Definition BACKTICK : char := 96%N.

Definition isNl (c : char) : bool := N.eqb c NL.

(** [===] on strings. *)
Fixpoint eqs (a b : jstring) : bool :=
  match a, b with
  | [], [] => true
  | x :: a', y :: b' => N.eqb x y && eqs a' b'
  | _, _ => false
  end.

(** Truthiness of a string: [!s] is [isEmpty s]. *)
Definition isEmpty (s : jstring) : bool :=
  match s with [] => true | _ => false end.

(** [a || b] on strings. *)
Definition orElse (a b : jstring) : jstring := if isEmpty a then b else a.

(** The class [\s] of a regular expression, which is also what
    [String.prototype.trim] strips: WhiteSpace and LineTerminator. *)
Definition isSpace (c : char) : bool :=
  ((9 <=? c) && (c <=? 13) || (c =? 32) || (c =? 160) || (c =? 5760)
   || (8192 <=? c) && (c <=? 8202) || (c =? 8232) || (c =? 8233)
   || (c =? 8239) || (c =? 8287) || (c =? 12288) || (c =? 65279))%N.

Fixpoint dropWhile (p : char -> bool) (s : jstring) : jstring :=
  match s with
  | [] => []
  | c :: r => if p c then dropWhile p r else s
  end.

Fixpoint takeWhile (p : char -> bool) (s : jstring) : jstring :=
  match s with
  | [] => []
  | c :: r => if p c then c :: takeWhile p r else []
  end.

(** Removes the longest suffix whose characters all satisfy [p]. *)
Fixpoint dropWhileEnd (p : char -> bool) (s : jstring) : jstring :=
  match s with
  | [] => []
  | c :: r =>
      match dropWhileEnd p r with
      | [] => if p c then [] else [c]
      | r' => c :: r'
      end
  end.

(** [s.trim()] *)
Definition trim (s : jstring) : jstring := dropWhileEnd isSpace (dropWhile isSpace s).

Fixpoint startsWith (p s : jstring) : bool :=
  match p, s with
  | [], _ => true
  | x :: p', y :: s' => N.eqb x y && startsWith p' s'
  | _ :: _, [] => false
  end.

(** [s.includes(sub)] *)
Fixpoint includes (sub s : jstring) : bool :=
  startsWith sub s ||
  match s with
  | [] => false
  | _ :: r => includes sub r
  end.

(** [s.split(sep)] for a one-character separator: never the empty array. *)
Fixpoint split (sep : char) (s : jstring) : list jstring :=
  match s with
  | [] => [[]]
  | c :: r =>
      if N.eqb c sep then [] :: split sep r
      else match split sep r with
           | h :: t => (c :: h) :: t
           | [] => [[c]]
           end
  end.

(** [parts.join(sep)] *)
Fixpoint join (sep : jstring) (parts : list jstring) : jstring :=
  match parts with
  | [] => []
  | [p] => p
  | p :: rest => p ++ sep ++ join sep rest
  end.

(** [repeat(ch, n)]: [new Array(n + 1).join(ch)], [n] copies of [ch]. *)
Fixpoint repeat (ch : jstring) (n : nat) : jstring :=
  match n with
  | O => []
  | S k => ch ++ repeat ch k
  end.

(** Template rendering of a number: its decimal digits. *)
Definition ofNat (n : nat) : jstring := str (NilZero.string_of_uint (Nat.to_uint n)).

(** ASCII lower-casing, the instance of [toLowerCase] used on sample inputs. *)
Definition asciiLower (s : jstring) : jstring :=
  map (fun c => if ((65 <=? c) && (c <=? 90))%N then (c + 32)%N else c) s.

End JS.
Import JS.

(* ================================================================== *)
(** ** The regular expressions of the source, as scanners *)
(* ================================================================== *)

(** [escapeMd]: two passes, first every backslash is doubled, then each of
    [* _ ` # | > -] gets a backslash in front. *)
Definition isMdSpecial (c : char) : bool :=
  ((c =? 42) || (c =? 95) || (c =? 96) || (c =? 35) || (c =? 124)
   || (c =? 62) || (c =? 45))%N.

Definition doubleBackslashes (text : jstring) : jstring :=
  flat_map (fun c => if N.eqb c BACKSLASH then [BACKSLASH; BACKSLASH] else [c]) text.

Definition escapeSpecials (text : jstring) : jstring :=
  flat_map (fun c => if isMdSpecial c then [BACKSLASH; c] else [c]) text.

Definition escapeMd (text : jstring) : jstring :=
  escapeSpecials (doubleBackslashes text).

(** [s.replace(/[ \t\f\v]+/g, ' ')] after every U+00A0 became a space. *)
Definition isBlank (c : char) : bool :=
  ((c =? 32) || (c =? 9) || (c =? 12) || (c =? 11))%N.

Fixpoint squeezeBlanks (s : jstring) (inRun : bool) : jstring :=
  match s with
  | [] => if inRun then [SP] else []
  | c :: r =>
      if isBlank c then squeezeBlanks r true
      else (if inRun then [SP] else []) ++ c :: squeezeBlanks r false
  end.

Definition collapseWhitespace (s : jstring) : jstring :=
  squeezeBlanks (map (fun c => if N.eqb c NBSP then SP else c) s) false.

(** [t.replace(/\s+/g, m => m.includes('\n') ? '\n' : ' ')]: [run] tells
    whether a whitespace run is open and [sawNl] whether it holds a newline. *)
Definition runSeparator (run sawNl : bool) : jstring :=
  if run then (if sawNl then [NL] else [SP]) else [].

Fixpoint collapseSpaceRuns (s : jstring) (run sawNl : bool) : jstring :=
  match s with
  | [] => runSeparator run sawNl
  | c :: r =>
      if isSpace c then collapseSpaceRuns r true (sawNl || isNl c)
      else runSeparator run sawNl ++ c :: collapseSpaceRuns r false false
  end.

(** [s.replace(/\n{3,}/g, '\n\n')]: [k] newlines are pending. *)
Definition pendingNewlines (k : nat) : jstring :=
  if 3 <=? k then [NL; NL] else List.repeat NL k.

Fixpoint squeezeNewlines (s : jstring) (k : nat) : jstring :=
  match s with
  | [] => pendingNewlines k
  | c :: r =>
      if isNl c then squeezeNewlines r (S k)
      else pendingNewlines k ++ c :: squeezeNewlines r 0
  end.

Definition normalizeLines (s : jstring) : jstring := squeezeNewlines s 0.

(** [s.replace(/\n+/g, ' ')] *)
Fixpoint newlinesToSpace (s : jstring) (inRun : bool) : jstring :=
  match s with
  | [] => if inRun then [SP] else []
  | c :: r =>
      if isNl c then newlinesToSpace r true
      else (if inRun then [SP] else []) ++ c :: newlinesToSpace r false
  end.

(** [s.replace(/\r\n?/g, '\n')] *)
Fixpoint normalizeEol (s : jstring) : jstring :=
  match s with
  | [] => []
  | c :: r =>
      if N.eqb c CR then
        NL :: match r with
              | d :: r' => if isNl d then normalizeEol r' else normalizeEol r
              | [] => []
              end
      else c :: normalizeEol r
  end.

(** [s.replace(/\n$/, '')]: one final newline is dropped. *)
Fixpoint dropFinalNewline (s : jstring) : jstring :=
  match s with
  | [] => []
  | c :: r =>
      match r with
      | [] => if isNl c then [] else [c]
      | _ => c :: dropFinalNewline r
      end
  end.

(** The text after the last newline of [w], when [w] has a newline. *)
Fixpoint afterLastNewline (w : jstring) : option jstring :=
  match w with
  | [] => None
  | c :: r =>
      match afterLastNewline r with
      | Some t => Some t
      | None => if isNl c then Some r else None
      end
  end.

(** [s.replace(/^\s+\n/, '\n')]: the greedy [\s+] backtracks to the last
    newline of the leading whitespace that is not its first character. *)
Definition replaceLeadingBlank (s : jstring) : jstring :=
  match takeWhile isSpace s with
  | [] => s
  | _ :: w =>
      match afterLastNewline w with
      | Some after => NL :: after ++ dropWhile isSpace s
      | None => s
      end
  end.

(** [s.replace(/\n\s+$/, '\n')]: the leftmost newline followed by
    whitespace only, and by at least one character. *)
Fixpoint replaceTrailingBlank (s : jstring) : jstring :=
  match s with
  | [] => []
  | c :: r =>
      if isNl c && negb (isEmpty r) && forallb isSpace r then [NL]
      else c :: replaceTrailingBlank r
  end.

(** [s.replace(/^\n+|\n+$/g, '')] *)
Definition stripNewlines (s : jstring) : jstring :=
  dropWhileEnd isNl (dropWhile isNl s).

Definition trimBlankLines (s : jstring) : jstring :=
  stripNewlines (replaceTrailingBlank (replaceLeadingBlank s)).

(* ================================================================== *)
(** ** The DOM, as the parsing collaborator hands it over *)
(* ================================================================== *)

(** A node is a text node, an element, or a node of another type
    (comment 8, document type 10, ...).  [tagName] and [localName] are what
    the DOM reports: for an HTML element the tag name is the local name in
    upper case, for a foreign (SVG, MathML) element it is the local name
    as it is.  The source tests [tagName]; its selectors match [localName]. *)
Inductive Node : Type :=
| TextNode (nodeValue : jstring)
| ElementNode (tagName : jstring) (localName : jstring)
              (attributes : list (jstring * jstring)) (childNodes : list Node)
| OtherNode (nodeType : N).

(** A document: its child nodes. *)
Definition Document := list Node.

Definition isElement (n : Node) : bool :=
  match n with ElementNode _ _ _ _ => true | _ => false end.

Definition tagNameOf (n : Node) : jstring :=
  match n with ElementNode t _ _ _ => t | _ => [] end.

Definition childNodesOf (n : Node) : list Node :=
  match n with ElementNode _ _ _ ch => ch | _ => [] end.

(** [el.children]: the element children. *)
Definition childrenOf (n : Node) : list Node := filter isElement (childNodesOf n).

Definition hasTag (t : string) (n : Node) : bool :=
  isElement n && eqs (tagNameOf n) (str t).

Definition localNameOf (n : Node) : jstring :=
  match n with ElementNode _ l _ _ => l | _ => [] end.

(** A type selector matches an element by its local name, whatever its
    namespace (the selectors of the source are in lower case). *)
Definition matchesType (selector : string) (n : Node) : bool :=
  isElement n && eqs (localNameOf n) (str selector).

Fixpoint lookupAttr (name : jstring) (attrs : list (jstring * jstring)) : option jstring :=
  match attrs with
  | [] => None
  | (k, v) :: rest => if eqs k name then Some v else lookupAttr name rest
  end.

(** [getAttr(el, name)]: [null] is [None]. *)
Definition getAttr (el : Node) (name : string) : option jstring :=
  match el with
  | ElementNode _ _ attrs _ => lookupAttr (str name) attrs
  | _ => None
  end.

(** [getAttr(el, name) || ''] *)
Definition getAttrOrEmpty (el : Node) (name : string) : jstring :=
  match getAttr el name with Some v => v | None => [] end.

(** [node.textContent] of an element: the text of its descendants. *)
Fixpoint textContentOf (n : Node) : jstring :=
  match n with
  | TextNode v => v
  | ElementNode _ _ _ ch => flat_map textContentOf ch
  | OtherNode _ => []
  end.

(** The first node in tree order, among [n] and its descendants, that
    satisfies [p]. *)
Fixpoint findFirst (p : Node -> bool) (n : Node) : option Node :=
  if p n then Some n
  else match n with
       | ElementNode _ _ _ ch =>
           (fix inForest (l : list Node) : option Node :=
              match l with
              | [] => None
              | c :: r =>
                  match findFirst p c with
                  | Some x => Some x
                  | None => inForest r
                  end
              end) ch
       | _ => None
       end.

Fixpoint findFirstIn (p : Node -> bool) (l : list Node) : option Node :=
  match l with
  | [] => None
  | c :: r =>
      match findFirst p c with
      | Some x => Some x
      | None => findFirstIn p r
      end
  end.

(** [el.querySelector(selector)] for a type selector: descendants only. *)
Definition querySelector (el : Node) (selector : string) : option Node :=
  findFirstIn (matchesType selector) (childNodesOf el).

(** [doc.getElementById(id)] *)
Definition getElementById (doc : Document) (id : string) : option Node :=
  findFirstIn (fun n => match getAttr n "id" with
                        | Some v => eqs v (str id)
                        | None => false
                        end) doc.

(** Nesting depth below a node: what the recursion of the renderer needs. *)
Fixpoint height (n : Node) : nat :=
  match n with
  | ElementNode _ _ _ ch => S (fold_right (fun c m => Nat.max (height c) m) 0 ch)
  | _ => 0
  end.

Definition heightOfForest (l : list Node) : nat :=
  fold_right (fun c m => Nat.max (height c) m) 0 l.

(* ================================================================== *)
(** ** Arrays are objects: a store of arrays and a monad over it *)
(* ================================================================== *)

(** [Ctx.orderedIndex] is an array that [renderList] writes to, and a
    context object is handed to every recursive call.  So arrays of
    numbers live in a store, a context holds a reference, and rendering
    threads the store.  A computation may also run out of fuel. *)
Definition Ref := nat.
Definition Store := list (list nat).

Definition M (A : Type) : Type := Store -> option (A * Store).

Definition ret {A} (a : A) : M A := fun st => Some (a, st).

Definition bind {A B} (c : M A) (k : A -> M B) : M B :=
  fun st => match c st with
            | Some (a, st') => k a st'
            | None => None
            end.

Definition outOfFuel {A} : M A := fun _ => None.

Declare Scope monad_scope.
Delimit Scope monad_scope with monad.
Notation "x <- c ;; k" := (bind c (fun x => k))
  (at level 61, c at next level, right associativity) : monad_scope.
Notation "c ;; k" := (bind c (fun _ => k))
  (at level 61, right associativity) : monad_scope.
Notation "' pat <- c ;; k" := (bind c (fun x => match x with pat => k end))
  (at level 61, pat pattern, c at next level, right associativity) : monad_scope.
Local Open Scope monad_scope.

(** A new array object. *)
Definition newArray (xs : list nat) : M Ref :=
  fun st => Some (List.length st, st ++ [xs]).

Definition readArray (a : Ref) : M (list nat) :=
  fun st => Some (nth a st [], st).

(** [a.concat(xs)]: a new array, [a] is left as it is. *)
Definition concatArray (a : Ref) (xs : list nat) : M Ref :=
  old <- readArray a ;; newArray (old ++ xs).

Fixpoint setNth {A} (i : nat) (v : A) (l : list A) : list A :=
  match l, i with
  | [], _ => []
  | _ :: r, O => v :: r
  | x :: r, S j => x :: setNth j v r
  end.

(** [a[a.length - 1]] and [a[a.length - 1] = v].  The arrays these are
    used on are never empty (they come from [concat([0])]). *)
Definition readLast (a : Ref) : M nat :=
  old <- readArray a ;; ret (last old 0).

Definition writeLast (a : Ref) (v : nat) : M unit :=
  fun st => Some (tt, setNth a (setNth (List.length (nth a st []) - 1) v (nth a st [])) st).

(** [for (const x of xs) body], with the variables the loop updates as [s]. *)
Fixpoint forOf {A S} (xs : list A) (body : S -> A -> M S) (s : S) : M S :=
  match xs with
  | [] => ret s
  | x :: rest => s' <- body s x ;; forOf rest body s'
  end.

(** [xs.map(f)] when [f] renders. *)
Fixpoint mapM {A B} (f : A -> M B) (xs : list A) : M (list B) :=
  match xs with
  | [] => ret []
  | x :: rest => y <- f x ;; ys <- mapM f rest ;; ret (y :: ys)
  end.

(** The context.  [orderedIndex] is a reference, since [renderList] writes
    to that array; nothing writes to [orderedStack], which is kept as a
    value. *)
Record Ctx : Type := mkCtx {
  listDepth : nat;
  orderedStack : list bool;
  orderedIndex : Ref;
  baseUrl : option jstring
}.

Record Opts : Type := mkOpts { opts_baseUrl : option jstring }.

(* ================================================================== *)
(** ** The renderer *)
(* ================================================================== *)

Definition blockTags : list string :=
  [ "P"; "DIV"; "SECTION"; "ARTICLE"; "HEADER"; "FOOTER"; "MAIN"; "ASIDE";
    "H1"; "H2"; "H3"; "H4"; "H5"; "H6";
    "PRE"; "BLOCKQUOTE"; "UL"; "OL"; "LI"; "TABLE"; "THEAD"; "TBODY"; "TFOOT";
    "TR"; "TD"; "TH"; "HR" ]%string.

Definition isBlock (el : Node) : bool :=
  existsb (fun t => eqs (tagNameOf el) (str t)) blockTags.

(** The class [[\w#+.-]] of [getCodeLang]. *)
Definition isLangChar (c : char) : bool :=
  ((48 <=? c) && (c <=? 57) || (65 <=? c) && (c <=? 90) || (97 <=? c) && (c <=? 122)
   || (c =? 95) || (c =? 35) || (c =? 43) || (c =? 46) || (c =? 45))%N.

Fixpoint stripPrefix (p s : jstring) : option jstring :=
  match p, s with
  | [], _ => Some s
  | x :: p', y :: s' => if N.eqb x y then stripPrefix p' s' else None
  | _ :: _, [] => None
  end.

(** [/(?:language|lang)-([\w#+.-]+)/] tried at the start of [s]: group 1. *)
Definition langAt (s : jstring) : option jstring :=
  let capture rest :=
    match takeWhile isLangChar rest with
    | [] => None
    | w => Some w
    end in
  match match stripPrefix (str "language-") s with
        | Some rest => capture rest
        | None => None
        end with
  | Some m => Some m
  | None =>
      match stripPrefix (str "lang-") s with
      | Some rest => capture rest
      | None => None
      end
  end.

(** [cls.match(...)]: the leftmost match. *)
Fixpoint matchLang (s : jstring) : option jstring :=
  match langAt s with
  | Some m => Some m
  | None => match s with
            | [] => None
            | _ :: r => matchLang r
            end
  end.

(** The tests of the three style expressions. *)
Definition boldRe (v : jstring) : bool :=
  includes (str "bold") v || includes (str "600") v || includes (str "700") v
  || includes (str "800") v || includes (str "900") v.

Definition italicRe (v : jstring) : bool :=
  includes (str "italic") v || includes (str "oblique") v.

Definition strikeRe (v : jstring) : bool := includes (str "line-through") v.

(** [codeFence(text, lang)] *)
Definition codeFence (text : jstring) (lang : option jstring) : jstring :=
  let fence := if includes (str "```") text then str "````" else str "```" in
  let info := match lang with Some l => l | None => [] end in
  fence ++ (if isEmpty info then [] else SP :: info) ++ [NL]
        ++ dropFinalNewline text ++ [NL] ++ fence.

(** [/^H[1-6]$/.test(tag)], with [Number(tag.substring(1))] as the result. *)
Definition headingLevel (tag : jstring) : option nat :=
  match tag with
  | [h; d] => if (N.eqb h 72 && (49 <=? d) && (d <=? 54))%N
              then Some (N.to_nat (d - 48))
              else None
  | _ => None
  end.

Section Renderer.

(** The platform: [String.prototype.toLowerCase], and [new URL(href, base).href],
    which is [None] when the constructor throws. *)
Variable toLowerCase : jstring -> jstring.
Variable resolveUrl : jstring -> jstring -> option jstring.

Definition getCodeLang (el : Node) : option jstring :=
  let cls := toLowerCase (getAttrOrEmpty el "class") in
  matchLang cls.

(** The object [map] of [styleHas]: a later assignment to a key shadows
    the earlier one. *)
Definition styleMap (st : jstring) : list (jstring * jstring) :=
  fold_left
    (fun map pair =>
       let parts := split 58%N pair in
       let k := trim (hd [] parts) in
       let v := match tl parts with
                | x :: _ => trim x
                | [] => []
                end in
       if isEmpty k then map else (k, v) :: map)
    (split 59%N st) [].

Definition styleHas (el : Node) (prop : string) (test : jstring -> bool) : bool :=
  let st := toLowerCase (getAttrOrEmpty el "style") in
  match lookupAttr (str prop) (styleMap st) with
  | Some v => if isEmpty v then false else test v
  | None => false
  end.

Definition isBoldLike (el : Node) : bool :=
  hasTag "B" el || hasTag "STRONG" el || styleHas el "font-weight" boldRe.

Definition isItalicLike (el : Node) : bool :=
  hasTag "I" el || hasTag "EM" el || styleHas el "font-style" italicRe.

Definition isStrikeLike (el : Node) : bool :=
  hasTag "S" el || hasTag "DEL" el || hasTag "STRIKE" el
  || styleHas el "text-decoration" strikeRe.

Definition absolutizeUrl (href : jstring) (base : option jstring) : jstring :=
  match base with
  | None => href
  | Some b =>
      if isEmpty b then href
      else match resolveUrl href b with
           | Some u => u
           | None => href
           end
  end.

(** The [' "' + escapeMd(title) + '"'] of links and images. *)
Definition titleSuffix (title : option jstring) : jstring :=
  match title with
  | Some t => if isEmpty t then [] else SP :: QUOTE :: escapeMd t ++ [QUOTE]
  | None => []
  end.

Definition isIgnoredTag (tag : jstring) : bool :=
  eqs tag (str "SCRIPT") || eqs tag (str "STYLE") || eqs tag (str "NOSCRIPT")
  || eqs tag (str "META") || eqs tag (str "LINK").

Section OpenRecursion.

(** The recursive call, with one unit of fuel less. *)
Variable renderNode : Node -> Ctx -> M jstring.

Definition renderInlineChildren (el : Node) (ctx : Ctx) : M jstring :=
  forOf (childNodesOf el)
        (fun out child => md <- renderNode child ctx ;; ret (out ++ md)) [].

Definition renderListItem (li : Node) (ctx : Ctx) : M jstring :=
  parts <- forOf (childNodesOf li)
                 (fun parts child =>
                    md <- renderNode child ctx ;;
                    if isEmpty md then ret parts else ret (parts ++ [md])) [] ;;
  ret (squeezeNewlines (join [NL] parts) 0).

Definition renderList (el : Node) (ctx : Ctx) (ordered : bool) : M jstring :=
  let items := filter (hasTag "LI") (childrenOf el) in
  counters <- concatArray (orderedIndex ctx) [0] ;;
  let next := {| listDepth := listDepth ctx + 1;
                 orderedStack := orderedStack ctx ++ [ordered];
                 orderedIndex := counters;
                 baseUrl := baseUrl ctx |} in
  out <- forOf items
               (fun out li =>
                  prev <- readLast (orderedIndex next) ;;
                  let idx := prev + 1 in
                  writeLast (orderedIndex next) idx ;;
                  let bullet := if ordered then ofNat idx ++ str ". " else str "- " in
                  md <- renderListItem li next ;;
                  let contentMd := trimBlankLines md in
                  let lines := split NL contentMd in
                  let indent := repeat (str "  ") (listDepth ctx) in
                  let first := indent ++ bullet ++ hd [] lines in
                  let rest := map (fun l => indent ++ str "  " ++ l) (tl lines) in
                  ret (out ++ [join [NL] (first :: rest)])) [] ;;
  ret (join [NL] out).

Definition rowLine (cols : list jstring) : jstring :=
  str "| " ++ join (str " | ") cols ++ str " |".

(** [collectRows(scope)]: [scope.querySelectorAll(':scope > tr')]. *)
Definition collectRows (scope : option Node) : list Node :=
  match scope with
  | Some s => filter (matchesType "tr") (childrenOf s)
  | None => []
  end.

Definition isCell (c : Node) : bool := hasTag "TD" c || hasTag "TH" c.

Definition tableRows (table : Node) : list Node :=
  let thead := querySelector table "thead" in
  let tbody := querySelector table "tbody" in
  let tfoot := querySelector table "tfoot" in
  collectRows thead ++ collectRows tbody ++ collectRows tfoot
  ++ match thead, tbody, tfoot with
     | None, None, None => collectRows (Some table)
     | _, _, _ => []
     end.

Definition cellText (td : Node) (ctx : Ctx) : M jstring :=
  inner <- renderInlineChildren td ctx ;;
  let md := trimBlankLines inner in
  ret (trim (newlinesToSpace (collapseWhitespace md) false)).

(** The loop over the rows: the grid and the header cells found so far. *)
Definition tableGrid (table : Node) (ctx : Ctx)
  : M (list (list jstring) * option (list jstring)) :=
  forOf (tableRows table)
        (fun '(grid, headerCells) tr =>
           let cells := filter isCell (childrenOf tr) in
           texts <- mapM (fun td => cellText td ctx) cells ;;
           let headerCells' :=
             match headerCells with
             | None => if existsb (hasTag "TH") cells then Some texts else None
             | Some _ => headerCells
             end in
           ret (grid ++ [texts], headerCells'))
        ([], None).

Definition tableHead (grid : list (list jstring)) (headerCells : option (list jstring))
  : list jstring :=
  match headerCells with
  | Some h => h
  | None => hd [] grid
  end.

Definition tableBody (grid : list (list jstring)) (headerCells : option (list jstring))
  : list (list jstring) :=
  match headerCells with
  | Some _ => grid
  | None => tl grid
  end.

Definition tableLines (head : list jstring) (body : list (list jstring)) : list jstring :=
  let sep := map (fun _ => str "---") head in
  [rowLine head] ++ [rowLine sep] ++ map rowLine body.

Definition renderTable (table : Node) (ctx : Ctx) : M jstring :=
  '(grid, headerCells) <- tableGrid table ctx ;;
  let head := tableHead grid headerCells in
  let body := tableBody grid headerCells in
  match head with
  | [] => ret []
  | _ => ret (join [NL] (tableLines head body))
  end.

Definition emphasize (el : Node) (content : jstring) : jstring :=
  let out := content in
  let out := if isBoldLike el then str "**" ++ out ++ str "**" else out in
  let out := if isItalicLike el then str "*" ++ out ++ str "*" else out in
  let out := if isStrikeLike el then str "~~" ++ out ++ str "~~" else out in
  out.

Definition renderElement (el : Node) (ctx : Ctx) : M jstring :=
  let tag := tagNameOf el in
  if isIgnoredTag tag then ret []
  else if eqs tag (str "BR") then ret (str "  " ++ [NL])
  else if eqs tag (str "HR") then ret ([NL; NL] ++ str "---" ++ [NL; NL])
  else if eqs tag (str "IMG") then
    let alt := getAttrOrEmpty el "alt" in
    let src := getAttrOrEmpty el "src" in
    let title := getAttr el "title" in
    let url := absolutizeUrl src (baseUrl ctx) in
    ret (str "![" ++ escapeMd alt ++ str "](" ++ url ++ titleSuffix title ++ str ")")
  else if eqs tag (str "A") then
    let href := getAttrOrEmpty el "href" in
    let title := getAttr el "title" in
    inner <- renderInlineChildren el ctx ;;
    let text := orElse (trimBlankLines inner) (getAttrOrEmpty el "href") in
    let url := absolutizeUrl href (baseUrl ctx) in
    ret (str "[" ++ text ++ str "](" ++ url ++ titleSuffix title ++ str ")")
  else if eqs tag (str "CODE") then
    let raw := textContentOf el in
    let ticks := if includes [BACKTICK] raw then str "``" else str "`" in
    ret (ticks ++ raw ++ ticks)
  else if eqs tag (str "PRE") then
    let code := querySelector el "code" in
    let text := match code with
                | Some c => textContentOf c
                | None => textContentOf el
                end in
    let text := normalizeEol text in
    let lang := match code with
                | Some c => getCodeLang c
                | None => None
                end in
    ret ([NL; NL] ++ codeFence text lang ++ [NL; NL])
  else match headingLevel tag with
  | Some level =>
    let hashes := repeat (str "#") (Nat.max 1 (Nat.min 6 level)) in
    inner <- renderInlineChildren el ctx ;;
    let content := trimBlankLines inner in
    ret ([NL; NL] ++ hashes ++ [SP] ++ content ++ [NL; NL])
  | None =>
  if eqs tag (str "BLOCKQUOTE") then
    inner <- renderInlineChildren el ctx ;;
    let inner := trimBlankLines inner in
    let prefixed := join [NL] (map (fun l => str "> " ++ l) (split NL inner)) in
    ret ([NL; NL] ++ prefixed ++ [NL; NL])
  else if eqs tag (str "UL") then
    list <- renderList el ctx false ;; ret ([NL] ++ list ++ [NL; NL])
  else if eqs tag (str "OL") then
    list <- renderList el ctx true ;; ret ([NL] ++ list ++ [NL; NL])
  else if eqs tag (str "TABLE") then
    table <- renderTable el ctx ;; ret ([NL; NL] ++ table ++ [NL; NL])
  else if isBoldLike el || isItalicLike el || isStrikeLike el then
    content <- renderInlineChildren el ctx ;;
    ret (emphasize el content)
  else if isBlock el then
    inner <- renderInlineChildren el ctx ;;
    let inner := trimBlankLines inner in
    if isEmpty inner then ret []
    else ret ([NL; NL] ++ inner ++ [NL; NL])
  else renderInlineChildren el ctx
  end.

(** The body of [renderNode]. *)
Definition renderNodeBody (node : Node) (ctx : Ctx) : M jstring :=
  match node with
  | TextNode nodeValue =>
      let t := collapseSpaceRuns nodeValue false false in
      ret (escapeMd t)
  | OtherNode _ => ret []
  | ElementNode _ _ _ _ => renderElement node ctx
  end.

End OpenRecursion.

Fixpoint renderNode (fuel : nat) : Node -> Ctx -> M jstring :=
  match fuel with
  | O => fun _ _ => outOfFuel
  | S fuel' => renderNodeBody (renderNode fuel')
  end.

(** The string handed to the parser:
    [<!doctype html><meta charset="utf-8"><div id="__root__">${html}</div>]. *)
Definition wrapHtml (html : jstring) : jstring :=
  str "<!doctype html><meta charset=" ++ [QUOTE] ++ str "utf-8" ++ [QUOTE]
  ++ str "><div id=" ++ [QUOTE] ++ str "__root__" ++ [QUOTE] ++ str ">"
  ++ html ++ str "</div>".

(** [new DOMParser().parseFromString(src, 'text/html')] *)
Variable parseFromString : jstring -> Document.

Definition initialCtx (opts : Opts) : M Ctx :=
  counters <- newArray [] ;;
  ret {| listDepth := 0; orderedStack := []; orderedIndex := counters;
         baseUrl := opts_baseUrl opts |}.

(** [htmlToMarkdown(html, opts)]; [None] only when [fuel] does not cover the
    depth of the tree. *)
Definition htmlToMarkdown (fuel : nat) (html : jstring) (opts : Opts) : option jstring :=
  if isEmpty html || isEmpty (trim html) then Some []
  else
    let doc := parseFromString (wrapHtml html) in
    match getElementById doc "__root__" with
    | None => Some []
    | Some root =>
        match (ctx <- initialCtx opts ;;
               forOf (childNodesOf root)
                     (fun out child => md <- renderNode fuel child ctx ;; ret (out ++ md))
                     []) [] with
        | Some (out, _) =>
            let out := normalizeLines (trimBlankLines out) in
            Some (trim out ++ [NL])
        | None => None
        end
    end.

End Renderer.

(* ================================================================== *)
(** ** Sample documents *)
(* ================================================================== *)

Module Samples.

Definition el (t : string) (attrs : list (jstring * jstring)) (ch : list Node) : Node :=
  ElementNode (str t) (asciiLower (str t)) attrs ch.
Definition text (s : string) : Node := TextNode (str s).
Definition attr (k v : string) : jstring * jstring := (str k, str v).

(** The document an HTML parser builds for [wrapHtml html], when [nodes]
    is what [html] itself parses to. *)
Definition documentOf (nodes : list Node) : Document :=
  [ OtherNode 10;
    el "HTML" []
       [ el "HEAD" [] [ el "META" [attr "charset" "utf-8"] [] ];
         el "BODY" [] [ el "DIV" [attr "id" "__root__"] nodes ] ] ].

Definition nestedListHtml : jstring :=
  str "<ul><li>a</li><li>b<ul><li>c</li></ul></li></ul>".
Definition nestedList : list Node :=
  [ el "UL" [] [ el "LI" [] [text "a"];
                 el "LI" [] [text "b"; el "UL" [] [ el "LI" [] [text "c"] ]] ] ].

Definition orderedListHtml : jstring := str "<ol><li>x</li><li>y</li></ol>".
Definition orderedListNode : Node :=
  el "OL" [] [ el "LI" [] [text "x"]; el "LI" [] [text "y"] ].
Definition orderedList : list Node := [ orderedListNode ].

Definition twoOrderedListsHtml : jstring :=
  str "<ol><li>x<ul><li>u</li></ul></li><li>y</li></ol><ol><li>z</li></ol>".
Definition twoOrderedLists : list Node :=
  [ el "OL" [] [ el "LI" [] [text "x"; el "UL" [] [ el "LI" [] [text "u"] ]];
                 el "LI" [] [text "y"] ];
    el "OL" [] [ el "LI" [] [text "z"] ] ].

(** The parser puts the rows of a table into a [tbody]. *)
Definition raggedTableHtml : jstring :=
  str "<table><tr><td>A</td><td>B</td></tr><tr><td>1</td></tr></table>".
Definition raggedTableNode : Node :=
  el "TABLE" []
     [ el "TBODY" []
          [ el "TR" [] [ el "TD" [] [text "A"]; el "TD" [] [text "B"] ];
            el "TR" [] [ el "TD" [] [text "1"] ] ] ].
Definition raggedTable : list Node := [ raggedTableNode ].

Definition emptyParagraphHtml : jstring := str "<p></p>".
Definition emptyParagraph : list Node := [ el "P" [] [] ].

Definition scriptOnlyHtml : jstring := str "<script>x()</script>".
Definition scriptOnly : list Node := [ el "SCRIPT" [] [text "x()"] ].

Definition weight650Html : jstring := str "<span style='font-weight: 650'>x</span>".
Definition weight650Node : Node :=
  el "SPAN" [attr "style" "font-weight: 650"] [text "x"].
Definition weight650 : list Node := [ weight650Node ].

Definition weight700Node : Node :=
  el "SPAN" [attr "style" "font-weight: 700"] [text "x"].

Definition boldItalicSpanNode : Node :=
  el "SPAN" [attr "style" "font-weight: bold; font-style: italic"] [text "x"].

Definition boldItalicHeadingHtml : jstring :=
  str "<h1 style='font-weight: bold; font-style: italic'>x</h1>".
Definition boldItalicHeadingNode : Node :=
  el "H1" [attr "style" "font-weight: bold; font-style: italic"] [text "x"].
Definition boldItalicHeading : list Node := [ boldItalicHeadingNode ].

Definition preWithBlankLinesHtml : jstring :=
  str "<pre>a" ++ [NL; NL; NL] ++ str "b</pre>".
Definition preWithBlankLines : list Node :=
  [ el "PRE" [] [ TextNode (str "a" ++ [NL; NL; NL] ++ str "b") ] ].


(** The parser on the sample inputs. *)
Definition samples : list (jstring * list Node) :=
  [ (nestedListHtml, nestedList);
    (orderedListHtml, orderedList);
    (twoOrderedListsHtml, twoOrderedLists);
    (raggedTableHtml, raggedTable);
    (emptyParagraphHtml, emptyParagraph);
    (scriptOnlyHtml, scriptOnly);
    (weight650Html, weight650);
    (boldItalicHeadingHtml, boldItalicHeading);
    (preWithBlankLinesHtml, preWithBlankLines) ].

Definition parseSample (src : jstring) : Document :=
  match find (fun '(html, _) => eqs src (wrapHtml html)) samples with
  | Some (_, nodes) => documentOf nodes
  | None => documentOf []
  end.

(** The two URL resolutions the examples use: [/x] against [https://h/],
    and a base that is not absolute, on which the constructor throws. *)
Definition resolveSample (href base : jstring) : option jstring :=
  if eqs base (str "https://h/") && eqs href (str "/x") then Some (str "https://h/x")
  else None.

Definition noOpts : Opts := {| opts_baseUrl := None |}.

(** The context [htmlToMarkdown] starts from, and its store. *)
Definition ctx0 : Ctx :=
  {| listDepth := 0; orderedStack := []; orderedIndex := 0; baseUrl := None |}.
Definition store0 : Store := [[]].

End Samples.

(** Further sample nodes. *)
Module MoreSamples.

Definition quoteNode : Node :=
  Samples.el "BLOCKQUOTE" []
    [ TextNode (str "a" ++ [NL] ++ str "b") ].

Definition nestedListNode : Node :=
  Samples.el "UL" []
    [ Samples.el "LI" [] [Samples.text "a"];
      Samples.el "LI" []
        [Samples.text "b"; Samples.el "UL" [] [ Samples.el "LI" [] [Samples.text "c"] ]] ].

Definition headedTableNode : Node :=
  Samples.el "TABLE" []
    [ Samples.el "TBODY" []
        [ Samples.el "TR" [] [ Samples.el "TH" [] [Samples.text "A"];
                               Samples.el "TH" [] [Samples.text "B"] ];
          Samples.el "TR" [] [ Samples.el "TD" [] [Samples.text "1"];
                               Samples.el "TD" [] [Samples.text "2"] ] ] ].

Definition headingNode : Node := Samples.el "H3" [] [Samples.text "t"].

Definition wrapperNode : Node :=
  Samples.el "SPAN" [] [Samples.text "x"; Samples.el "SPAN" [] [Samples.text "y"]].

Definition emptyLinkNode : Node := Samples.el "A" [Samples.attr "href" "/x"] [].

Definition ctxWithBase : Ctx :=
  {| listDepth := 0; orderedStack := []; orderedIndex := 0;
     baseUrl := Some (str "https://h/") |}.

(** A [frameset] start tag is still honoured after the [div] of the
    wrapper: the parser drops the body it had opened, wrapper and all, and
    the document is left with the head and the frameset. *)
Definition framesetHtml : jstring := str "<frameset>".
Definition framesetDocument : Document :=
  [ OtherNode 10;
    Samples.el "HTML" []
      [ Samples.el "HEAD" [] [ Samples.el "META" [Samples.attr "charset" "utf-8"] [] ];
        Samples.el "FRAMESET" [] [] ] ].


(** A table with an SVG [thead] in its cell: foreign elements keep their
    names in lower case, and the selectors find them. *)
Definition foreign (name : string) (ch : list Node) : Node :=
  ElementNode (str name) (str name) [] ch.

Definition foreignTheadTable : Node :=
  Samples.el "TABLE" []
    [ Samples.el "TBODY" []
        [ Samples.el "TR" []
            [ Samples.el "TD" []
                [ foreign "svg" [ foreign "thead" [ foreign "tr" [Samples.text "x"] ] ];
                  Samples.text "q" ] ] ] ].

(** A row without cells, and a cell whose code span holds a pipe. *)
Definition emptyRowTable : Node :=
  Samples.el "TABLE" []
    [ Samples.el "TBODY" []
        [ Samples.el "TR" [] [ Samples.el "TD" [] [Samples.text "A"] ];
          Samples.el "TR" [] [] ] ].

Definition pipeInCodeTable : Node :=
  Samples.el "TABLE" []
    [ Samples.el "TBODY" []
        [ Samples.el "TR" []
            [ Samples.el "TD" [] [ Samples.el "CODE" [] [Samples.text "a|b"] ] ] ] ].

(** A code span of two lines in a quote. *)
Definition codeInQuoteNode : Node :=
  Samples.el "BLOCKQUOTE" []
    [ Samples.el "CODE" [] [ TextNode (str "a" ++ [NL] ++ str "b") ] ].

Definition paragraphHtml : jstring := str "<p>a*b_c<code>d*e</code></p>".
Definition paragraphNode : Node :=
  Samples.el "P" [] [ Samples.text "a*b_c"; Samples.el "CODE" [] [Samples.text "d*e"] ].

(** The parser on these inputs and on the earlier samples. *)
Definition parseMore (src : jstring) : Document :=
  if eqs src (wrapHtml framesetHtml) then framesetDocument
  else if eqs src (wrapHtml paragraphHtml) then Samples.documentOf [paragraphNode]
  else Samples.parseSample src.

End MoreSamples.

(* ================================================================== *)
(** ** Notions the properties are stated with *)
(* ================================================================== *)

(** Stores only grow: [st'] keeps every array of [st] as it was. *)
Definition extends (st st' : Store) : Prop := exists ext, st' = st ++ ext.

(** [render] returns on every node of height below [h], and leaves the
    arrays of its caller alone. *)
Definition rendersBelow (render : Node -> Ctx -> M jstring) (h : nat) : Prop :=
  forall m ctx st, height m < h ->
    exists out st', render m ctx st = Some (out, st') /\ extends st st'.

Definition tripleNewline : jstring := [NL; NL; NL].

(** What [renderList] makes of one item: the bullet and the first line,
    the other lines two columns further in. *)
Definition bulletOf (ordered : bool) (n : nat) : jstring :=
  if ordered then ofNat n ++ str ". " else str "- ".

Definition listItemBlock (depth : nat) (bullet contentMd : jstring) : jstring :=
  let lines := split NL contentMd in
  let indent := repeat (str "  ") depth in
  join [NL] ((indent ++ bullet ++ hd [] lines)
             :: map (fun l => indent ++ str "  " ++ l) (tl lines)).

(** The blocks of a list whose items have the contents [contents]: the
    [n]-th one, counted from 1, carries the bullet of [n]. *)
Definition listBlocks (depth : nat) (ordered : bool) (contents : list jstring)
  : list jstring :=
  map (fun '(n, c) => listItemBlock depth (bulletOf ordered n) c)
      (combine (seq 1 (List.length contents)) contents).

(** The number of newlines a string ends with. *)
Definition trailingNewlines (s : jstring) : nat :=
  List.length s - List.length (dropWhileEnd isNl s).

(** The first line of a string is blank: empty, or whitespace only. *)
Definition firstLineBlank (s : jstring) : bool :=
  forallb isSpace (hd [] (split NL s)).

(** The columns of a line of a pipe table: one less than its pipes that
    no backslash precedes. *)
Fixpoint barePipes (s : jstring) (escaped : bool) : nat :=
  match s with
  | [] => 0
  | c :: r =>
      (if N.eqb c 124 && negb escaped then 1 else 0)
      + barePipes r (N.eqb c BACKSLASH)
  end.

Definition pipeColumns (line : jstring) : nat := barePipes line false - 1.


(** The tags [renderNode] handles before it looks at emphasis. *)
Definition handledBeforeEmphasis (tag : jstring) : bool :=
  isIgnoredTag tag
  || existsb (fun t => eqs tag (str t))
             [ "BR"; "HR"; "IMG"; "A"; "CODE"; "PRE"; "BLOCKQUOTE"; "UL"; "OL";
               "TABLE" ]%string
  || match headingLevel tag with Some _ => true | None => false end.

Definition wrapIf (b : bool) (marker s : jstring) : jstring :=
  if b then marker ++ s ++ marker else s.

(** The characters [escapeMd] puts a backslash in front of, taken in one
    pass over the text. *)
Definition isEscapable (c : char) : bool := N.eqb c BACKSLASH || isMdSpecial c.

Definition escapeEach (text : jstring) : jstring :=
  flat_map (fun c => if isEscapable c then [BACKSLASH; c] else [c]) text.

(** Every escapable character of [s] stands right after a backslash that
    escapes it, and every backslash escapes such a character. *)
Fixpoint wellEscaped (s : jstring) : bool :=
  match s with
  | [] => true
  | c :: r =>
      if N.eqb c BACKSLASH then
        match r with
        | d :: r' => isEscapable d && wellEscaped r'
        | [] => false
        end
      else negb (isEscapable c) && wellEscaped r
  end.

(** Dropping the escaping backslashes. *)
Fixpoint unescape (s : jstring) : jstring :=
  match s with
  | [] => []
  | c :: r =>
      if N.eqb c BACKSLASH then
        match r with
        | d :: r' => d :: unescape r'
        | [] => [c]
        end
      else c :: unescape r
  end.

(** The text a [pre] element hands to [codeFence], before the line ends
    are normalized. *)
Definition preText (el : Node) : jstring :=
  match querySelector el "code" with
  | Some c => textContentOf c
  | None => textContentOf el
  end.

(** The last step of [htmlToMarkdown]. *)
Definition finish (raw : jstring) : jstring :=
  trim (normalizeLines (trimBlankLines raw)) ++ [NL].

(** The characters of a string that are not whitespace, in their order. *)
Definition nonSpace (s : jstring) : jstring :=
  filter (fun c => negb (isSpace c)) s.

(** No whitespace but single spaces and single newlines: every whitespace
    character of [s] is a space or a newline and follows a character that
    is not whitespace ([prev] tells whether the one before [s] was). *)
Fixpoint spacesTidy (s : jstring) (prev : bool) : bool :=
  match s with
  | [] => true
  | c :: r =>
      if isSpace c then negb prev && (N.eqb c SP || N.eqb c NL) && spacesTidy r true
      else spacesTidy r false
  end.

(** A line: a string without a newline. *)
Definition isLine (l : jstring) : bool := negb (existsb isNl l).

(** The declarations of a style attribute, as [styleHas] reads one: the
    key is the trimmed text before the first colon, the value the trimmed
    text between the first colon and the second. *)
Definition declKey (pair : jstring) : jstring := trim (hd [] (split 58%N pair)).

Definition declValue (pair : jstring) : jstring :=
  match tl (split 58%N pair) with
  | x :: _ => trim x
  | [] => []
  end.

(** The value of the last declaration of [prop] among [decls]. *)
Definition lastValue (prop : jstring) (decls : list jstring) : option jstring :=
  match find (fun d => negb (isEmpty (declKey d)) && eqs (declKey d) prop) (rev decls) with
  | Some d => Some (declValue d)
  | None => None
  end.

(** What [collapseWhitespace] leaves of the blanks: the space. *)
Definition isTab (c : char) : bool :=
  N.eqb c 9 || N.eqb c 11 || N.eqb c 12 || N.eqb c NBSP.

(** The lines [renderList] makes of one item. *)
Definition itemLines (depth : nat) (bullet contentMd : jstring) : list jstring :=
  (repeat (str "  ") depth ++ bullet ++ hd [] (split NL contentMd))
  :: map (fun l => repeat (str "  ") depth ++ str "  " ++ l) (tl (split NL contentMd)).

(** A row has a header cell. *)
Definition rowHasTh (tr : Node) : bool :=
  existsb (hasTag "TH") (filter isCell (childrenOf tr)).

(** The text of a table cell is one line with no whitespace at its ends. *)
Definition cellOk (t : jstring) : Prop :=
  existsb isNl t = false
  /\ (forall c r, t = c :: r -> isSpace c = false)
  /\ (forall a c, t = a ++ [c] -> isSpace c = false).

(* ================================================================== *)
(** ** Where the characters of the output come from *)
(* ================================================================== *)

(** The renderer once more, with every character of its output carrying
    its origin.  The functions are those of the source, step by step; the
    facts below show that dropping the origins gives the output of
    [renderNode] and of [htmlToMarkdown], character by character. *)
Module Tagged.

Inductive Origin : Type :=
| Markup  (** written by the renderer: markers, fences, separators, indentation *)
| Text    (** a character of the value of a text node that the text rule renders *)
| Attr    (** a character of an [alt] or [title] attribute *)
| Esc     (** a backslash that [escapeMd] puts *)
| Code    (** a character of the text content of a [code] or [pre] element *)
| Raw.    (** a character of a URL, an [href] or a language name, put as it is *)

Definition tchar : Type := (char * Origin)%type.
Definition tstring : Type := list tchar.

Definition code (x : tchar) : char := fst x.
Definition origin (x : tchar) : Origin := snd x.

(** The string itself. *)
Definition erase (s : tstring) : jstring := map code s.

Definition tag (o : Origin) (s : jstring) : tstring := map (fun c => (c, o)) s.

(** A literal of the source. *)
Definition lit (s : jstring) : tstring := tag Markup s.

Definition isEmpty (s : tstring) : bool :=
  match s with [] => true | _ => false end.

Definition orElse (a b : tstring) : tstring := if isEmpty a then b else a.

Fixpoint dropWhile (p : char -> bool) (s : tstring) : tstring :=
  match s with
  | [] => []
  | x :: r => if p (code x) then dropWhile p r else s
  end.

Fixpoint takeWhile (p : char -> bool) (s : tstring) : tstring :=
  match s with
  | [] => []
  | x :: r => if p (code x) then x :: takeWhile p r else []
  end.

Fixpoint dropWhileEnd (p : char -> bool) (s : tstring) : tstring :=
  match s with
  | [] => []
  | x :: r =>
      match dropWhileEnd p r with
      | [] => if p (code x) then [] else [x]
      | r' => x :: r'
      end
  end.

Definition trim (s : tstring) : tstring := dropWhileEnd isSpace (dropWhile isSpace s).

Fixpoint split (sep : char) (s : tstring) : list tstring :=
  match s with
  | [] => [[]]
  | x :: r =>
      if N.eqb (code x) sep then [] :: split sep r
      else match split sep r with
           | h :: t => (x :: h) :: t
           | [] => [[x]]
           end
  end.

Fixpoint join (sep : tstring) (parts : list tstring) : tstring :=
  match parts with
  | [] => []
  | [p] => p
  | p :: rest => p ++ sep ++ join sep rest
  end.

(** [escapeMd] on a text of origin [o]: the backslashes it puts are [Esc]. *)
Definition doubleBackslashes (text : tstring) : tstring :=
  flat_map (fun x => if N.eqb (code x) BACKSLASH then [(BACKSLASH, Esc); x] else [x]) text.

Definition escapeSpecials (text : tstring) : tstring :=
  flat_map (fun x => if isMdSpecial (code x) then [(BACKSLASH, Esc); x] else [x]) text.

Definition escapeMd (o : Origin) (text : jstring) : tstring :=
  escapeSpecials (doubleBackslashes (tag o text)).

Fixpoint squeezeBlanks (s : tstring) (inRun : bool) : tstring :=
  match s with
  | [] => if inRun then lit [SP] else []
  | x :: r =>
      if isBlank (code x) then squeezeBlanks r true
      else (if inRun then lit [SP] else []) ++ x :: squeezeBlanks r false
  end.

Definition collapseWhitespace (s : tstring) : tstring :=
  squeezeBlanks (map (fun x => if N.eqb (code x) NBSP then (SP, Markup) else x) s) false.

Fixpoint squeezeNewlines (s : tstring) (k : nat) : tstring :=
  match s with
  | [] => lit (pendingNewlines k)
  | x :: r =>
      if isNl (code x) then squeezeNewlines r (S k)
      else lit (pendingNewlines k) ++ x :: squeezeNewlines r 0
  end.

Definition normalizeLines (s : tstring) : tstring := squeezeNewlines s 0.

Fixpoint newlinesToSpace (s : tstring) (inRun : bool) : tstring :=
  match s with
  | [] => if inRun then lit [SP] else []
  | x :: r =>
      if isNl (code x) then newlinesToSpace r true
      else (if inRun then lit [SP] else []) ++ x :: newlinesToSpace r false
  end.

Fixpoint afterLastNewline (w : tstring) : option tstring :=
  match w with
  | [] => None
  | x :: r =>
      match afterLastNewline r with
      | Some t => Some t
      | None => if isNl (code x) then Some r else None
      end
  end.

Definition replaceLeadingBlank (s : tstring) : tstring :=
  match takeWhile isSpace s with
  | [] => s
  | _ :: w =>
      match afterLastNewline w with
      | Some after => lit [NL] ++ after ++ dropWhile isSpace s
      | None => s
      end
  end.

Fixpoint replaceTrailingBlank (s : tstring) : tstring :=
  match s with
  | [] => []
  | x :: r =>
      if isNl (code x) && negb (isEmpty r) && forallb (fun y => isSpace (code y)) r
      then lit [NL]
      else x :: replaceTrailingBlank r
  end.

Definition stripNewlines (s : tstring) : tstring :=
  dropWhileEnd isNl (dropWhile isNl s).

Definition trimBlankLines (s : tstring) : tstring :=
  stripNewlines (replaceTrailingBlank (replaceLeadingBlank s)).

(** [codeFence]: the text is that of the element, the rest is markup; the
    language name comes from a class attribute as it is. *)
Definition codeFence (text : jstring) (lang : option jstring) : tstring :=
  let fence := if includes (str "```") text then str "````" else str "```" in
  let info := match lang with Some l => l | None => [] end in
  lit fence ++ (if JS.isEmpty info then [] else lit [SP] ++ tag Raw info) ++ lit [NL]
      ++ tag Code (dropFinalNewline text) ++ lit [NL] ++ lit fence.

Definition titleSuffix (title : option jstring) : tstring :=
  match title with
  | Some t => if JS.isEmpty t then []
              else lit [SP; QUOTE] ++ escapeMd Attr t ++ lit [QUOTE]
  | None => []
  end.

Definition rowLine (cols : list tstring) : tstring :=
  lit (str "| ") ++ join (lit (str " | ")) cols ++ lit (str " |").

Definition tableHead (grid : list (list tstring)) (headerCells : option (list tstring))
  : list tstring :=
  match headerCells with
  | Some h => h
  | None => hd [] grid
  end.

Definition tableBody (grid : list (list tstring)) (headerCells : option (list tstring))
  : list (list tstring) :=
  match headerCells with
  | Some _ => grid
  | None => tl grid
  end.

Definition tableLines (head : list tstring) (body : list (list tstring)) : list tstring :=
  let sep := map (fun _ => lit (str "---")) head in
  [rowLine head] ++ [rowLine sep] ++ map rowLine body.

Section Renderer.

Variable toLowerCase : jstring -> jstring.
Variable resolveUrl : jstring -> jstring -> option jstring.

Definition emphasize (el : Node) (content : tstring) : tstring :=
  let out := content in
  let out := if isBoldLike toLowerCase el
             then lit (str "**") ++ out ++ lit (str "**") else out in
  let out := if isItalicLike toLowerCase el
             then lit (str "*") ++ out ++ lit (str "*") else out in
  let out := if isStrikeLike toLowerCase el
             then lit (str "~~") ++ out ++ lit (str "~~") else out in
  out.

Section OpenRecursion.

Variable renderNode : Node -> Ctx -> M tstring.

Definition renderInlineChildren (el : Node) (ctx : Ctx) : M tstring :=
  forOf (childNodesOf el)
        (fun out child => md <- renderNode child ctx ;; ret (out ++ md)) [].

Definition renderListItem (li : Node) (ctx : Ctx) : M tstring :=
  parts <- forOf (childNodesOf li)
                 (fun parts child =>
                    md <- renderNode child ctx ;;
                    if isEmpty md then ret parts else ret (parts ++ [md])) [] ;;
  ret (squeezeNewlines (join (lit [NL]) parts) 0).

Definition renderList (el : Node) (ctx : Ctx) (ordered : bool) : M tstring :=
  let items := filter (hasTag "LI") (childrenOf el) in
  counters <- concatArray (orderedIndex ctx) [0] ;;
  let next := {| listDepth := listDepth ctx + 1;
                 orderedStack := orderedStack ctx ++ [ordered];
                 orderedIndex := counters;
                 baseUrl := baseUrl ctx |} in
  out <- forOf items
               (fun out li =>
                  prev <- readLast (orderedIndex next) ;;
                  let idx := prev + 1 in
                  writeLast (orderedIndex next) idx ;;
                  let bullet := lit (if ordered then ofNat idx ++ str ". " else str "- ") in
                  md <- renderListItem li next ;;
                  let contentMd := trimBlankLines md in
                  let lines := split NL contentMd in
                  let indent := lit (repeat (str "  ") (listDepth ctx)) in
                  let first := indent ++ bullet ++ hd [] lines in
                  let rest := map (fun l => indent ++ lit (str "  ") ++ l) (tl lines) in
                  ret (out ++ [join (lit [NL]) (first :: rest)])) [] ;;
  ret (join (lit [NL]) out).

Definition cellText (td : Node) (ctx : Ctx) : M tstring :=
  inner <- renderInlineChildren td ctx ;;
  let md := trimBlankLines inner in
  ret (trim (newlinesToSpace (collapseWhitespace md) false)).

Definition tableGrid (table : Node) (ctx : Ctx)
  : M (list (list tstring) * option (list tstring)) :=
  forOf (tableRows table)
        (fun '(grid, headerCells) tr =>
           let cells := filter isCell (childrenOf tr) in
           texts <- mapM (fun td => cellText td ctx) cells ;;
           let headerCells' :=
             match headerCells with
             | None => if existsb (hasTag "TH") cells then Some texts else None
             | Some _ => headerCells
             end in
           ret (grid ++ [texts], headerCells'))
        ([], None).

Definition renderTable (table : Node) (ctx : Ctx) : M tstring :=
  '(grid, headerCells) <- tableGrid table ctx ;;
  let head := tableHead grid headerCells in
  let body := tableBody grid headerCells in
  match head with
  | [] => ret []
  | _ => ret (join (lit [NL]) (tableLines head body))
  end.

Definition renderElement (el : Node) (ctx : Ctx) : M tstring :=
  let tag_ := tagNameOf el in
  if isIgnoredTag tag_ then ret []
  else if eqs tag_ (str "BR") then ret (lit (str "  " ++ [NL]))
  else if eqs tag_ (str "HR") then ret (lit ([NL; NL] ++ str "---" ++ [NL; NL]))
  else if eqs tag_ (str "IMG") then
    let alt := getAttrOrEmpty el "alt" in
    let src := getAttrOrEmpty el "src" in
    let title := getAttr el "title" in
    let url := absolutizeUrl resolveUrl src (baseUrl ctx) in
    ret (lit (str "![") ++ escapeMd Attr alt ++ lit (str "](") ++ tag Raw url
         ++ titleSuffix title ++ lit (str ")"))
  else if eqs tag_ (str "A") then
    let href := getAttrOrEmpty el "href" in
    let title := getAttr el "title" in
    inner <- renderInlineChildren el ctx ;;
    let text := orElse (trimBlankLines inner) (tag Raw (getAttrOrEmpty el "href")) in
    let url := absolutizeUrl resolveUrl href (baseUrl ctx) in
    ret (lit (str "[") ++ text ++ lit (str "](") ++ tag Raw url
         ++ titleSuffix title ++ lit (str ")"))
  else if eqs tag_ (str "CODE") then
    let raw := textContentOf el in
    let ticks := if includes [BACKTICK] raw then str "``" else str "`" in
    ret (lit ticks ++ tag Code raw ++ lit ticks)
  else if eqs tag_ (str "PRE") then
    let code := querySelector el "code" in
    let text := match code with
                | Some c => textContentOf c
                | None => textContentOf el
                end in
    let text := normalizeEol text in
    let lang := match code with
                | Some c => getCodeLang toLowerCase c
                | None => None
                end in
    ret (lit [NL; NL] ++ codeFence text lang ++ lit [NL; NL])
  else match headingLevel tag_ with
  | Some level =>
    let hashes := repeat (str "#") (Nat.max 1 (Nat.min 6 level)) in
    inner <- renderInlineChildren el ctx ;;
    let content := trimBlankLines inner in
    ret (lit [NL; NL] ++ lit hashes ++ lit [SP] ++ content ++ lit [NL; NL])
  | None =>
  if eqs tag_ (str "BLOCKQUOTE") then
    inner <- renderInlineChildren el ctx ;;
    let inner := trimBlankLines inner in
    let prefixed := join (lit [NL]) (map (fun l => lit (str "> ") ++ l) (split NL inner)) in
    ret (lit [NL; NL] ++ prefixed ++ lit [NL; NL])
  else if eqs tag_ (str "UL") then
    list <- renderList el ctx false ;; ret (lit [NL] ++ list ++ lit [NL; NL])
  else if eqs tag_ (str "OL") then
    list <- renderList el ctx true ;; ret (lit [NL] ++ list ++ lit [NL; NL])
  else if eqs tag_ (str "TABLE") then
    table <- renderTable el ctx ;; ret (lit [NL; NL] ++ table ++ lit [NL; NL])
  else if isBoldLike toLowerCase el || isItalicLike toLowerCase el
          || isStrikeLike toLowerCase el then
    content <- renderInlineChildren el ctx ;;
    ret (emphasize el content)
  else if isBlock el then
    inner <- renderInlineChildren el ctx ;;
    let inner := trimBlankLines inner in
    if isEmpty inner then ret []
    else ret (lit [NL; NL] ++ inner ++ lit [NL; NL])
  else renderInlineChildren el ctx
  end.

(** The text rule: the characters are those of the text node, and the
    whitespace the rule leaves of it. *)
Definition renderNodeBody (node : Node) (ctx : Ctx) : M tstring :=
  match node with
  | TextNode nodeValue =>
      let t := collapseSpaceRuns nodeValue false false in
      ret (escapeMd Text t)
  | OtherNode _ => ret []
  | ElementNode _ _ _ _ => renderElement node ctx
  end.

End OpenRecursion.

Fixpoint renderNode (fuel : nat) : Node -> Ctx -> M tstring :=
  match fuel with
  | O => fun _ _ => outOfFuel
  | S fuel' => renderNodeBody (renderNode fuel')
  end.

Variable parseFromString : jstring -> Document.

Definition finish (raw : tstring) : tstring :=
  trim (normalizeLines (trimBlankLines raw)) ++ lit [NL].

Definition htmlToMarkdown (fuel : nat) (html : jstring) (opts : Opts) : option tstring :=
  if JS.isEmpty html || JS.isEmpty (JS.trim html) then Some []
  else
    let doc := parseFromString (wrapHtml html) in
    match getElementById doc "__root__" with
    | None => Some []
    | Some root =>
        match (ctx <- initialCtx opts ;;
               forOf (childNodesOf root)
                     (fun out child => md <- renderNode fuel child ctx ;; ret (out ++ md))
                     []) [] with
        | Some (out, _) => Some (finish out)
        | None => None
        end
    end.

End Renderer.

(** An escaping backslash, a character that [escapeMd] has to escape, and
    what is well escaped: every [Esc] character is a backslash and stands
    right before a character to escape, and every character to escape
    stands right after an [Esc] character.  [pending] tells that the
    character before was an [Esc] one. *)
Definition isEsc (x : tchar) : bool :=
  match origin x with Esc => true | _ => false end.

Definition needsEscape (x : tchar) : bool :=
  match origin x with
  | Text | Attr => isEscapable (code x)
  | _ => false
  end.

Definition accepts (pending : bool) (x : tchar) : bool :=
  if pending then needsEscape x
  else if isEsc x then N.eqb (code x) BACKSLASH
  else negb (needsEscape x).

Definition next (pending : bool) (x : tchar) : bool := negb pending && isEsc x.

Fixpoint escOk (s : tstring) (pending : bool) : bool :=
  match s with
  | [] => negb pending
  | x :: r => accepts pending x && escOk r (next pending x)
  end.

(** A tagged string stands for a string and is well escaped. *)
Definition stands (t : tstring) (s : jstring) : Prop :=
  erase t = s /\ escOk t false = true.

(** Two computations run alike: they return together, with results that
    [R] relates and the same store. *)
Definition alike {X Y} (R : X -> Y -> Prop) (tc : M X) (c : M Y) : Prop :=
  forall st,
    match tc st, c st with
    | Some (x, s1), Some (y, s2) => R x y /\ s1 = s2
    | None, None => True
    | _, _ => False
    end.

(** The grids and the header cells agree. *)
Definition gridsAgree (t : list (list tstring) * option (list tstring))
           (g : list (list jstring) * option (list jstring)) : Prop :=
  Forall2 (Forall2 stands) (fst t) (fst g)
  /\ match snd t, snd g with
     | Some th, Some h => Forall2 stands th h
     | None, None => True
     | _, _ => False
     end.

End Tagged.

(* ================================================================== *)
(** ** Facts about the string functions *)
(* ================================================================== *)

Section StringFacts.

Lemma eqs_eq (a b : jstring) : eqs a b = true <-> a = b.
Proof.
  revert b; induction a as [|x a IH]; intros [|y b]; simpl; split; intro H;
    try reflexivity; try discriminate.
  - apply andb_true_iff in H as [Hx Hr].
    apply N.eqb_eq in Hx. apply IH in Hr. subst; reflexivity.
  - injection H as -> ->. rewrite N.eqb_refl. simpl. apply IH. reflexivity.
Qed.

Lemma eqs_refl (a : jstring) : eqs a a = true.
Proof. apply eqs_eq. reflexivity. Qed.

Lemma startsWith_spec (p s : jstring) :
  startsWith p s = true <-> exists b, s = p ++ b.
Proof.
  revert s; induction p as [|x p IH]; intros s; simpl.
  - split; [intros _; exists s; reflexivity | reflexivity].
  - destruct s as [|y s].
    + split; [discriminate | intros [b Hb]; discriminate].
    + split.
      * intros H. apply andb_true_iff in H as [Hx Hr].
        apply N.eqb_eq in Hx. apply IH in Hr as [b ->]. subst. exists b. reflexivity.
      * intros [b Hb]. injection Hb as -> ->. rewrite N.eqb_refl. simpl.
        apply IH. exists b. reflexivity.
Qed.

Lemma includes_unfold (sub s : jstring) :
  includes sub s = startsWith sub s || match s with [] => false | _ :: r => includes sub r end.
Proof. destruct s; reflexivity. Qed.

Lemma includes_spec (sub s : jstring) :
  includes sub s = true <-> exists a b, s = a ++ sub ++ b.
Proof.
  induction s as [|c s IH]; rewrite includes_unfold.
  - rewrite orb_false_r, startsWith_spec. split.
    + intros [b Hb]. exists [], b. exact Hb.
    + intros [a [b Hb]]. destruct a; [exists b; exact Hb | discriminate].
  - rewrite orb_true_iff, startsWith_spec, IH. split.
    + intros [[b Hb] | [a [b Hb]]].
      * exists [], b. exact Hb.
      * exists (c :: a), b. simpl. rewrite Hb. reflexivity.
    + intros [[|x a] [b Hb]].
      * left. exists b. exact Hb.
      * right. injection Hb as -> ->. exists a, b. reflexivity.
Qed.

Lemma includes_false_part (sub a s b : jstring) :
  includes sub (a ++ s ++ b) = false -> includes sub s = false.
Proof.
  intros H. destruct (includes sub s) eqn:E; [|reflexivity].
  apply includes_spec in E as [x [y ->]].
  assert (includes sub (a ++ (x ++ sub ++ y) ++ b) = true) as H'.
  { apply includes_spec. exists (a ++ x), (y ++ b).
    repeat rewrite <- app_assoc. reflexivity. }
  congruence.
Qed.

Lemma takeWhile_dropWhile (p : char -> bool) (s : jstring) :
  s = takeWhile p s ++ dropWhile p s.
Proof.
  induction s as [|c s IH]; simpl; [reflexivity|].
  destruct (p c); simpl; [f_equal; exact IH | reflexivity].
Qed.

Lemma takeWhile_all (p : char -> bool) (s : jstring) :
  forallb p (takeWhile p s) = true.
Proof.
  induction s as [|c s IH]; simpl; [reflexivity|].
  destruct (p c) eqn:E; simpl; [rewrite E, IH|]; reflexivity.
Qed.

Lemma dropWhile_head (p : char -> bool) (s : jstring) (c : char) (r : jstring) :
  dropWhile p s = c :: r -> p c = false.
Proof.
  induction s as [|x s IH]; simpl; [discriminate|].
  destruct (p x) eqn:E; [exact IH|]. intros H. injection H as -> _. exact E.
Qed.

Lemma dropWhile_all (p : char -> bool) (s : jstring) :
  forallb p s = true -> dropWhile p s = [].
Proof.
  induction s as [|x s IH]; simpl; [reflexivity|].
  intros H. apply andb_true_iff in H as [-> Hs]. apply IH, Hs.
Qed.

Lemma dropWhileEnd_split (p : char -> bool) (s : jstring) :
  exists w, s = dropWhileEnd p s ++ w /\ forallb p w = true.
Proof.
  induction s as [|c s [w [Hs Hw]]]; simpl.
  - exists []. split; reflexivity.
  - destruct (dropWhileEnd p s) as [|d r] eqn:E.
    + destruct (p c) eqn:Ec.
      * exists (c :: w). simpl in Hs. subst s. simpl. rewrite Ec, Hw. split; reflexivity.
      * exists w. simpl in *. subst s. split; [reflexivity | exact Hw].
    + exists w. split; [|exact Hw]. simpl. rewrite Hs at 1. reflexivity.
Qed.

Lemma dropWhileEnd_last (p : char -> bool) (s a : jstring) (c : char) :
  dropWhileEnd p s = a ++ [c] -> p c = false.
Proof.
  revert a; induction s as [|x s IH]; intros a; simpl.
  - destruct a; discriminate.
  - destruct (dropWhileEnd p s) as [|d r] eqn:E.
    + destruct (p x) eqn:Ex.
      * destruct a; discriminate.
      * destruct a as [|y [|z a]]; simpl; intros H; try discriminate.
        injection H as <-. exact Ex.
    + destruct a as [|y a]; simpl; intros H.
      * discriminate.
      * injection H as _ H. apply (IH a). exact H.
Qed.

Lemma dropWhileEnd_head (p : char -> bool) (s : jstring) (c : char) (r : jstring) :
  dropWhileEnd p s = c :: r -> exists r', s = c :: r'.
Proof.
  destruct s as [|x s]; simpl; [discriminate|].
  destruct (dropWhileEnd p s); [destruct (p x)|]; intros H; try discriminate;
    injection H as -> _; eexists; reflexivity.
Qed.

Lemma dropWhileEnd_all (p : char -> bool) (s : jstring) :
  forallb p s = true -> dropWhileEnd p s = [].
Proof.
  induction s as [|x s IH]; simpl; [reflexivity|].
  intros H. apply andb_true_iff in H as [Hx Hs]. rewrite (IH Hs), Hx. reflexivity.
Qed.

Lemma dropWhileEnd_keep (p : char -> bool) (s : jstring) (c : char) :
  p c = false -> dropWhileEnd p (s ++ [c]) = s ++ [c].
Proof.
  intros Hc. induction s as [|x s IH]; simpl.
  - rewrite Hc. reflexivity.
  - rewrite IH. destruct (s ++ [c]) eqn:E; [destruct s; discriminate | reflexivity].
Qed.

(** [trim] leaves no whitespace at either end. *)
Lemma trim_head (s : jstring) (c : char) (r : jstring) :
  trim s = c :: r -> isSpace c = false.
Proof.
  unfold trim. intros H.
  destruct (dropWhileEnd_head _ _ _ _ H) as [r' Hr'].
  apply (dropWhile_head _ _ _ _ Hr').
Qed.

Lemma trim_last (s a : jstring) (c : char) :
  trim s = a ++ [c] -> isSpace c = false.
Proof. unfold trim. apply dropWhileEnd_last. Qed.

Lemma trim_part (s : jstring) : exists a b, s = a ++ trim s ++ b.
Proof.
  unfold trim. destruct (dropWhileEnd_split isSpace (dropWhile isSpace s)) as [w [Hw _]].
  exists (takeWhile isSpace s), w. rewrite <- Hw. apply takeWhile_dropWhile.
Qed.

Lemma trim_blank (s : jstring) : forallb isSpace s = true -> trim s = [].
Proof. intros H. unfold trim. rewrite (dropWhile_all _ _ H). reflexivity. Qed.

Lemma isNl_isSpace (c : char) : isNl c = true -> isSpace c = true.
Proof. unfold isNl. intros H. apply N.eqb_eq in H. subst c. reflexivity. Qed.

Lemma includes_triple_after (c : char) (x : jstring) (j : nat) :
  isNl c = false -> j <= 2 ->
  includes tripleNewline (List.repeat NL j ++ c :: x) = includes tripleNewline x.
Proof.
  intros Hc Hj. unfold isNl in Hc. rewrite N.eqb_sym in Hc.
  unfold tripleNewline.
  destruct j as [|[|[|j]]]; [| | |lia];
    cbn [List.repeat app includes startsWith]; rewrite Hc, ?N.eqb_refl;
    cbn [andb orb]; rewrite ?andb_false_r; cbn [andb orb];
    destruct x; reflexivity.
Qed.

(** [normalizeLines] leaves no run of three newlines. *)
Lemma squeezeNewlines_no_triple (s : jstring) (k : nat) :
  includes tripleNewline (squeezeNewlines s k) = false.
Proof.
  revert k; induction s as [|c s IH]; intros k; simpl.
  - unfold pendingNewlines. destruct k as [|[|[|k]]]; reflexivity.
  - destruct (isNl c) eqn:Ec; [apply IH|].
    unfold pendingNewlines. destruct (3 <=? k) eqn:Ek.
    + rewrite (includes_triple_after c _ 2 Ec); [apply IH | lia].
    + apply Nat.leb_gt in Ek.
      rewrite (includes_triple_after c _ k Ec); [apply IH | lia].
Qed.

Lemma includes_triple_snoc (t : jstring) :
  includes tripleNewline t = false ->
  (forall a c, t = a ++ [c] -> isSpace c = false) ->
  includes tripleNewline (t ++ [NL]) = false.
Proof.
  intros Ht Hlast.
  destruct (includes tripleNewline (t ++ [NL])) eqn:E; [|reflexivity].
  apply includes_spec in E as [a [b E]]. exfalso.
  destruct (list_eq_dec N.eq_dec b []) as [-> | Hb].
  - rewrite app_nil_r in E.
    change tripleNewline with ([NL; NL] ++ [NL]) in E.
    rewrite app_assoc in E. apply app_inj_tail in E as [E _].
    assert (isSpace NL = false) as H.
    { apply (Hlast (a ++ [NL])). rewrite E, <- app_assoc. reflexivity. }
    discriminate H.
  - destruct (exists_last Hb) as [b' [y ->]].
    rewrite !app_assoc in E. apply app_inj_tail in E as [E _].
    assert (includes tripleNewline t = true) as H.
    { apply includes_spec. exists a, b'. rewrite E, <- app_assoc. reflexivity. }
    congruence.
Qed.

Lemma escapeMd_escapeEach (t : jstring) : escapeMd t = escapeEach t.
Proof.
  unfold escapeMd, escapeEach, escapeSpecials, doubleBackslashes, isEscapable.
  induction t as [|c t IH]; [reflexivity|].
  cbn [flat_map]. rewrite flat_map_app, IH. f_equal.
  destruct (N.eqb c BACKSLASH) eqn:E.
  - apply N.eqb_eq in E. subst c. reflexivity.
  - cbn [flat_map orb]. rewrite app_nil_r. reflexivity.
Qed.

Lemma isEscapable_not_backslash (c : char) :
  isEscapable c = false -> N.eqb c BACKSLASH = false.
Proof. unfold isEscapable. intros H. apply orb_false_iff in H as [H _]. exact H. Qed.

Lemma wellEscaped_escapeEach (t : jstring) : wellEscaped (escapeEach t) = true.
Proof.
  unfold escapeEach. induction t as [|c t IH]; [reflexivity|].
  cbn [flat_map]. destruct (isEscapable c) eqn:E.
  - cbn [app wellEscaped]. rewrite N.eqb_refl, E, IH. reflexivity.
  - cbn [app wellEscaped]. rewrite (isEscapable_not_backslash c E), E, IH. reflexivity.
Qed.

Lemma unescape_escapeEach (t : jstring) : unescape (escapeEach t) = t.
Proof.
  unfold escapeEach. induction t as [|c t IH]; [reflexivity|].
  cbn [flat_map]. destruct (isEscapable c) eqn:E.
  - cbn [app unescape]. rewrite N.eqb_refl, IH. reflexivity.
  - cbn [app unescape]. rewrite (isEscapable_not_backslash c E), IH. reflexivity.
Qed.

Lemma normalizeEol_no_cr (t : jstring) :
  existsb (N.eqb CR) t = false -> normalizeEol t = t.
Proof.
  induction t as [|c t IH]; [reflexivity|].
  cbn [existsb normalizeEol]. intros H. apply orb_false_iff in H as [Hc Ht].
  rewrite N.eqb_sym in Hc. rewrite Hc, (IH Ht). reflexivity.
Qed.

Lemma dropFinalNewline_cases (t : jstring) :
  dropFinalNewline t = t \/ t = dropFinalNewline t ++ [NL].
Proof.
  induction t as [|c t IH]; [left; reflexivity|].
  cbn [dropFinalNewline]. destruct t as [|d t].
  - destruct (isNl c) eqn:E; [|left; reflexivity].
    apply N.eqb_eq in E. subst c. right. reflexivity.
  - destruct IH as [IH | IH].
    + left. rewrite IH. reflexivity.
    + right. cbn [app]. rewrite <- IH. reflexivity.
Qed.



Lemma dropWhileEnd_snoc_drop (p : char -> bool) (s : jstring) (c : char) :
  p c = true -> dropWhileEnd p (s ++ [c]) = dropWhileEnd p s.
Proof.
  intros Hc. induction s as [|x s IH]; simpl.
  - rewrite Hc. reflexivity.
  - rewrite IH. reflexivity.
Qed.

Lemma last_cases (t : jstring) : t = [] \/ exists a c, t = a ++ [c].
Proof.
  destruct (list_eq_dec N.eq_dec t []) as [-> | Ht]; [left; reflexivity|].
  destruct (exists_last Ht) as [a [c ->]]. right. exists a, c. reflexivity.
Qed.

Lemma split_cons (sep c : char) (s : jstring) :
  N.eqb c sep = false -> exists h t, split sep (c :: s) = (c :: h) :: t.
Proof.
  intros Hc. simpl. rewrite Hc. destruct (split sep s) as [|h t]; eexists _, _; reflexivity.
Qed.

Lemma finish_trailing (raw : jstring) : trailingNewlines (finish raw) = 1.
Proof.
  unfold trailingNewlines, finish.
  set (t := trim (normalizeLines (trimBlankLines raw))).
  rewrite dropWhileEnd_snoc_drop by reflexivity.
  assert (dropWhileEnd isNl t = t) as ->.
  { destruct (last_cases t) as [-> | [a [c Ht]]]; [reflexivity|].
    rewrite Ht. apply dropWhileEnd_keep.
    destruct (isNl c) eqn:E; [|reflexivity].
    apply isNl_isSpace in E. rewrite (trim_last _ _ _ Ht) in E. discriminate. }
  rewrite length_app. simpl. lia.
Qed.

Lemma finish_first_line (raw : jstring) :
  finish raw <> [NL] -> firstLineBlank (finish raw) = false.
Proof.
  unfold finish. destruct (trim (normalizeLines (trimBlankLines raw))) as [|c r] eqn:Ht.
  - intros H. exfalso. apply H. reflexivity.
  - intros _. pose proof (trim_head _ _ _ Ht) as Hc.
    assert (N.eqb c NL = false) as Hnl.
    { destruct (N.eqb c NL) eqn:E; [|reflexivity].
      apply isNl_isSpace in E. congruence. }
    unfold firstLineBlank. cbn [app].
    destruct (split_cons NL c (r ++ [NL]) Hnl) as [h [t ->]].
    simpl. rewrite Hc. reflexivity.
Qed.

(** The passes over the finished text change whitespace only. *)
Lemma nonSpace_app (a b : jstring) : nonSpace (a ++ b) = nonSpace a ++ nonSpace b.
Proof. apply filter_app. Qed.

Lemma nonSpace_blank (p : char -> bool) (w : jstring) :
  (forall c, p c = true -> isSpace c = true) ->
  forallb p w = true -> nonSpace w = [].
Proof.
  intros Hp. induction w as [|c w IH]; [reflexivity|].
  cbn [forallb]. intros H. apply andb_true_iff in H as [Hc Hw].
  unfold nonSpace. cbn [filter]. rewrite (Hp c Hc). cbn [negb]. apply IH, Hw.
Qed.

Lemma nonSpace_dropWhile (p : char -> bool) (s : jstring) :
  (forall c, p c = true -> isSpace c = true) ->
  nonSpace (dropWhile p s) = nonSpace s.
Proof.
  intros Hp. rewrite (takeWhile_dropWhile p s) at 2.
  rewrite nonSpace_app, (nonSpace_blank p _ Hp (takeWhile_all p s)). reflexivity.
Qed.

Lemma nonSpace_dropWhileEnd (p : char -> bool) (s : jstring) :
  (forall c, p c = true -> isSpace c = true) ->
  nonSpace (dropWhileEnd p s) = nonSpace s.
Proof.
  intros Hp. destruct (dropWhileEnd_split p s) as [w [Hs Hw]].
  rewrite Hs at 2. rewrite nonSpace_app, (nonSpace_blank p _ Hp Hw), app_nil_r.
  reflexivity.
Qed.

Lemma nonSpace_trim (s : jstring) : nonSpace (trim s) = nonSpace s.
Proof.
  unfold trim. rewrite nonSpace_dropWhileEnd, nonSpace_dropWhile; auto.
Qed.

Lemma nonSpace_pendingNewlines (k : nat) : nonSpace (pendingNewlines k) = [].
Proof.
  unfold pendingNewlines. destruct (3 <=? k); [reflexivity|].
  induction k as [|k IH]; [reflexivity | exact IH].
Qed.

Lemma nonSpace_squeezeNewlines (s : jstring) (k : nat) :
  nonSpace (squeezeNewlines s k) = nonSpace s.
Proof.
  revert k; induction s as [|c s IH]; intros k; cbn [squeezeNewlines].
  - apply nonSpace_pendingNewlines.
  - destruct (isNl c) eqn:E.
    + rewrite IH. unfold nonSpace. cbn [filter]. rewrite (isNl_isSpace c E). reflexivity.
    + rewrite nonSpace_app, nonSpace_pendingNewlines. unfold nonSpace. cbn [filter app].
      fold (nonSpace (squeezeNewlines s 0)). fold (nonSpace s). rewrite IH. reflexivity.
Qed.

Lemma nonSpace_replaceTrailingBlank (s : jstring) :
  nonSpace (replaceTrailingBlank s) = nonSpace s.
Proof.
  induction s as [|c s IH]; [reflexivity|]. cbn [replaceTrailingBlank].
  destruct (isNl c && negb (isEmpty s) && forallb isSpace s) eqn:E.
  - apply andb_true_iff in E as [E Hs]. apply andb_true_iff in E as [Hc _].
    unfold nonSpace. cbn [filter]. rewrite (isNl_isSpace c Hc). cbn [negb].
    symmetry. apply (nonSpace_blank isSpace); auto.
  - unfold nonSpace. cbn [filter]. fold (nonSpace (replaceTrailingBlank s)).
    fold (nonSpace s). rewrite IH. reflexivity.
Qed.

Lemma afterLastNewline_suffix (w after : jstring) :
  afterLastNewline w = Some after -> exists before, w = before ++ after.
Proof.
  revert after; induction w as [|c w IH]; intros after; cbn [afterLastNewline];
    [discriminate|].
  destruct (afterLastNewline w) as [t|].
  - intros H. injection H as <-. destruct (IH t eq_refl) as [before ->].
    exists (c :: before). reflexivity.
  - destruct (isNl c); [|discriminate]. intros H. injection H as <-.
    exists [c]. reflexivity.
Qed.

Lemma nonSpace_replaceLeadingBlank (s : jstring) :
  nonSpace (replaceLeadingBlank s) = nonSpace s.
Proof.
  unfold replaceLeadingBlank.
  pose proof (takeWhile_all isSpace s) as Hall.
  pose proof (takeWhile_dropWhile isSpace s) as Hs.
  destruct (takeWhile isSpace s) as [|c w]; [reflexivity|].
  destruct (afterLastNewline w) as [after|] eqn:E; [|reflexivity].
  destruct (afterLastNewline_suffix w after E) as [before ->].
  rewrite Hs at 2. cbn [forallb] in Hall.
  apply andb_true_iff in Hall as [Hc Hw]. rewrite forallb_app in Hw.
  apply andb_true_iff in Hw as [Hb Ha].
  change (NL :: after ++ dropWhile isSpace s) with ((NL :: after) ++ dropWhile isSpace s).
  rewrite !nonSpace_app. f_equal.
  rewrite (nonSpace_blank isSpace (NL :: after)) by (auto; cbn [forallb]; rewrite Ha; reflexivity).
  symmetry. apply (nonSpace_blank isSpace); [auto|].
  cbn [app forallb]. rewrite Hc, forallb_app, Hb, Ha. reflexivity.
Qed.

Lemma nonSpace_trimBlankLines (s : jstring) : nonSpace (trimBlankLines s) = nonSpace s.
Proof.
  unfold trimBlankLines, stripNewlines.
  rewrite nonSpace_dropWhileEnd, nonSpace_dropWhile by apply isNl_isSpace.
  rewrite nonSpace_replaceTrailingBlank. apply nonSpace_replaceLeadingBlank.
Qed.

Lemma nonSpace_finish (raw : jstring) : nonSpace (finish raw) = nonSpace raw.
Proof.
  unfold finish, normalizeLines.
  rewrite nonSpace_app, nonSpace_trim, nonSpace_squeezeNewlines, nonSpace_trimBlankLines.
  apply app_nil_r.
Qed.

End StringFacts.

(* ================================================================== *)
(** ** Facts about trees, stores and loops *)
(* ================================================================== *)

Section TreeFacts.

Lemma Node_induction (P : Node -> Prop) :
  (forall v, P (TextNode v)) ->
  (forall t ln a ch, Forall P ch -> P (ElementNode t ln a ch)) ->
  (forall k, P (OtherNode k)) ->
  forall n, P n.
Proof.
  intros Ht He Ho.
  fix IH 1. intros [v | t ln a ch | k].
  - apply Ht.
  - apply He. induction ch as [|c ch IHch]; constructor; [apply IH | exact IHch].
  - apply Ho.
Qed.

Lemma height_in_forest (l : list Node) (c : Node) :
  In c l -> height c <= heightOfForest l.
Proof.
  induction l as [|x l IH]; simpl; [tauto|].
  intros [-> | H]; [lia | specialize (IH H); lia].
Qed.

Lemma height_element (t ln : jstring) (a : list (jstring * jstring)) (ch : list Node) :
  height (ElementNode t ln a ch) = S (heightOfForest ch).
Proof. reflexivity. Qed.

Lemma height_childNode (el c : Node) :
  In c (childNodesOf el) -> height c < height el.
Proof.
  destruct el as [v | t ln a ch | k]; cbn [childNodesOf In]; try tauto.
  intros H. apply height_in_forest in H. rewrite height_element. lia.
Qed.

Lemma height_child (el c : Node) :
  In c (childrenOf el) -> height c < height el.
Proof.
  unfold childrenOf. intros H. apply filter_In in H as [H _].
  apply height_childNode, H.
Qed.

Lemma findFirst_height (p : Node -> bool) (n x : Node) :
  findFirst p n = Some x -> height x <= height n.
Proof.
  revert x. induction n as [v | t ln a ch IH | k] using Node_induction; intros x.
  - simpl. destruct (p _); [intros H; injection H as <-; apply Nat.le_refl | discriminate].
  - rewrite height_element. cbn [findFirst].
    destruct (p _); [intros H; injection H as <-; apply Nat.le_refl |].
    induction ch as [|c ch IHch]; [discriminate|].
    inversion IH as [|? ? Hc Hch]; subst.
    destruct (findFirst p c) as [y|] eqn:E.
    + intros H. injection H as <-. specialize (Hc _ eq_refl).
      unfold heightOfForest. cbn [fold_right]. lia.
    + intros H. specialize (IHch Hch H).
      unfold heightOfForest in *. cbn [fold_right]. lia.
  - simpl. destruct (p _); [intros H; injection H as <-; apply Nat.le_refl | discriminate].
Qed.

Lemma findFirstIn_height (p : Node -> bool) (l : list Node) (x : Node) :
  findFirstIn p l = Some x -> height x <= heightOfForest l.
Proof.
  induction l as [|c l IH]; simpl; [discriminate|].
  destruct (findFirst p c) as [y|] eqn:E.
  - intros H. injection H as <-. apply findFirst_height in E. lia.
  - intros H. specialize (IH H). lia.
Qed.

Lemma querySelector_height (el : Node) (tag : string) (x : Node) :
  querySelector el tag = Some x -> height x < height el.
Proof.
  unfold querySelector.
  destruct el as [v | t ln a ch | k]; cbn [childNodesOf findFirstIn]; try discriminate.
  intros H. apply findFirstIn_height in H. rewrite height_element. lia.
Qed.

Lemma extends_refl (st : Store) : extends st st.
Proof. exists []. rewrite app_nil_r. reflexivity. Qed.

Lemma extends_trans (a b c : Store) : extends a b -> extends b c -> extends a c.
Proof. intros [x ->] [y ->]. exists (x ++ y). rewrite app_assoc. reflexivity. Qed.

Lemma extends_app (st ext : Store) : extends st (st ++ ext).
Proof. exists ext. reflexivity. Qed.

Lemma setNth_middle {A} (st : list A) (a v : A) (ext : list A) :
  setNth (List.length st) v (st ++ a :: ext) = st ++ v :: ext.
Proof. induction st as [|x st IH]; simpl; [reflexivity | rewrite IH; reflexivity]. Qed.

Lemma setNth_last {A} (b : list A) (i v : A) :
  setNth (List.length (b ++ [i]) - 1) v (b ++ [i]) = b ++ [v].
Proof.
  rewrite length_app. simpl. replace (List.length b + 1 - 1) with (List.length b) by lia.
  apply setNth_middle.
Qed.

Lemma bind_some {A B} (c : M A) (k : A -> M B) (st st' : Store) (a : A) :
  c st = Some (a, st') -> bind c k st = k a st'.
Proof. intros H. unfold bind. rewrite H. reflexivity. Qed.

(** The loop rule: an invariant over the items already visited. *)
Lemma forOf_rule {A S} (xs : list A) (body : S -> A -> M S)
      (I : list A -> S -> Store -> Prop) :
  (forall done x s st, In x xs -> I done s st ->
     exists s' st', body s x st = Some (s', st') /\ I (done ++ [x]) s' st') ->
  forall s st, I [] s st ->
    exists s' st', forOf xs body s st = Some (s', st') /\ I xs s' st'.
Proof.
  intros Hstep.
  assert (forall rest done s st,
             (forall x, In x rest -> In x xs) -> I done s st ->
             exists s' st', forOf rest body s st = Some (s', st') /\ I (done ++ rest) s' st')
    as Hgen.
  { induction rest as [|x rest IH]; intros done s st Hin HI; simpl.
    - exists s, st. rewrite app_nil_r. split; [reflexivity | exact HI].
    - destruct (Hstep done x s st (Hin x (or_introl eq_refl)) HI) as [s1 [st1 [Hb HI1]]].
      destruct (IH (done ++ [x]) s1 st1 (fun y Hy => Hin y (or_intror Hy)) HI1)
        as [s2 [st2 [Hf HI2]]].
      exists s2, st2. rewrite (bind_some _ _ _ _ _ Hb). split; [exact Hf|].
      rewrite <- app_assoc in HI2. exact HI2. }
  intros s st HI. apply (Hgen xs [] s st); [auto | exact HI].
Qed.

Lemma mapM_rule {A B} (f : A -> M B) (xs : list A) :
  (forall x st, In x xs -> exists y st', f x st = Some (y, st') /\ extends st st') ->
  forall st, exists ys st',
      mapM f xs st = Some (ys, st') /\ extends st st' /\ List.length ys = List.length xs.
Proof.
  induction xs as [|x xs IH]; intros Hf st; simpl.
  - exists [], st. repeat split. apply extends_refl.
  - destruct (Hf x st (or_introl eq_refl)) as [y [st1 [Hy E1]]].
    destruct (IH (fun z s Hz => Hf z s (or_intror Hz)) st1) as [ys [st2 [Hys [E2 Hl]]]].
    exists (y :: ys), st2. rewrite (bind_some _ _ _ _ _ Hy), (bind_some _ _ _ _ _ Hys).
    repeat split; [eapply extends_trans; eassumption | simpl; rewrite Hl; reflexivity].
Qed.

Lemma bind_ext {A B} (c1 c2 : M A) (k1 k2 : A -> M B) (st : Store) :
  c1 st = c2 st -> (forall a st', k1 a st' = k2 a st') ->
  bind c1 k1 st = bind c2 k2 st.
Proof.
  intros Hc Hk. unfold bind. rewrite Hc.
  destruct (c2 st) as [[a st']|]; [apply Hk | reflexivity].
Qed.

Lemma forOf_ext {A S} (xs : list A) (body1 body2 : S -> A -> M S) :
  (forall x s st, In x xs -> body1 s x st = body2 s x st) ->
  forall s st, forOf xs body1 s st = forOf xs body2 s st.
Proof.
  induction xs as [|x xs IH]; intros Hb s st; [reflexivity|].
  cbn [forOf]. apply bind_ext; [apply Hb; left; reflexivity|].
  intros s' st'. apply IH. intros y t u Hy. apply Hb. right. exact Hy.
Qed.

Lemma mapM_ext {A B} (f1 f2 : A -> M B) (xs : list A) :
  (forall x st, In x xs -> f1 x st = f2 x st) ->
  forall st, mapM f1 xs st = mapM f2 xs st.
Proof.
  induction xs as [|x xs IH]; intros Hf st; [reflexivity|].
  cbn [mapM]. apply bind_ext; [apply Hf; left; reflexivity|].
  intros y st'. apply bind_ext; [|reflexivity].
  apply IH. intros z u Hz. apply Hf. right. exact Hz.
Qed.

End TreeFacts.

(* ================================================================== *)
(** ** The renderer returns, given fuel for the depth of the tree *)
(* ================================================================== *)

Section RendererFacts.

Variable toLowerCase : jstring -> jstring.
Variable resolveUrl : jstring -> jstring -> option jstring.

Section OpenFacts.

Variable render : Node -> Ctx -> M jstring.
Variable h : nat.
Hypothesis render_ok : rendersBelow render h.

Lemma renderInlineChildren_ok (el : Node) (ctx : Ctx) (st : Store) :
  height el <= h ->
  exists out st', renderInlineChildren render el ctx st = Some (out, st') /\ extends st st'.
Proof.
  intros Hel. unfold renderInlineChildren.
  apply (forOf_rule (childNodesOf el) _ (fun _ _ stc => extends st stc));
    [|apply extends_refl].
  intros _ x out stc Hx Hext.
  apply height_childNode in Hx.
  destruct (render_ok x ctx stc ltac:(lia)) as [md [st2 [Hmd E2]]].
  exists (out ++ md), st2. rewrite (bind_some _ _ _ _ _ Hmd).
  split; [reflexivity | eapply extends_trans; eassumption].
Qed.

Lemma renderListItem_ok (li : Node) (ctx : Ctx) (st : Store) :
  height li <= h ->
  exists out st', renderListItem render li ctx st = Some (out, st') /\ extends st st'.
Proof.
  intros Hel. unfold renderListItem.
  destruct (forOf_rule (childNodesOf li)
              (fun parts child =>
                 md <- render child ctx ;;
                 if isEmpty md then ret parts else ret (parts ++ [md]))
              (fun _ _ stc => extends st stc)) with (s := @nil jstring) (st := st)
    as [parts [st' [Hloop Hext]]]; [|apply extends_refl|].
  - intros _ x parts stc Hx Hext.
    apply height_childNode in Hx.
    destruct (render_ok x ctx stc ltac:(lia)) as [md [st2 [Hmd E2]]].
    exists (if isEmpty md then parts else parts ++ [md]), st2.
    rewrite (bind_some _ _ _ _ _ Hmd).
    split; [destruct (isEmpty md); reflexivity | eapply extends_trans; eassumption].
  - exists (squeezeNewlines (join [NL] parts) 0), st'.
    rewrite (bind_some _ _ _ _ _ Hloop). split; [reflexivity | exact Hext].
Qed.

Lemma concatArray_eq (a : Ref) (xs : list nat) (st : Store) :
  concatArray a xs st = Some (List.length st, st ++ [nth a st [] ++ xs]).
Proof. reflexivity. Qed.

(** One turn of the counter of [renderList]: the array of the list, at
    [length st], goes from [base ++ [n]] to [base ++ [n + 1]]; the other
    arrays stay. *)
Lemma counter_step {A} (k : nat -> M A) (st : Store) (base : list nat) (n : nat)
      (ext : Store) :
  (prev <- readLast (List.length st) ;;
   writeLast (List.length st) (prev + 1) ;; k prev) (st ++ (base ++ [n]) :: ext)
  = k n (st ++ (base ++ [n + 1]) :: ext).
Proof.
  unfold readLast, readArray, writeLast, ret, bind.
  rewrite nth_middle, last_last, setNth_last, setNth_middle. reflexivity.
Qed.

Lemma combine_snoc {A B} (a : list A) (b : list B) (x : A) (y : B) :
  List.length a = List.length b ->
  combine (a ++ [x]) (b ++ [y]) = combine a b ++ [(x, y)].
Proof.
  revert b; induction a as [|u a IH]; intros [|v b] Hl; simpl in *;
    try discriminate; [reflexivity|].
  rewrite IH by lia. reflexivity.
Qed.

Lemma listBlocks_snoc (depth : nat) (ordered : bool) (contents : list jstring)
      (c : jstring) :
  listBlocks depth ordered (contents ++ [c])
  = listBlocks depth ordered contents
    ++ [listItemBlock depth (bulletOf ordered (List.length contents + 1)) c].
Proof.
  unfold listBlocks. rewrite length_app. simpl List.length.
  rewrite seq_app. simpl seq.
  rewrite combine_snoc by (rewrite length_seq; reflexivity).
  rewrite map_app. simpl. rewrite Nat.add_comm. reflexivity.
Qed.

(** [renderList] returns; the [n]-th item gets the bullet of [n], whatever
    the context and the store it starts from hold. *)
Lemma renderList_ok (el : Node) (ctx : Ctx) (ordered : bool) (st : Store) :
  height el <= h ->
  exists contents st',
    renderList render el ctx ordered st
    = Some (join [NL] (listBlocks (listDepth ctx) ordered contents), st')
    /\ extends st st'
    /\ List.length contents = List.length (filter (hasTag "LI") (childrenOf el)).
Proof.
  intros Hel. unfold renderList.
  rewrite (bind_some _ _ _ _ _ (concatArray_eq _ _ _)).
  set (base := nth (orderedIndex ctx) st []).
  set (next := {| listDepth := listDepth ctx + 1;
                  orderedStack := orderedStack ctx ++ [ordered];
                  orderedIndex := List.length st;
                  baseUrl := baseUrl ctx |}).
  match goal with
  | |- context [forOf ?items ?body []] =>
      destruct (forOf_rule items body
                  (fun done out stc =>
                     exists contents ext,
                       stc = st ++ (base ++ [List.length done]) :: ext
                       /\ List.length contents = List.length done
                       /\ out = listBlocks (listDepth ctx) ordered contents))
        with (s := @nil jstring) (st := st ++ [base ++ [0]])
        as [out [st' [Hloop [contents [ext [Hst [Hlen Hout]]]]]]]
  end.
  - intros done li out stc Hli [contents [ext [-> [Hlen ->]]]].
    apply filter_In in Hli as [Hli _]. apply height_child in Hli.
    cbn [orderedIndex next].
    rewrite counter_step.
    destruct (renderListItem_ok li next
                (st ++ (base ++ [List.length done + 1]) :: ext) ltac:(lia))
      as [md [st2 [Hmd [ext2 ->]]]].
    rewrite (bind_some _ _ _ _ _ Hmd).
    eexists _, _. split; [reflexivity|].
    exists (contents ++ [trimBlankLines md]), (ext ++ ext2).
    repeat split.
    + rewrite <- app_assoc, length_app. reflexivity.
    + rewrite !length_app, Hlen. reflexivity.
    + rewrite listBlocks_snoc, Hlen. reflexivity.
  - exists [], []. repeat split.
  - exists contents, st'. rewrite (bind_some _ _ _ _ _ Hloop). subst out.
    repeat split; [|exact Hlen].
    rewrite Hst. exists ((base ++ [List.length (filter (hasTag "LI") (childrenOf el))]) :: ext).
    reflexivity.
Qed.

Lemma collectRows_height (scope : option Node) (bound : nat) (tr : Node) :
  (forall s, scope = Some s -> height s <= bound) ->
  In tr (collectRows scope) -> height tr < bound.
Proof.
  destruct scope as [s|]; simpl; [|tauto].
  intros Hs Htr. apply filter_In in Htr as [Htr _]. apply height_child in Htr.
  specialize (Hs s eq_refl). lia.
Qed.

Lemma tableRows_height (table tr : Node) :
  In tr (tableRows table) -> height tr < height table.
Proof.
  unfold tableRows. intros H.
  assert (forall tag s, querySelector table tag = Some s -> height s <= height table)
    as Hq by (intros tag s Hs; apply querySelector_height in Hs; lia).
  repeat (apply in_app_or in H as [H | H]);
    try (eapply collectRows_height; [|exact H]; apply Hq).
  destruct (querySelector table "thead"), (querySelector table "tbody"),
    (querySelector table "tfoot"); try contradiction.
  eapply collectRows_height; [|exact H]. intros s Hs. injection Hs as <-. lia.
Qed.

Lemma cellText_ok (td : Node) (ctx : Ctx) (st : Store) :
  height td <= h ->
  exists out st', cellText render td ctx st = Some (out, st') /\ extends st st'.
Proof.
  intros Htd. unfold cellText.
  destruct (renderInlineChildren_ok td ctx st Htd) as [inner [st' [Hin E]]].
  rewrite (bind_some _ _ _ _ _ Hin). eexists _, _. split; [reflexivity | exact E].
Qed.

(** The grid of a table has one row of texts for each collected row, with
    one text for each of its cells. *)
Lemma tableGrid_ok (table : Node) (ctx : Ctx) (st : Store) :
  height table <= h ->
  exists grid headerCells st',
    tableGrid render table ctx st = Some ((grid, headerCells), st')
    /\ extends st st'
    /\ Forall2 (fun tr texts =>
                  List.length texts = List.length (filter isCell (childrenOf tr)))
               (tableRows table) grid
    /\ (forall hc, headerCells = Some hc -> In hc grid).
Proof.
  intros Htable. unfold tableGrid.
  match goal with
  | |- context [forOf ?rows ?body ?init] =>
      destruct (forOf_rule rows body
                  (fun done '(grid, headerCells) stc =>
                     extends st stc
                     /\ Forall2 (fun tr texts =>
                                   List.length texts
                                   = List.length (filter isCell (childrenOf tr)))
                                done grid
                     /\ (forall hc, headerCells = Some hc -> In hc grid)))
        with (s := init) (st := st)
        as [[grid hc] [st' [Hloop [Hext [Hgrid Hhc]]]]]
  end.
  - intros done tr [grid hc] stc Htr [Hext [Hgrid Hhc]].
    apply tableRows_height in Htr.
    destruct (mapM_rule (fun td => cellText render td ctx) (filter isCell (childrenOf tr)))
      with (st := stc) as [texts [st2 [Hmap [E2 Hlen]]]].
    { intros td s Htd. apply filter_In in Htd as [Htd _]. apply height_child in Htd.
      apply cellText_ok. lia. }
    rewrite (bind_some _ _ _ _ _ Hmap).
    eexists _, _. split; [reflexivity|]. cbv beta iota.
    split; [eapply extends_trans; eassumption|]. split.
    + apply Forall2_app; [exact Hgrid | constructor; [exact Hlen | constructor]].
    + intros x Hx. apply in_or_app. destruct hc as [y|].
      * left. apply Hhc. exact Hx.
      * right. destruct (existsb _ _); [|discriminate].
        injection Hx as <-. left. reflexivity.
  - repeat split; [apply extends_refl | constructor | discriminate].
  - exists grid, hc, st'. repeat split; assumption.
Qed.

Lemma renderTable_ok (table : Node) (ctx : Ctx) (st : Store) :
  height table <= h ->
  exists out st', renderTable render table ctx st = Some (out, st') /\ extends st st'.
Proof.
  intros Htable. unfold renderTable.
  destruct (tableGrid_ok table ctx st Htable) as [grid [hc [st' [Hg [E _]]]]].
  rewrite (bind_some _ _ _ _ _ Hg). cbv beta iota.
  destruct (tableHead grid hc); eexists _, _; (split; [reflexivity | exact E]).
Qed.

Lemma renderElement_ok (el : Node) (ctx : Ctx) (st : Store) :
  height el <= h ->
  exists out st',
    renderElement toLowerCase resolveUrl render el ctx st = Some (out, st')
    /\ extends st st'.
Proof.
  intros Hel. unfold renderElement.
  pose proof (renderInlineChildren_ok el ctx st Hel) as [inner [st1 [Hin E1]]].
  repeat match goal with
         | |- context [if ?b then _ else _] => destruct b
         | |- context [match headingLevel ?t with _ => _ end] => destruct (headingLevel t)
         | |- exists out st', ret _ _ = _ /\ _ =>
             eexists _, _; split; [reflexivity | first [apply extends_refl | exact E1]]
         | |- exists out st', bind (renderInlineChildren _ _ _) _ _ = _ /\ _ =>
             rewrite (bind_some _ _ _ _ _ Hin)
         | |- exists out st', Some _ = _ /\ _ =>
             eexists _, _; split; [reflexivity | exact E1]
         | |- exists out st', renderInlineChildren _ _ _ _ = _ /\ _ =>
             exists inner, st1; split; assumption
         | |- exists out st', bind (renderList _ _ _ ?o) _ _ = _ /\ _ =>
             destruct (renderList_ok el ctx o st Hel) as [cs [st2 [Hl [E2 _]]]];
             rewrite (bind_some _ _ _ _ _ Hl);
             eexists _, _; split; [reflexivity | exact E2]
         | |- exists out st', bind (renderTable _ _ _) _ _ = _ /\ _ =>
             destruct (renderTable_ok el ctx st Hel) as [t [st2 [Ht E2]]];
             rewrite (bind_some _ _ _ _ _ Ht);
             eexists _, _; split; [reflexivity | exact E2]
         end.
Qed.

Lemma renderNodeBody_ok (node : Node) (ctx : Ctx) (st : Store) :
  height node <= h ->
  exists out st',
    renderNodeBody toLowerCase resolveUrl render node ctx st = Some (out, st')
    /\ extends st st'.
Proof.
  intros Hn. destruct node as [v | t ln a ch | k]; cbn [renderNodeBody].
  - eexists _, _. split; [reflexivity | apply extends_refl].
  - apply renderElement_ok, Hn.
  - eexists _, _. split; [reflexivity | apply extends_refl].
Qed.

End OpenFacts.

(** The helpers only call the recursion on nodes further down: two
    renderers that agree below [h] give the same helpers up to [h]. *)
Section Agreement.

Variables render1 render2 : Node -> Ctx -> M jstring.
Variable h : nat.
Hypothesis agree : forall m ctx st, height m < h -> render1 m ctx st = render2 m ctx st.

Lemma renderInlineChildren_ext (el : Node) (ctx : Ctx) (st : Store) :
  height el <= h ->
  renderInlineChildren render1 el ctx st = renderInlineChildren render2 el ctx st.
Proof.
  intros Hel. unfold renderInlineChildren. apply forOf_ext.
  intros x out st0 Hx. apply height_childNode in Hx.
  apply bind_ext; [apply agree; lia | reflexivity].
Qed.

Lemma renderListItem_ext (li : Node) (ctx : Ctx) (st : Store) :
  height li <= h ->
  renderListItem render1 li ctx st = renderListItem render2 li ctx st.
Proof.
  intros Hel. unfold renderListItem. apply bind_ext; [|reflexivity].
  apply forOf_ext. intros x parts st0 Hx. apply height_childNode in Hx.
  apply bind_ext; [apply agree; lia | reflexivity].
Qed.

Lemma renderList_ext (el : Node) (ctx : Ctx) (ordered : bool) (st : Store) :
  height el <= h ->
  renderList render1 el ctx ordered st = renderList render2 el ctx ordered st.
Proof.
  intros Hel. unfold renderList.
  apply bind_ext; [reflexivity | intros counters st1].
  apply bind_ext; [|reflexivity].
  apply forOf_ext. intros li out st0 Hli.
  apply filter_In in Hli as [Hli _]. apply height_child in Hli.
  do 2 (apply bind_ext; [reflexivity | intros]).
  apply bind_ext; [apply renderListItem_ext; lia | reflexivity].
Qed.

Lemma renderTable_ext (table : Node) (ctx : Ctx) (st : Store) :
  height table <= h ->
  renderTable render1 table ctx st = renderTable render2 table ctx st.
Proof.
  intros Htable. unfold renderTable. apply bind_ext; [|reflexivity].
  unfold tableGrid. apply forOf_ext. intros tr [grid hc] st0 Htr.
  apply tableRows_height in Htr.
  apply bind_ext; [|reflexivity]. apply mapM_ext. intros td st1 Htd.
  apply filter_In in Htd as [Htd _]. apply height_child in Htd.
  unfold cellText. apply bind_ext; [|reflexivity].
  apply renderInlineChildren_ext. lia.
Qed.

Lemma renderNodeBody_ext (node : Node) (ctx : Ctx) (st : Store) :
  height node <= h ->
  renderNodeBody toLowerCase resolveUrl render1 node ctx st
  = renderNodeBody toLowerCase resolveUrl render2 node ctx st.
Proof.
  intros Hn. destruct node as [v | t ln a ch | k]; cbn [renderNodeBody]; try reflexivity.
  unfold renderElement.
  pose proof (renderInlineChildren_ext (ElementNode t ln a ch) ctx st Hn) as Hin.
  repeat match goal with
         | |- (if ?b then _ else _) _ = (if ?b then _ else _) _ => destruct b
         | |- match headingLevel ?x with _ => _ end _ = _ => destruct (headingLevel x)
         | |- ret _ _ = ret _ _ => reflexivity
         | |- bind (renderInlineChildren _ _ _) _ _ = _ =>
             apply bind_ext; [exact Hin | reflexivity]
         | |- bind (renderList _ _ _ _) _ _ = _ =>
             apply bind_ext; [apply renderList_ext; exact Hn | reflexivity]
         | |- bind (renderTable _ _ _) _ _ = _ =>
             apply bind_ext; [apply renderTable_ext; exact Hn | reflexivity]
         | |- renderInlineChildren _ _ _ _ = _ => exact Hin
         end.
Qed.

End Agreement.

(** Fuel beyond the height of a node changes nothing. *)
Lemma renderNode_fuel (f1 f2 : nat) (m : Node) (ctx : Ctx) (st : Store) :
  height m < f1 -> height m < f2 ->
  renderNode toLowerCase resolveUrl f1 m ctx st
  = renderNode toLowerCase resolveUrl f2 m ctx st.
Proof.
  revert f2 m ctx st. induction f1 as [|f1 IH]; intros f2 m ctx st H1 H2; [lia|].
  destruct f2 as [|f2]; [lia|]. cbn [renderNode].
  apply (renderNodeBody_ext _ _ (height m)); [|lia].
  intros m' ctx' st' Hm'. apply IH; lia.
Qed.

Lemma renderNode_S (fuel : nat) :
  renderNode toLowerCase resolveUrl (S fuel)
  = renderNodeBody toLowerCase resolveUrl (renderNode toLowerCase resolveUrl fuel).
Proof. reflexivity. Qed.

(** Fuel above the height of a node is enough. *)
Lemma renderNode_ok (fuel : nat) :
  rendersBelow (renderNode toLowerCase resolveUrl fuel) fuel.
Proof.
  induction fuel as [|fuel IH]; intros m ctx st Hm; [lia|].
  cbn [renderNode]. apply (renderNodeBody_ok _ fuel IH). lia.
Qed.

End RendererFacts.

(* ================================================================== *)
(** ** The document as a whole *)
(* ================================================================== *)

Section DocumentFacts.

Variable toLowerCase : jstring -> jstring.
Variable resolveUrl : jstring -> jstring -> option jstring.
Variable parseFromString : jstring -> Document.

Local Notation renderNode := (renderNode toLowerCase resolveUrl).
Local Notation htmlToMarkdown := (htmlToMarkdown toLowerCase resolveUrl parseFromString).

Lemma htmlToMarkdown_root (fuel : nat) (html : jstring) (opts : Opts) (root : Node) :
  isEmpty html || isEmpty (trim html) = false ->
  getElementById (parseFromString (wrapHtml html)) "__root__" = Some root ->
  htmlToMarkdown fuel html opts
  = match renderInlineChildren (renderNode fuel) root
            {| listDepth := 0; orderedStack := []; orderedIndex := 0;
               baseUrl := opts_baseUrl opts |} [[]] with
    | Some (raw, _) => Some (finish raw)
    | None => None
    end.
Proof.
  intros Hblank Hroot. unfold htmlToMarkdown.
  rewrite Hblank, Hroot. reflexivity.
Qed.

(** Whatever it returns is the empty string or a finished rendering. *)
Lemma htmlToMarkdown_cases (fuel : nat) (html : jstring) (opts : Opts) (out : jstring) :
  htmlToMarkdown fuel html opts = Some out ->
  out = [] \/ exists raw, out = finish raw.
Proof.
  unfold htmlToMarkdown.
  destruct (isEmpty html || isEmpty (trim html)).
  - intros H. injection H as <-. left. reflexivity.
  - destruct (getElementById _ _) as [root|].
    + match goal with |- context [match ?c with _ => _ end] => destruct c as [[raw st']|] end.
      * intros H. injection H as <-. right. exists raw. reflexivity.
      * discriminate.
    + intros H. injection H as <-. left. reflexivity.
Qed.

(** With fuel for the depth of the document it returns. *)
Lemma htmlToMarkdown_returns (fuel : nat) (html : jstring) (opts : Opts) :
  heightOfForest (parseFromString (wrapHtml html)) <= fuel ->
  exists out, htmlToMarkdown fuel html opts = Some out.
Proof.
  intros Hfuel.
  destruct (isEmpty html || isEmpty (trim html)) eqn:Hblank.
  - exists []. unfold htmlToMarkdown. rewrite Hblank. reflexivity.
  - destruct (getElementById (parseFromString (wrapHtml html)) "__root__") as [root|] eqn:Hroot.
    + rewrite (htmlToMarkdown_root fuel html opts root Hblank Hroot).
      apply findFirstIn_height in Hroot.
      destruct (renderInlineChildren_ok (renderNode fuel) fuel
                  (renderNode_ok toLowerCase resolveUrl fuel) root
                  {| listDepth := 0; orderedStack := []; orderedIndex := 0;
                     baseUrl := opts_baseUrl opts |} [[]] ltac:(lia))
        as [raw [st' [Hraw _]]].
      rewrite Hraw. eexists. reflexivity.
    + exists []. unfold htmlToMarkdown.
      rewrite Hblank, Hroot. reflexivity.
Qed.

(** Fuel beyond the depth of the document changes nothing: there is one
    output. *)
Lemma htmlToMarkdown_fuel (f1 f2 : nat) (html : jstring) (opts : Opts) :
  heightOfForest (parseFromString (wrapHtml html)) <= f1 ->
  heightOfForest (parseFromString (wrapHtml html)) <= f2 ->
  htmlToMarkdown f1 html opts = htmlToMarkdown f2 html opts.
Proof.
  intros H1 H2.
  destruct (isEmpty html || isEmpty (trim html)) eqn:Hblank.
  - unfold htmlToMarkdown. rewrite Hblank. reflexivity.
  - destruct (getElementById (parseFromString (wrapHtml html)) "__root__") as [root|] eqn:Hroot.
    + rewrite !(htmlToMarkdown_root _ _ _ root Hblank Hroot).
      apply findFirstIn_height in Hroot.
      rewrite (renderInlineChildren_ext (renderNode f1) (renderNode f2) (height root));
        [reflexivity | | lia].
      intros m ctx st Hm. apply renderNode_fuel; lia.
    + unfold htmlToMarkdown. rewrite Hblank, Hroot. reflexivity.
Qed.

Lemma htmlToMarkdown_value (html : jstring) (opts : Opts) :
  exists out, forall fuel,
      heightOfForest (parseFromString (wrapHtml html)) <= fuel ->
      htmlToMarkdown fuel html opts = Some out.
Proof.
  destruct (htmlToMarkdown_returns
              (heightOfForest (parseFromString (wrapHtml html))) html opts (le_n _))
    as [out Hout].
  exists out. intros fuel Hfuel.
  rewrite <- Hout. apply htmlToMarkdown_fuel; [exact Hfuel | apply le_n].
Qed.

Lemma finish_no_triple (raw : jstring) : includes tripleNewline (finish raw) = false.
Proof.
  unfold finish. apply includes_triple_snoc.
  - destruct (trim_part (normalizeLines (trimBlankLines raw))) as [a [b Hab]].
    apply (includes_false_part tripleNewline a _ b). rewrite <- Hab.
    apply squeezeNewlines_no_triple.
  - intros a c H. apply (trim_last _ _ _ H).
Qed.

End DocumentFacts.

(* ================================================================== *)
(** ** The properties of the specification *)
(* ================================================================== *)

Section Properties.

Variable toLowerCase : jstring -> jstring.
Variable resolveUrl : jstring -> jstring -> option jstring.
Variable parseFromString : jstring -> Document.

Local Notation renderNode := (renderNode toLowerCase resolveUrl).
Local Notation htmlToMarkdown := (htmlToMarkdown toLowerCase resolveUrl parseFromString).

(** C2. For every input and every options value, [htmlToMarkdown] returns
    (given fuel for the depth of the parsed document) a string with no run
    of three or more newlines; a [pre] block whose text has such a run is
    no exception, since the last pass runs over the whole output. *)
Theorem htmlToMarkdown_no_triple_newline (html : jstring) (opts : Opts) :
  exists out,
    (forall fuel,
        heightOfForest (parseFromString (wrapHtml html)) <= fuel ->
        htmlToMarkdown fuel html opts = Some out)
    /\ includes tripleNewline out = false.
Proof.
  destruct (htmlToMarkdown_value toLowerCase resolveUrl parseFromString html opts)
    as [out Hout].
  exists out. split; [exact Hout|].
  destruct (htmlToMarkdown_cases _ _ _ _ _ _ _ (Hout _ (le_n _))) as [-> | [raw ->]].
  - reflexivity.
  - apply finish_no_triple.
Qed.

(** C6, as amended.  Empty or whitespace-only input gives the empty
    string.  Any other output ends with exactly one newline, and unless it
    is that newline alone its first line is not blank. *)
Theorem htmlToMarkdown_output_shape (html : jstring) (opts : Opts) :
  (forallb isSpace html = true ->
   forall fuel, htmlToMarkdown fuel html opts = Some [])
  /\ exists out,
      (forall fuel,
          heightOfForest (parseFromString (wrapHtml html)) <= fuel ->
          htmlToMarkdown fuel html opts = Some out)
      /\ (out <> [] ->
          trailingNewlines out = 1
          /\ (out <> [NL] -> firstLineBlank out = false)).
Proof.
  split.
  - intros Hblank fuel. unfold htmlToMarkdown.
    rewrite (trim_blank _ Hblank). rewrite orb_true_r. reflexivity.
  - destruct (htmlToMarkdown_value toLowerCase resolveUrl parseFromString html opts)
      as [out Hout].
    exists out. split; [exact Hout|].
    destruct (htmlToMarkdown_cases _ _ _ _ _ _ _ (Hout _ (le_n _))) as [-> | [raw ->]].
    + intros H. exfalso. apply H. reflexivity.
    + intros _. split; [apply finish_trailing | apply finish_first_line].
Qed.

(** C10, as amended.  When the input is not blank, the parsed document
    has the wrapper element and every child of it renders to the empty
    string, [htmlToMarkdown] returns the one newline, not the empty string.
    When the parsed document has no wrapper element, it returns the empty
    string. *)
Theorem htmlToMarkdown_empty_rendering (fuel : nat) (html : jstring) (opts : Opts) :
  isEmpty html || isEmpty (trim html) = false ->
  (forall root,
      getElementById (parseFromString (wrapHtml html)) "__root__" = Some root ->
      (forall child ctx st, In child (childNodesOf root) ->
         exists st', renderNode fuel child ctx st = Some ([], st')) ->
      htmlToMarkdown fuel html opts = Some [NL])
  /\ (getElementById (parseFromString (wrapHtml html)) "__root__" = None ->
      htmlToMarkdown fuel html opts = Some []).
Proof.
  intros Hblank. split.
  - intros root Hroot Hempty.
    rewrite (htmlToMarkdown_root _ _ _ fuel html opts root Hblank Hroot).
    unfold renderInlineChildren.
    match goal with
    | |- context [forOf ?xs ?body [] ?st0] =>
        destruct (forOf_rule xs body (fun _ out _ => out = []))
          with (s := @nil char) (st := st0)
          as [raw [st' [Hloop ->]]]
    end.
    + intros _ child out st Hin ->.
      match goal with
      | |- context [renderNode _ _ ?ctx] =>
          destruct (Hempty child ctx st Hin) as [st' Hc]
      end.
      exists [], st'. rewrite (bind_some _ _ _ _ _ Hc). split; reflexivity.
    + reflexivity.
    + rewrite Hloop. reflexivity.
  - intros Hroot. unfold htmlToMarkdown. rewrite Hblank, Hroot. reflexivity.
Qed.

(** Ignored elements render to the empty string, children and all. *)
Lemma ignored_renders_empty (fuel : nat) (tag ln : jstring)
      (attrs : list (jstring * jstring)) (ch : list Node) (ctx : Ctx) (st : Store) :
  isIgnoredTag tag = true ->
  renderNode (S fuel) (ElementNode tag ln attrs ch) ctx st = Some ([], st).
Proof.
  intros H. rewrite renderNode_S; cbn [renderNodeBody]. unfold renderElement.
  cbn [tagNameOf]. rewrite H. reflexivity.
Qed.


(** An element whose tag no earlier rule handles reaches the emphasis rule. *)
Lemma renderNode_emphasis (fuel : nat) (el : Node) (ctx : Ctx) (st : Store) :
  isElement el = true ->
  handledBeforeEmphasis (tagNameOf el) = false ->
  isBoldLike toLowerCase el || isItalicLike toLowerCase el
  || isStrikeLike toLowerCase el = true ->
  renderNode (S fuel) el ctx st
  = (content <- renderInlineChildren (renderNode fuel) el ctx ;;
     ret (emphasize toLowerCase el content)) st.
Proof.
  intros Hel Htag Hemph.
  destruct el as [v | tag ln attrs ch | k]; try discriminate.
  rewrite renderNode_S; cbn [renderNodeBody]. unfold renderElement.
  cbn [tagNameOf] in *. unfold handledBeforeEmphasis in Htag. cbn [existsb] in Htag.
  repeat match goal with
         | H : _ || _ = false |- _ => apply orb_false_iff in H; destruct H
         end.
  destruct (headingLevel tag); [discriminate|].
  repeat match goal with
         | H : ?b = false |- context [if ?b then _ else _] => rewrite H
         end.
  rewrite Hemph. reflexivity.
Qed.

Lemma emphasize_wrapIf (el : Node) (content : jstring) :
  emphasize toLowerCase el content
  = wrapIf (isStrikeLike toLowerCase el) (str "~~")
      (wrapIf (isItalicLike toLowerCase el) (str "*")
         (wrapIf (isBoldLike toLowerCase el) (str "**") content)).
Proof. reflexivity. Qed.

(** C4, as amended.  An element whose parsed [font-weight] declaration has
    a value with [bold], [600], [700], [800] or [900] in it is bold-like;
    when no earlier rule handles its tag, its rendered children come out
    between [**] markers, the italic and strike markers around them. *)
Theorem bold_style_classified (el : Node) (v : jstring) :
  lookupAttr (str "font-weight") (styleMap (toLowerCase (getAttrOrEmpty el "style")))
  = Some v ->
  boldRe v = true ->
  isBoldLike toLowerCase el = true
  /\ (forall fuel ctx st,
        isElement el = true ->
        handledBeforeEmphasis (tagNameOf el) = false ->
        height el <= fuel ->
        exists content st',
          renderInlineChildren (renderNode fuel) el ctx st = Some (content, st')
          /\ renderNode (S fuel) el ctx st
             = Some (wrapIf (isStrikeLike toLowerCase el) (str "~~")
                       (wrapIf (isItalicLike toLowerCase el) (str "*")
                          (str "**" ++ content ++ str "**")), st')).
Proof.
  intros Hv Hre.
  assert (isBoldLike toLowerCase el = true) as Hbold.
  { unfold isBoldLike, styleHas. rewrite Hv.
    destruct v as [|c v]; [discriminate Hre|].
    cbn [isEmpty]. rewrite Hre. apply orb_true_r. }
  split; [exact Hbold|].
  intros fuel ctx st Hel Htag Hfuel.
  destruct (renderInlineChildren_ok (renderNode fuel) fuel
              (renderNode_ok toLowerCase resolveUrl fuel) el ctx st Hfuel)
    as [content [st' [Hc _]]].
  exists content, st'. split; [exact Hc|].
  rewrite (renderNode_emphasis fuel el ctx st Hel Htag) by (rewrite Hbold; reflexivity).
  rewrite (bind_some _ _ _ _ _ Hc). unfold ret.
  rewrite emphasize_wrapIf, Hbold. reflexivity.
Qed.

(** C8, as amended.  An element that reaches the emphasis rule and that a
    classifier matches renders its children once and wraps them in the bold
    markers first, then the italic ones, then the strike ones; bold and
    italic together give [***content***], the [**] inside. *)
Theorem emphasis_markers_order (fuel : nat) (el : Node) (ctx : Ctx) (st : Store) :
  isElement el = true ->
  handledBeforeEmphasis (tagNameOf el) = false ->
  isBoldLike toLowerCase el || isItalicLike toLowerCase el
  || isStrikeLike toLowerCase el = true ->
  height el <= fuel ->
  exists content st',
    renderInlineChildren (renderNode fuel) el ctx st = Some (content, st')
    /\ renderNode (S fuel) el ctx st
       = Some (wrapIf (isStrikeLike toLowerCase el) (str "~~")
                 (wrapIf (isItalicLike toLowerCase el) (str "*")
                    (wrapIf (isBoldLike toLowerCase el) (str "**") content)), st')
    /\ (isBoldLike toLowerCase el = true -> isItalicLike toLowerCase el = true ->
        isStrikeLike toLowerCase el = false ->
        renderNode (S fuel) el ctx st
        = Some (str "*" ++ (str "**" ++ content ++ str "**") ++ str "*", st')
        /\ str "*" ++ (str "**" ++ content ++ str "**") ++ str "*"
           = str "***" ++ content ++ str "***").
Proof.
  intros Hel Htag Hemph Hfuel.
  destruct (renderInlineChildren_ok (renderNode fuel) fuel
              (renderNode_ok toLowerCase resolveUrl fuel) el ctx st Hfuel)
    as [content [st' [Hc _]]].
  exists content, st'. split; [exact Hc|].
  assert (renderNode (S fuel) el ctx st
          = Some (wrapIf (isStrikeLike toLowerCase el) (str "~~")
                    (wrapIf (isItalicLike toLowerCase el) (str "*")
                       (wrapIf (isBoldLike toLowerCase el) (str "**") content)), st'))
    as Hr.
  { rewrite (renderNode_emphasis fuel el ctx st Hel Htag Hemph).
    rewrite (bind_some _ _ _ _ _ Hc). unfold ret. rewrite emphasize_wrapIf. reflexivity. }
  split; [exact Hr|].
  intros Hb Hi Hs. rewrite Hr, Hb, Hi, Hs. split; [reflexivity|].
  change (str "***" ++ content ++ str "***")
    with ((str "*" ++ str "**") ++ content ++ str "**" ++ str "*").
  repeat rewrite <- app_assoc. reflexivity.
Qed.

Lemma listBlocks_length (depth : nat) (ordered : bool) (contents : list jstring) :
  List.length (listBlocks depth ordered contents) = List.length contents.
Proof.
  unfold listBlocks. rewrite length_map, length_combine, length_seq. lia.
Qed.



(** C1: what the code makes of the nested list.  Between [- b] and the
    inner item stands a line of two spaces, and the inner item is four
    columns in, not two: the output is not the one of the specification. *)
Theorem nested_list_rendering (k : nat) (opts : Opts) :
  parseFromString (wrapHtml Samples.nestedListHtml)
  = Samples.documentOf Samples.nestedList ->
  htmlToMarkdown (3 + k) Samples.nestedListHtml opts
  = Some (str "- a" ++ [NL] ++ str "- b" ++ [NL] ++ str "  " ++ [NL]
          ++ str "    - c" ++ [NL])
  /\ htmlToMarkdown (3 + k) Samples.nestedListHtml opts
     <> Some (str "- a" ++ [NL] ++ str "- b" ++ [NL] ++ str "  - c" ++ [NL]).
Proof.
  intros Hparse.
  assert (htmlToMarkdown (3 + k) Samples.nestedListHtml opts
          = Some (str "- a" ++ [NL] ++ str "- b" ++ [NL] ++ str "  " ++ [NL]
                  ++ str "    - c" ++ [NL])) as H.
  { unfold htmlToMarkdown.
    rewrite Hparse. vm_compute. reflexivity. }
  split; [exact H|]. rewrite H. discriminate.
Qed.

End Properties.

(** C2 on a [pre] block whose text has three newlines in a row. *)
Lemma htmlToMarkdown_no_triple_newline_witness :
  exists out,
    htmlToMarkdown asciiLower Samples.resolveSample Samples.parseSample 4
                   Samples.preWithBlankLinesHtml Samples.noOpts = Some out
    /\ includes tripleNewline out = false.
Proof.
  destruct (htmlToMarkdown_no_triple_newline asciiLower Samples.resolveSample
              Samples.parseSample Samples.preWithBlankLinesHtml Samples.noOpts)
    as [out [Hout Hno]].
  exists out. split; [|exact Hno].
  apply Hout. vm_compute. lia.
Defined.

(** C6 at a whitespace-only input and at the nested list. *)
Lemma htmlToMarkdown_output_shape_witness :
  htmlToMarkdown asciiLower Samples.resolveSample Samples.parseSample 0
                 (str "   ") Samples.noOpts = Some []
  /\ exists out,
      htmlToMarkdown asciiLower Samples.resolveSample Samples.parseSample 7
                     Samples.nestedListHtml Samples.noOpts = Some out
      /\ (out <> [] ->
          trailingNewlines out = 1 /\ (out <> [NL] -> firstLineBlank out = false)).
Proof.
  split.
  - apply (proj1 (htmlToMarkdown_output_shape asciiLower Samples.resolveSample
                    Samples.parseSample (str "   ") Samples.noOpts)).
    reflexivity.
  - destruct (proj2 (htmlToMarkdown_output_shape asciiLower Samples.resolveSample
                       Samples.parseSample Samples.nestedListHtml Samples.noOpts))
      as [out [Hout Hshape]].
    exists out. split; [|exact Hshape].
    apply Hout. vm_compute. lia.
Defined.

(** C6 as stated fails on an empty paragraph: the output is not empty and
    its first line is blank. *)
Lemma htmlToMarkdown_blank_first_line :
  htmlToMarkdown asciiLower Samples.resolveSample Samples.parseSample 2
                 Samples.emptyParagraphHtml Samples.noOpts = Some [NL]
  /\ [NL] <> @nil char
  /\ firstLineBlank [NL] = true.
Proof. split; [vm_compute; reflexivity | split; [discriminate | reflexivity]]. Qed.

(** C10 on a document that is one script element, on one that is an
    empty paragraph, and on one that lost its wrapper. *)
Lemma htmlToMarkdown_empty_rendering_witness :
  htmlToMarkdown asciiLower Samples.resolveSample Samples.parseSample 1
                 Samples.scriptOnlyHtml Samples.noOpts = Some [NL]
  /\ htmlToMarkdown asciiLower Samples.resolveSample Samples.parseSample 1
                    Samples.emptyParagraphHtml Samples.noOpts = Some [NL]
  /\ htmlToMarkdown asciiLower Samples.resolveSample MoreSamples.parseMore 1
                    MoreSamples.framesetHtml Samples.noOpts = Some [].
Proof.
  split; [|split].
  - apply (proj1 (htmlToMarkdown_empty_rendering asciiLower Samples.resolveSample
                    Samples.parseSample 1 Samples.scriptOnlyHtml Samples.noOpts eq_refl)
             (Samples.el "DIV" [Samples.attr "id" "__root__"] Samples.scriptOnly)).
    + reflexivity.
    + intros child ctx st [<- | []]. exists st. reflexivity.
  - apply (proj1 (htmlToMarkdown_empty_rendering asciiLower Samples.resolveSample
                    Samples.parseSample 1 Samples.emptyParagraphHtml Samples.noOpts eq_refl)
             (Samples.el "DIV" [Samples.attr "id" "__root__"] Samples.emptyParagraph)).
    + reflexivity.
    + intros child ctx st [<- | []]. exists st. reflexivity.
  - apply (proj2 (htmlToMarkdown_empty_rendering asciiLower Samples.resolveSample
                    MoreSamples.parseMore 1 MoreSamples.framesetHtml
                    Samples.noOpts eq_refl)).
    reflexivity.
Defined.

(** C10 as stated fails on a document without the wrapper element: the
    input is not blank, nothing is rendered, and the result is the empty
    string, not the newline. *)
Lemma frameset_input_gives_empty_string :
  isEmpty MoreSamples.framesetHtml || isEmpty (trim MoreSamples.framesetHtml) = false
  /\ getElementById (MoreSamples.parseMore (wrapHtml MoreSamples.framesetHtml))
                    "__root__" = None
  /\ (forall fuel,
         htmlToMarkdown asciiLower Samples.resolveSample MoreSamples.parseMore fuel
                        MoreSamples.framesetHtml Samples.noOpts = Some [])
  /\ @Some jstring [] <> Some [NL].
Proof.
  split; [reflexivity|]. split; [reflexivity|]. split; [|discriminate].
  intros fuel. reflexivity.
Qed.

(** C1 with the parser of the samples. *)
Lemma nested_list_rendering_witness :
  htmlToMarkdown asciiLower Samples.resolveSample Samples.parseSample 3
                 Samples.nestedListHtml Samples.noOpts
  = Some (str "- a" ++ [NL] ++ str "- b" ++ [NL] ++ str "  " ++ [NL]
          ++ str "    - c" ++ [NL])
  /\ htmlToMarkdown asciiLower Samples.resolveSample Samples.parseSample 3
                    Samples.nestedListHtml Samples.noOpts
     <> Some (str "- a" ++ [NL] ++ str "- b" ++ [NL] ++ str "  - c" ++ [NL]).
Proof.
  apply (nested_list_rendering asciiLower Samples.resolveSample Samples.parseSample
           0 Samples.noOpts).
  reflexivity.
Defined.


(** C4 at [font-weight: 700]. *)
Lemma bold_style_classified_witness :
  isBoldLike asciiLower Samples.weight700Node = true
  /\ exists content st',
      renderInlineChildren (renderNode asciiLower Samples.resolveSample 1)
                           Samples.weight700Node Samples.ctx0 Samples.store0
      = Some (content, st')
      /\ renderNode asciiLower Samples.resolveSample 2 Samples.weight700Node
                    Samples.ctx0 Samples.store0
         = Some (wrapIf (isStrikeLike asciiLower Samples.weight700Node) (str "~~")
                   (wrapIf (isItalicLike asciiLower Samples.weight700Node) (str "*")
                      (str "**" ++ content ++ str "**")), st').
Proof.
  destruct (bold_style_classified asciiLower Samples.resolveSample
              Samples.weight700Node (str "700") eq_refl eq_refl) as [Hbold Hrender].
  split; [exact Hbold|].
  apply (Hrender 1 Samples.ctx0 Samples.store0); [reflexivity | reflexivity |].
  vm_compute. lia.
Defined.

(** C4 as stated fails at [font-weight: 650]: the value is numeric and at
    least 600, the element is not bold-like and gets no marker. *)
Lemma weight_650_is_not_bold :
  lookupAttr (str "font-weight")
             (styleMap (asciiLower (getAttrOrEmpty Samples.weight650Node "style")))
  = Some (str "650")
  /\ isBoldLike asciiLower Samples.weight650Node = false
  /\ renderNode asciiLower Samples.resolveSample 2 Samples.weight650Node
                Samples.ctx0 Samples.store0 = Some (str "x", Samples.store0)
  /\ htmlToMarkdown asciiLower Samples.resolveSample Samples.parseSample 2
                    Samples.weight650Html Samples.noOpts = Some (str "x" ++ [NL]).
Proof. repeat split; vm_compute; reflexivity. Qed.


(** C8 at a span that is bold and italic by its style. *)
Lemma emphasis_markers_order_witness :
  exists content st',
    renderInlineChildren (renderNode asciiLower Samples.resolveSample 1)
                         Samples.boldItalicSpanNode Samples.ctx0 Samples.store0
    = Some (content, st')
    /\ renderNode asciiLower Samples.resolveSample 2 Samples.boldItalicSpanNode
                  Samples.ctx0 Samples.store0
       = Some (str "*" ++ (str "**" ++ content ++ str "**") ++ str "*", st').
Proof.
  destruct (emphasis_markers_order asciiLower Samples.resolveSample 1
              Samples.boldItalicSpanNode Samples.ctx0 Samples.store0)
    as [content [st' [Hc [_ Hboth]]]];
    [reflexivity | reflexivity | reflexivity | vm_compute; lia |].
  exists content, st'. split; [exact Hc|].
  apply (Hboth eq_refl eq_refl eq_refl).
Defined.

(** C8 as stated fails on a heading that is bold and italic by its style:
    two classifiers match and no marker is put. *)
Lemma styled_heading_gets_no_marker :
  isBoldLike asciiLower Samples.boldItalicHeadingNode = true
  /\ isItalicLike asciiLower Samples.boldItalicHeadingNode = true
  /\ renderNode asciiLower Samples.resolveSample 2 Samples.boldItalicHeadingNode
                Samples.ctx0 Samples.store0
     = Some ([NL; NL] ++ str "# x" ++ [NL; NL], Samples.store0)
  /\ htmlToMarkdown asciiLower Samples.resolveSample Samples.parseSample 2
                    Samples.boldItalicHeadingHtml Samples.noOpts
     = Some (str "# x" ++ [NL]).
Proof. repeat split; vm_compute; reflexivity. Qed.


(* ================================================================== *)
(** ** Further properties of the scanners *)
(* ================================================================== *)

Section ScannerProperties.

Lemma escapeEach_length (t : jstring) :
  List.length (escapeEach t) = List.length t + List.length (filter isEscapable t).
Proof.
  unfold escapeEach. induction t as [|c t IH]; [reflexivity|].
  cbn [flat_map filter]. rewrite length_app, IH.
  destruct (isEscapable c); cbn [List.length]; lia.
Qed.

Lemma filter_nil_existsb (p : char -> bool) (t : jstring) :
  filter p t = [] <-> existsb p t = false.
Proof.
  induction t as [|c t IH]; cbn [filter existsb]; [tauto|].
  destruct (p c); cbn [orb]; [split; discriminate | exact IH].
Qed.

Lemma escapeEach_same (t : jstring) : existsb isEscapable t = false -> escapeEach t = t.
Proof.
  unfold escapeEach. induction t as [|c t IH]; [reflexivity|].
  cbn [existsb flat_map]. intros H. apply orb_false_iff in H as [Hc Ht].
  rewrite Hc, (IH Ht). reflexivity.
Qed.

(** X1. [escapeMd] adds one backslash for each of [\ * _ ` # | > -] in the
    text and nothing else: it leaves a text as it is exactly when the text
    has none of them. *)
Theorem escapeMd_only_where_needed (t : jstring) :
  List.length (escapeMd t) = List.length t + List.length (filter isEscapable t)
  /\ (escapeMd t = t <-> existsb isEscapable t = false).
Proof.
  rewrite escapeMd_escapeEach. split; [apply escapeEach_length|]. split.
  - intros H. apply filter_nil_existsb.
    pose proof (escapeEach_length t) as Hl. rewrite H in Hl.
    destruct (filter isEscapable t); [reflexivity | simpl in Hl; lia].
  - apply escapeEach_same.
Qed.

(** X2. [escapeMd] works character by character and loses nothing: the
    escaping of a concatenation is the concatenation of the escapings, and
    two texts with the same escaping are the same text. *)
Theorem escapeMd_app_injective (a b : jstring) :
  escapeMd (a ++ b) = escapeMd a ++ escapeMd b
  /\ (escapeMd a = escapeMd b <-> a = b).
Proof.
  split.
  - rewrite !escapeMd_escapeEach. unfold escapeEach. apply flat_map_app.
  - split; [|intros ->; reflexivity].
    rewrite !escapeMd_escapeEach. intros H.
    rewrite <- (unescape_escapeEach a), <- (unescape_escapeEach b), H. reflexivity.
Qed.

Lemma repeat_snoc (k : nat) (s : jstring) :
  List.repeat NL k ++ NL :: s = List.repeat NL (S k) ++ s.
Proof. induction k as [|k IH]; [reflexivity|]. cbn [List.repeat app]. rewrite IH. reflexivity. Qed.

Lemma squeezeNewlines_same (s : jstring) (k : nat) :
  includes tripleNewline (List.repeat NL k ++ s) = false ->
  squeezeNewlines s k = List.repeat NL k ++ s.
Proof.
  revert k; induction s as [|c s IH]; intros k H.
  - cbn [squeezeNewlines]. unfold pendingNewlines. rewrite app_nil_r in *.
    destruct k as [|[|[|k]]]; try reflexivity. discriminate H.
  - cbn [squeezeNewlines]. destruct (isNl c) eqn:Ec.
    + apply N.eqb_eq in Ec. subst c. rewrite repeat_snoc in H.
      rewrite (IH _ H), repeat_snoc. reflexivity.
    + assert (k < 3) as Hk.
      { destruct k as [|[|[|k]]]; try lia. discriminate H. }
      unfold pendingNewlines. apply Nat.leb_gt in Hk. rewrite Hk. f_equal. f_equal.
      apply (IH 0). cbn [List.repeat app].
      apply (includes_false_part tripleNewline (List.repeat NL k ++ [c]) s []).
      rewrite app_nil_r, <- app_assoc. exact H.
Qed.

(** X3. [normalizeLines] leaves a text without a run of three newlines as
    it is; so normalizing twice is normalizing once. *)
Theorem normalizeLines_idempotent (s : jstring) :
  (includes tripleNewline s = false -> normalizeLines s = s)
  /\ normalizeLines (normalizeLines s) = normalizeLines s.
Proof.
  assert (forall x, includes tripleNewline x = false -> normalizeLines x = x) as H.
  { intros x Hx. unfold normalizeLines. apply (squeezeNewlines_same x 0). exact Hx. }
  split; [apply H|]. apply H. apply squeezeNewlines_no_triple.
Qed.

(** X4. What [trimBlankLines] returns neither starts nor ends with a
    newline, and it has the characters of its argument that are not
    whitespace, all of them and in their order. *)
Theorem trimBlankLines_edges (s : jstring) :
  (forall c r, trimBlankLines s = c :: r -> isNl c = false)
  /\ (forall a c, trimBlankLines s = a ++ [c] -> isNl c = false)
  /\ nonSpace (trimBlankLines s) = nonSpace s.
Proof.
  split; [|split].
  - unfold trimBlankLines, stripNewlines. intros c r H.
    destruct (dropWhileEnd_head _ _ _ _ H) as [r' Hr'].
    apply (dropWhile_head _ _ _ _ Hr').
  - unfold trimBlankLines, stripNewlines. intros a c H.
    apply (dropWhileEnd_last _ _ _ _ H).
  - apply nonSpace_trimBlankLines.
Qed.

Lemma includes_needle_prefix (a b s : jstring) :
  includes (a ++ b) s = true -> includes a s = true.
Proof.
  intros H. apply includes_spec in H as [x [y ->]].
  apply includes_spec. exists x, (b ++ y). rewrite <- app_assoc. reflexivity.
Qed.

(** X5. The fence [codeFence] picks is three or four backticks, and it
    occurs in the text it fences exactly when the text has four backticks
    in a row: only then can the block end early. *)
Theorem codeFence_collision (text : jstring) (lang : option jstring) :
  exists fence info,
    codeFence text lang
    = fence ++ info ++ [NL] ++ dropFinalNewline text ++ [NL] ++ fence
    /\ (fence = str "```" \/ fence = str "````")
    /\ includes fence text = includes (str "````") text.
Proof.
  unfold codeFence.
  exists (if includes (str "```") text then str "````" else str "```").
  eexists. split; [reflexivity|].
  destruct (includes (str "```") text) eqn:E.
  - split; [right; reflexivity | reflexivity].
  - split; [left; reflexivity|]. rewrite E.
    destruct (includes (str "````") text) eqn:E4; [|reflexivity].
    change (str "````") with (str "```" ++ str "`") in E4.
    apply includes_needle_prefix in E4. congruence.
Qed.

End ScannerProperties.

Section SplitFacts.

Lemma split_not_nil (sep : char) (s : jstring) : split sep s <> [].
Proof.
  destruct s as [|c s]; cbn [split]; [discriminate|].
  destruct (N.eqb c sep); [discriminate|]. destruct (split sep s); discriminate.
Qed.

Lemma split_app_sep (sep : char) (a b : jstring) :
  split sep (a ++ sep :: b) = split sep a ++ split sep b.
Proof.
  induction a as [|c a IH]; cbn [app split].
  - rewrite N.eqb_refl. reflexivity.
  - rewrite IH. destruct (N.eqb c sep); [reflexivity|].
    pose proof (split_not_nil sep a) as Hne.
    destruct (split sep a) as [|h t]; [contradiction | reflexivity].
Qed.

Lemma split_single (sep : char) (s : jstring) :
  existsb (fun c => N.eqb c sep) s = false -> split sep s = [s].
Proof.
  induction s as [|c s IH]; [reflexivity|]. cbn [existsb split].
  intros H. apply orb_false_iff in H as [Hc Hs]. rewrite Hc, (IH Hs). reflexivity.
Qed.

Lemma split_parts_free (sep : char) (s : jstring) :
  Forall (fun l => existsb (fun c => N.eqb c sep) l = false) (split sep s).
Proof.
  induction s as [|c s IH]; cbn [split]; [repeat constructor|].
  destruct (N.eqb c sep) eqn:E; [constructor; [reflexivity | exact IH]|].
  destruct (split sep s) as [|h t]; [repeat constructor; cbn; rewrite E; reflexivity|].
  inversion IH as [|? ? Hh Ht]; subst. constructor; [|exact Ht].
  cbn [existsb]. rewrite E, Hh. reflexivity.
Qed.

Lemma split_join_lines (sep : char) (ls : list jstring) :
  ls <> [] ->
  Forall (fun l => existsb (fun c => N.eqb c sep) l = false) ls ->
  split sep (join [sep] ls) = ls.
Proof.
  induction ls as [|p ls IH]; [congruence|]. intros _ Hall.
  inversion Hall as [|? ? Hp Hls]; subst.
  destruct ls as [|q ls].
  - apply split_single, Hp.
  - change (join [sep] (p :: q :: ls)) with (p ++ sep :: join [sep] (q :: ls)).
    rewrite split_app_sep, (split_single _ _ Hp), IH; [reflexivity | discriminate | exact Hls].
Qed.

Lemma find_app {A} (f : A -> bool) (l1 l2 : list A) :
  find f (l1 ++ l2) = match find f l1 with Some x => Some x | None => find f l2 end.
Proof.
  induction l1 as [|x l1 IH]; [reflexivity|]. cbn [app find].
  destruct (f x); [reflexivity | exact IH].
Qed.

End SplitFacts.

Section WhitespaceProperties.

Lemma squeezeBlanks_no_double (s : jstring) (b : bool) :
  includes [SP; SP] (squeezeBlanks s b) = false.
Proof.
  revert b; induction s as [|c s IH]; intros b; cbn [squeezeBlanks].
  - destruct b; reflexivity.
  - destruct (isBlank c) eqn:Ec; [apply IH|].
    assert (N.eqb SP c = false) as Hsp.
    { destruct (N.eqb SP c) eqn:E; [|reflexivity].
      apply N.eqb_eq in E. subst c. discriminate Ec. }
    specialize (IH false).
    destruct b; cbn [app includes startsWith]; rewrite Hsp, ?N.eqb_refl;
      cbn [andb orb]; rewrite ?andb_false_r; cbn [orb];
      destruct (squeezeBlanks s false); exact IH.
Qed.

Lemma squeezeBlanks_in (c : char) (t : jstring) (b : bool) :
  In c (squeezeBlanks t b) -> c = SP \/ (In c t /\ isBlank c = false).
Proof.
  revert b; induction t as [|y t IH]; intros b; cbn [squeezeBlanks].
  - destruct b; [intros [<- | []]; left; reflexivity | contradiction].
  - destruct (isBlank y) eqn:Ey.
    + intros H. destruct (IH _ H) as [-> | [Hi Hb]]; [left; reflexivity|].
      right. split; [right; exact Hi | exact Hb].
    + intros H. apply in_app_or in H as [H | [<- | H]].
      * left. destruct b; [destruct H as [<- | []]; reflexivity | contradiction].
      * right. split; [left; reflexivity | exact Ey].
      * destruct (IH _ H) as [-> | [Hi Hb]]; [left; reflexivity|].
        right. split; [right; exact Hi | exact Hb].
Qed.

Lemma squeezeBlanks_newlines (s : jstring) (b : bool) :
  filter isNl (squeezeBlanks s b) = filter isNl s.
Proof.
  revert b; induction s as [|c s IH]; intros b; cbn [squeezeBlanks filter].
  - destruct b; reflexivity.
  - destruct (isBlank c) eqn:Ec.
    + rewrite IH. destruct (isNl c) eqn:En; [|reflexivity].
      apply N.eqb_eq in En. subst c. discriminate Ec.
    + rewrite filter_app. cbn [filter]. rewrite IH. destruct b; reflexivity.
Qed.

(** X6. [collapseWhitespace] leaves no two spaces in a row and no tab,
    vertical tab, form feed or no-break space, and it keeps every newline:
    the blanks of a line are squeezed, the lines stay. *)
Theorem collapseWhitespace_tidy (s : jstring) :
  includes [SP; SP] (collapseWhitespace s) = false
  /\ existsb isTab (collapseWhitespace s) = false
  /\ filter isNl (collapseWhitespace s) = filter isNl s.
Proof.
  unfold collapseWhitespace. split; [apply squeezeBlanks_no_double|]. split.
  - destruct (existsb isTab _) eqn:E; [|reflexivity]. exfalso.
    apply existsb_exists in E as [c [Hin Hc]].
    destruct (squeezeBlanks_in _ _ _ Hin) as [-> | [Hi Hb]]; [discriminate Hc|].
    apply in_map_iff in Hi as [y [Hy _]].
    unfold isTab, isBlank in *.
    destruct (N.eqb y NBSP) eqn:Ey; subst c; [discriminate Hb|].
    rewrite Ey in Hc. rewrite orb_false_r in Hc.
    apply orb_false_iff in Hb as [Hb H11]. apply orb_false_iff in Hb as [Hb H12].
    apply orb_false_iff in Hb as [_ H9]. rewrite H9, H11, H12 in Hc. discriminate Hc.
  - rewrite squeezeBlanks_newlines.
    induction s as [|c s IH]; [reflexivity|]. cbn [map filter]. rewrite IH.
    destruct (N.eqb c NBSP) eqn:E; [|reflexivity].
    apply N.eqb_eq in E. subst c. reflexivity.
Qed.

End WhitespaceProperties.

Section TextProperties.

Lemma collapseSpaceRuns_tidy (s : jstring) (run sawNl : bool) :
  spacesTidy (collapseSpaceRuns s run sawNl) false = true.
Proof.
  revert run sawNl; induction s as [|c s IH]; intros run sawNl; cbn [collapseSpaceRuns].
  - destruct run, sawNl; reflexivity.
  - destruct (isSpace c) eqn:Ec; [apply IH|].
    specialize (IH false false).
    destruct run, sawNl; cbn [runSeparator app spacesTidy];
      change (isSpace SP) with true; change (isSpace NL) with true;
      cbn [negb andb orb]; rewrite ?N.eqb_refl, ?orb_true_r; cbn [andb];
      rewrite Ec; exact IH.
Qed.

Lemma isEscapable_not_space (c : char) : isEscapable c = true -> isSpace c = false.
Proof.
  unfold isEscapable, isMdSpecial. intros H.
  repeat (apply orb_true_iff in H as [H | H]);
    apply N.eqb_eq in H; subst c; reflexivity.
Qed.

Lemma spacesTidy_escapeEach (t : jstring) (prev : bool) :
  spacesTidy (escapeEach t) prev = spacesTidy t prev.
Proof.
  unfold escapeEach. revert prev; induction t as [|c t IH]; intros prev; [reflexivity|].
  cbn [flat_map]. destruct (isEscapable c) eqn:E.
  - cbn [app spacesTidy]. change (isSpace BACKSLASH) with false. cbv iota.
    rewrite (isEscapable_not_space c E). apply IH.
  - cbn [app spacesTidy]. rewrite !IH. reflexivity.
Qed.

End TextProperties.

(* ================================================================== *)
(** ** Further properties of the renderer *)
(* ================================================================== *)

Section RendererProperties.

Variable toLowerCase : jstring -> jstring.
Variable resolveUrl : jstring -> jstring -> option jstring.

Local Notation renderNode := (renderNode toLowerCase resolveUrl).

(** X7. Whatever whitespace a text node holds, its rendering has single
    spaces and single newlines only: no tab or carriage return, and no two
    whitespace characters in a row. *)
Theorem text_whitespace_is_tidy (fuel : nat) (v : jstring) (ctx : Ctx) (st : Store) :
  exists out,
    renderNode (S fuel) (TextNode v) ctx st = Some (out, st)
    /\ spacesTidy out false = true.
Proof.
  exists (escapeMd (collapseSpaceRuns v false false)). split; [reflexivity|].
  rewrite escapeMd_escapeEach, spacesTidy_escapeEach. apply collapseSpaceRuns_tidy.
Qed.


Lemma stripPrefix_spec (p s rest : jstring) :
  stripPrefix p s = Some rest -> s = p ++ rest.
Proof.
  revert s; induction p as [|x p IH]; intros s; cbn [stripPrefix].
  - intros H. injection H as <-. reflexivity.
  - destruct s as [|y s]; [discriminate|].
    destruct (N.eqb x y) eqn:E; [|discriminate].
    apply N.eqb_eq in E. subst y. intros H. rewrite (IH _ H). reflexivity.
Qed.

Lemma capture_spec (rest m : jstring) :
  match takeWhile isLangChar rest with [] => None | w => Some w end = Some m ->
  m <> [] /\ forallb isLangChar m = true
  /\ exists tail, rest = m ++ tail /\ forall c r, tail = c :: r -> isLangChar c = false.
Proof.
  pose proof (takeWhile_all isLangChar rest) as Hall.
  pose proof (takeWhile_dropWhile isLangChar rest) as Hsplit.
  destruct (takeWhile isLangChar rest) as [|c w]; [discriminate|].
  intros H. injection H as <-. split; [discriminate|]. split; [exact Hall|].
  exists (dropWhile isLangChar rest). split; [exact Hsplit|].
  intros d r Hd. apply (dropWhile_head _ _ _ _ Hd).
Qed.

Lemma langAt_spec (s m : jstring) :
  langAt s = Some m ->
  m <> [] /\ forallb isLangChar m = true
  /\ exists prefix tail,
      (prefix = str "language-" \/ prefix = str "lang-")
      /\ s = prefix ++ m ++ tail
      /\ forall c r, tail = c :: r -> isLangChar c = false.
Proof.
  unfold langAt.
  destruct (stripPrefix (str "language-") s) as [rest|] eqn:E1.
  - destruct (match takeWhile isLangChar rest with [] => None | w => Some w end)
      as [m1|] eqn:C1.
    + intros H. injection H as <-.
      destruct (capture_spec _ _ C1) as [Hne [Hall [tail [Hrest Htail]]]].
      split; [exact Hne|]. split; [exact Hall|].
      exists (str "language-"), tail. split; [left; reflexivity|].
      split; [|exact Htail]. rewrite (stripPrefix_spec _ _ _ E1), Hrest. reflexivity.
    + destruct (stripPrefix (str "lang-") s) as [rest2|] eqn:E2; [|discriminate].
      apply stripPrefix_spec in E1, E2. rewrite E1 in E2. discriminate E2.
  - destruct (stripPrefix (str "lang-") s) as [rest2|] eqn:E2; [|discriminate].
    intros C2. destruct (capture_spec _ _ C2) as [Hne [Hall [tail [Hrest Htail]]]].
    split; [exact Hne|]. split; [exact Hall|].
    exists (str "lang-"), tail. split; [right; reflexivity|].
    split; [|exact Htail]. rewrite (stripPrefix_spec _ _ _ E2), Hrest. reflexivity.
Qed.

Lemma langAt_none (s : jstring) :
  startsWith (str "language-") s = false -> startsWith (str "lang-") s = false ->
  langAt s = None.
Proof.
  intros H1 H2. unfold langAt.
  destruct (stripPrefix (str "language-") s) as [rest|] eqn:E1.
  - apply stripPrefix_spec in E1.
    assert (startsWith (str "language-") s = true) as H
        by (apply startsWith_spec; exists rest; exact E1).
    congruence.
  - destruct (stripPrefix (str "lang-") s) as [rest|] eqn:E2; [|reflexivity].
    apply stripPrefix_spec in E2.
    assert (startsWith (str "lang-") s = true) as H
        by (apply startsWith_spec; exists rest; exact E2).
    congruence.
Qed.

(** X9. The language [getCodeLang] reads off a class attribute is never
    empty: it is the longest run of [[\w#+.-]] characters right after a
    [language-] or [lang-] in the lower-cased class.  A class without
    either prefix gives no language. *)
Theorem getCodeLang_spec (el : Node) :
  (forall m, getCodeLang toLowerCase el = Some m ->
     m <> [] /\ forallb isLangChar m = true
     /\ exists before prefix tail,
         (prefix = str "language-" \/ prefix = str "lang-")
         /\ toLowerCase (getAttrOrEmpty el "class") = before ++ prefix ++ m ++ tail
         /\ forall c r, tail = c :: r -> isLangChar c = false)
  /\ (includes (str "language-") (toLowerCase (getAttrOrEmpty el "class")) = false ->
      includes (str "lang-") (toLowerCase (getAttrOrEmpty el "class")) = false ->
      getCodeLang toLowerCase el = None).
Proof.
  unfold getCodeLang. generalize (toLowerCase (getAttrOrEmpty el "class")) as cls.
  intros cls. split.
  - induction cls as [|c cls IH]; intros m; cbn [matchLang].
    + destruct (langAt []) as [m0|] eqn:E; [|discriminate].
      intros H. injection H as <-.
      destruct (langAt_spec _ _ E) as [Hne [Hall [prefix [tail [Hp [Hs Ht]]]]]].
      split; [exact Hne|]. split; [exact Hall|]. exists [], prefix, tail. auto.
    + destruct (langAt (c :: cls)) as [m0|] eqn:E.
      * intros H. injection H as <-.
        destruct (langAt_spec _ _ E) as [Hne [Hall [prefix [tail [Hp [Hs Ht]]]]]].
        split; [exact Hne|]. split; [exact Hall|]. exists [], prefix, tail. auto.
      * intros H. destruct (IH m H) as [Hne [Hall [before [prefix [tail [Hp [Hs Ht]]]]]]].
        split; [exact Hne|]. split; [exact Hall|].
        exists (c :: before), prefix, tail. rewrite Hs. auto.
  - induction cls as [|c cls IH]; intros H1 H2; rewrite includes_unfold in H1, H2;
      apply orb_false_iff in H1 as [S1 R1]; apply orb_false_iff in H2 as [S2 R2];
      cbn [matchLang]; rewrite (langAt_none _ S1 S2); [reflexivity|].
    apply IH; assumption.
Qed.

Lemma styleMap_lookup (prop : jstring) (decls : list jstring)
      (map : list (jstring * jstring)) :
  lookupAttr prop
    (fold_left
       (fun map pair =>
          let parts := split 58%N pair in
          let k := trim (hd [] parts) in
          let v := match tl parts with x :: _ => trim x | [] => [] end in
          if isEmpty k then map else (k, v) :: map)
       decls map)
  = match lastValue prop decls with
    | Some v => Some v
    | None => lookupAttr prop map
    end.
Proof.
  revert map; induction decls as [|d decls IH]; intros map; [reflexivity|].
  cbn [fold_left]. rewrite IH. unfold lastValue. cbn [rev]. rewrite find_app.
  destruct (find _ (rev decls)) as [d'|]; [reflexivity|].
  cbn [find]. fold (declKey d). fold (declValue d). cbv zeta.
  destruct (isEmpty (declKey d)); cbn [negb andb]; [reflexivity|].
  cbn [lookupAttr]. destruct (eqs (declKey d) prop); reflexivity.
Qed.

(** X10. [styleHas] reads the last declaration of the property in the
    lower-cased style attribute: an earlier declaration of the same
    property is shadowed, a declaration with an empty key is skipped, and
    a property that is not declared, or declared with an empty value,
    does not match. *)
Theorem styleHas_last_declaration (el : Node) (prop : string) (test : jstring -> bool) :
  styleHas toLowerCase el prop test
  = match lastValue (str prop) (split 59%N (toLowerCase (getAttrOrEmpty el "style"))) with
    | Some v => negb (isEmpty v) && test v
    | None => false
    end.
Proof.
  unfold styleHas, styleMap. rewrite styleMap_lookup.
  destruct (lastValue _ _) as [v|]; [|reflexivity].
  destruct (isEmpty v); reflexivity.
Qed.

(** X11. Rendering a node never changes an array that was there before:
    it only adds the arrays of the lists it renders, so the counters of
    every enclosing list are as they were when it returns. *)
Theorem renderNode_keeps_arrays (fuel : nat) (node : Node) (ctx : Ctx) (st : Store) :
  height node < fuel ->
  exists out st',
    renderNode fuel node ctx st = Some (out, st')
    /\ List.length st <= List.length st'
    /\ forall r, r < List.length st -> nth r st' [] = nth r st [].
Proof.
  intros Hfuel.
  destruct (renderNode_ok toLowerCase resolveUrl fuel node ctx st Hfuel)
    as [out [st' [Hr [ext ->]]]].
  exists out, (st ++ ext). split; [exact Hr|]. split.
  - rewrite length_app. lia.
  - intros r Hlt. apply app_nth1. exact Hlt.
Qed.

(** X12. A block quote puts [> ] in front of every line of its trimmed
    content, the empty lines too, and adds no line; an empty quote is the
    one line [> ]. *)
Theorem blockquote_prefixes_every_line (fuel : nat) (el : Node) (ctx : Ctx) (st : Store)
        (inner : jstring) (st' : Store) :
  hasTag "BLOCKQUOTE" el = true ->
  renderInlineChildren (renderNode fuel) el ctx st = Some (inner, st') ->
  exists quoted,
    renderNode (S fuel) el ctx st = Some ([NL; NL] ++ quoted ++ [NL; NL], st')
    /\ split NL quoted = map (fun l => str "> " ++ l) (split NL (trimBlankLines inner)).
Proof.
  intros Htag Hinner.
  destruct el as [v | tag ln attrs ch | k]; try discriminate.
  unfold hasTag in Htag. cbn [isElement tagNameOf andb] in Htag.
  apply eqs_eq in Htag. subst tag.
  exists (join [NL] (map (fun l => str "> " ++ l) (split NL (trimBlankLines inner)))).
  split.
  - change (renderNode (S fuel) (ElementNode (str "BLOCKQUOTE") ln attrs ch) ctx st)
      with ((inner0 <- renderInlineChildren (renderNode fuel)
                         (ElementNode (str "BLOCKQUOTE") ln attrs ch) ctx ;;
             ret ([NL; NL]
                  ++ join [NL] (map (fun l => str "> " ++ l)
                                    (split NL (trimBlankLines inner0)))
                  ++ [NL; NL])) st).
    rewrite (bind_some _ _ _ _ _ Hinner). reflexivity.
  - apply split_join_lines.
    + pose proof (split_not_nil NL (trimBlankLines inner)) as Hne.
      destruct (split NL (trimBlankLines inner)); [contradiction | discriminate].
    + pose proof (split_parts_free NL (trimBlankLines inner)) as Hfree.
      induction Hfree as [|l ls Hl Hls IH]; constructor; [|exact IH].
      cbv beta. rewrite existsb_app. apply orb_false_iff. split; [reflexivity | exact Hl].
Qed.

End RendererProperties.

Section LineFacts.

Lemma split_join_flat (sep : char) (ls : list jstring) :
  ls <> [] -> split sep (join [sep] ls) = flat_map (split sep) ls.
Proof.
  induction ls as [|p ls IH]; [congruence|]. intros _.
  destruct ls as [|q ls].
  - cbn [join flat_map]. rewrite app_nil_r. reflexivity.
  - change (join [sep] (p :: q :: ls)) with (p ++ sep :: join [sep] (q :: ls)).
    rewrite split_app_sep, IH by discriminate. reflexivity.
Qed.

Lemma str_cons (a : ascii) (s : string) : str (String a s) = N_of_ascii a :: str s.
Proof. reflexivity. Qed.

Lemma digits_line (u : Decimal.uint) :
  existsb isNl (str (NilEmpty.string_of_uint u)) = false.
Proof.
  induction u; cbn [NilEmpty.string_of_uint]; [reflexivity| | | | | | | | | |];
    rewrite str_cons; cbn [existsb]; rewrite IHu; reflexivity.
Qed.

Lemma ofNat_line (n : nat) : existsb isNl (ofNat n) = false.
Proof.
  unfold ofNat, NilZero.string_of_uint.
  destruct (Nat.to_uint n) eqn:E; try reflexivity; rewrite <- E; apply digits_line.
Qed.

Lemma bulletOf_line (ordered : bool) (n : nat) : existsb isNl (bulletOf ordered n) = false.
Proof.
  unfold bulletOf. destruct ordered; [|reflexivity].
  rewrite existsb_app. apply orb_false_iff. split; [apply ofNat_line | reflexivity].
Qed.

Lemma indent_line (depth : nat) : existsb isNl (repeat (str "  ") depth) = false.
Proof.
  induction depth as [|d IH]; [reflexivity|]. cbn [repeat].
  rewrite existsb_app. apply orb_false_iff. split; [reflexivity | exact IH].
Qed.

Lemma itemLines_are_lines (depth : nat) (bullet contentMd : jstring) :
  existsb isNl bullet = false ->
  Forall (fun l => existsb (fun c => N.eqb c NL) l = false)
         (itemLines depth bullet contentMd).
Proof.
  intros Hb. unfold itemLines.
  pose proof (split_parts_free NL contentMd) as Hfree.
  pose proof (indent_line depth) as Hi.
  destruct (split NL contentMd) as [|l ls]; cbn [hd tl map].
  - constructor; [|constructor].
    rewrite !existsb_app. apply orb_false_iff. split; [exact Hi|].
    apply orb_false_iff. split; [exact Hb | reflexivity].
  - inversion Hfree as [|? ? Hl Hls]; subst. constructor.
    + rewrite !existsb_app. apply orb_false_iff. split; [exact Hi|].
      apply orb_false_iff. split; [exact Hb | exact Hl].
    + clear Hl Hfree. induction Hls as [|x xs Hx Hxs IH]; constructor; [|exact IH].
      cbv beta. rewrite !existsb_app. apply orb_false_iff. split; [exact Hi|].
      apply orb_false_iff. split; [reflexivity | exact Hx].
Qed.

Lemma listItemBlock_lines (depth : nat) (bullet contentMd : jstring) :
  existsb isNl bullet = false ->
  split NL (listItemBlock depth bullet contentMd) = itemLines depth bullet contentMd.
Proof.
  intros Hb. change (listItemBlock depth bullet contentMd)
    with (join [NL] (itemLines depth bullet contentMd)).
  apply split_join_lines; [discriminate | apply itemLines_are_lines, Hb].
Qed.

Lemma itemLines_indented (depth : nat) (bullet contentMd : jstring) :
  Forall (fun l => startsWith (repeat (str "  ") depth) l = true)
         (itemLines depth bullet contentMd).
Proof.
  unfold itemLines. constructor.
  - apply startsWith_spec. eexists. reflexivity.
  - apply Forall_forall. intros l Hl. apply in_map_iff in Hl as [x [<- _]].
    apply startsWith_spec. eexists. reflexivity.
Qed.

Lemma listBlocks_lines (depth : nat) (ordered : bool) (contents : list jstring) :
  contents <> [] ->
  split NL (join [NL] (listBlocks depth ordered contents))
  = flat_map (fun '(n, c) => itemLines depth (bulletOf ordered n) c)
             (combine (seq 1 (List.length contents)) contents).
Proof.
  intros Hne. rewrite split_join_flat.
  - unfold listBlocks. rewrite flat_map_concat_map, map_map, <- flat_map_concat_map.
    apply flat_map_ext. intros [n c]. apply listItemBlock_lines, bulletOf_line.
  - intros H. apply (f_equal (@List.length jstring)) in H.
    rewrite listBlocks_length in H. destruct contents; [congruence | discriminate H].
Qed.

End LineFacts.

Section ListAndTableProperties.

Variable toLowerCase : jstring -> jstring.
Variable resolveUrl : jstring -> jstring -> option jstring.

Local Notation renderNode := (renderNode toLowerCase resolveUrl).

(** X13. The lines of a rendered list are those of its items, one after
    the other: the first line of an item carries the bullet, [- ] in an
    unordered list, and the other lines are two columns further in.  So
    every line of the list starts with two spaces for each enclosing list. *)
Theorem list_lines_are_indented (fuel : nat) (el : Node) (ctx : Ctx) (ordered : bool)
        (st : Store) :
  height el <= fuel ->
  exists contents out st',
    renderList (renderNode fuel) el ctx ordered st = Some (out, st')
    /\ List.length contents = List.length (filter (hasTag "LI") (childrenOf el))
    /\ (contents = [] -> out = [])
    /\ (contents <> [] ->
        split NL out
        = flat_map (fun '(n, c) => itemLines (listDepth ctx) (bulletOf ordered n) c)
                   (combine (seq 1 (List.length contents)) contents)
        /\ Forall (fun l => startsWith (repeat (str "  ") (listDepth ctx)) l = true)
                  (split NL out)).
Proof.
  intros Hfuel.
  destruct (renderList_ok (renderNode fuel) fuel
              (renderNode_ok toLowerCase resolveUrl fuel) el ctx ordered st Hfuel)
    as [contents [st' [Hr [_ Hlen]]]].
  exists contents, (join [NL] (listBlocks (listDepth ctx) ordered contents)), st'.
  split; [exact Hr|]. split; [exact Hlen|]. split.
  - intros ->. reflexivity.
  - intros Hne. rewrite (listBlocks_lines _ _ _ Hne). split; [reflexivity|].
    apply Forall_forall. intros l Hl. apply in_flat_map in Hl as [[n c] [_ Hl]].
    pose proof (itemLines_indented (listDepth ctx) (bulletOf ordered n) c) as Hall.
    rewrite Forall_forall in Hall. apply Hall, Hl.
Qed.

End ListAndTableProperties.

Section TableFacts.

Lemma newlinesToSpace_line (s : jstring) (b : bool) :
  existsb isNl (newlinesToSpace s b) = false.
Proof.
  revert b; induction s as [|c s IH]; intros b; cbn [newlinesToSpace].
  - destruct b; reflexivity.
  - destruct (isNl c) eqn:E; [apply IH|].
    rewrite existsb_app. cbn [existsb]. rewrite E, IH. destruct b; reflexivity.
Qed.

Lemma existsb_trim (p : char -> bool) (s : jstring) :
  existsb p s = false -> existsb p (trim s) = false.
Proof.
  destruct (trim_part s) as [a [b Hs]]. intros H. rewrite Hs in H.
  rewrite !existsb_app in H. apply orb_false_iff in H as [_ H].
  apply orb_false_iff in H as [H _]. exact H.
Qed.

Lemma trim_cellOk (s : jstring) : existsb isNl s = false -> cellOk (trim s).
Proof.
  intros H. split; [apply existsb_trim, H|]. split.
  - intros c r Hc. apply (trim_head _ _ _ Hc).
  - intros a c Hc. apply (trim_last _ _ _ Hc).
Qed.



Lemma mapM_rule_post {A B} (f : A -> M B) (xs : list A) (Q : B -> Prop) :
  (forall x st, In x xs -> exists y st', f x st = Some (y, st') /\ extends st st' /\ Q y) ->
  forall st, exists ys st',
      mapM f xs st = Some (ys, st') /\ extends st st'
      /\ List.length ys = List.length xs /\ Forall Q ys.
Proof.
  induction xs as [|x xs IH]; intros Hf st; cbn [mapM].
  - exists [], st. repeat split; [apply extends_refl | constructor].
  - destruct (Hf x st (or_introl eq_refl)) as [y [st1 [Hy [E1 Qy]]]].
    destruct (IH (fun z s Hz => Hf z s (or_intror Hz)) st1)
      as [ys [st2 [Hys [E2 [Hl Hq]]]]].
    exists (y :: ys), st2. rewrite (bind_some _ _ _ _ _ Hy), (bind_some _ _ _ _ _ Hys).
    repeat split; [eapply extends_trans; eassumption | simpl; rewrite Hl; reflexivity
                   | constructor; assumption].
Qed.

Variable render : Node -> Ctx -> M jstring.
Variable h : nat.
Hypothesis render_ok : rendersBelow render h.

Lemma cellText_cellOk (td : Node) (ctx : Ctx) (st : Store) :
  height td <= h ->
  exists out st', cellText render td ctx st = Some (out, st') /\ extends st st' /\ cellOk out.
Proof.
  intros Htd. unfold cellText.
  destruct (renderInlineChildren_ok render h render_ok td ctx st Htd)
    as [inner [st' [Hin E]]].
  rewrite (bind_some _ _ _ _ _ Hin). eexists _, _. split; [reflexivity|].
  split; [exact E|]. apply trim_cellOk, newlinesToSpace_line.
Qed.

(** The loop over the rows, with all it keeps: one row of texts for each
    row, one text for each cell, every text a trimmed line, and as header
    the texts of the first row that has a header cell. *)
Lemma tableGrid_strong (table : Node) (ctx : Ctx) (st : Store) :
  height table <= h ->
  exists grid headerCells st',
    tableGrid render table ctx st = Some ((grid, headerCells), st')
    /\ Forall2 (fun tr texts =>
                  List.length texts = List.length (filter isCell (childrenOf tr)))
               (tableRows table) grid
    /\ Forall (Forall cellOk) grid
    /\ match headerCells with
       | None => existsb rowHasTh (tableRows table) = false
       | Some hc =>
           exists before tr after,
             tableRows table = before ++ tr :: after
             /\ existsb rowHasTh before = false
             /\ rowHasTh tr = true
             /\ nth (List.length before) grid [] = hc
       end.
Proof.
  intros Htable. unfold tableGrid.
  match goal with
  | |- context [forOf ?rows ?body ?init] =>
      destruct (forOf_rule rows body
                  (fun done '(grid, headerCells) stc =>
                     Forall2 (fun tr texts =>
                                List.length texts
                                = List.length (filter isCell (childrenOf tr)))
                             done grid
                     /\ Forall (Forall cellOk) grid
                     /\ match headerCells with
                        | None => existsb rowHasTh done = false
                        | Some hc =>
                            exists before tr after,
                              done = before ++ tr :: after
                              /\ existsb rowHasTh before = false
                              /\ rowHasTh tr = true
                              /\ nth (List.length before) grid [] = hc
                        end))
        with (s := init) (st := st)
        as [[grid hc] [st' [Hloop [Hgrid [Hcells Hhc]]]]]
  end.
  - intros done tr [grid hc] stc Htr [Hgrid [Hcells Hhc]].
    apply tableRows_height in Htr.
    destruct (mapM_rule_post (fun td => cellText render td ctx)
                (filter isCell (childrenOf tr)) cellOk)
      with (st := stc) as [texts [st2 [Hmap [_ [Hlen Hok]]]]].
    { intros td s Htd. apply filter_In in Htd as [Htd _]. apply height_child in Htd.
      apply cellText_cellOk. lia. }
    rewrite (bind_some _ _ _ _ _ Hmap).
    eexists _, _. split; [reflexivity|]. cbv beta iota.
    pose proof (Forall2_length Hgrid) as Hdl.
    split; [apply Forall2_app; [exact Hgrid | constructor; [exact Hlen | constructor]]|].
    split; [apply Forall_app; split; [exact Hcells | constructor; [exact Hok | constructor]]|].
    destruct hc as [hc|].
    + destruct Hhc as [before [tr0 [after [-> [Hb [Ht Hn]]]]]].
      exists before, tr0, (after ++ [tr]). rewrite <- app_assoc. split; [reflexivity|].
      split; [exact Hb|]. split; [exact Ht|].
      rewrite app_nth1; [exact Hn|]. rewrite <- Hdl, length_app. simpl. lia.
    + fold (rowHasTh tr). destruct (rowHasTh tr) eqn:Eth.
      * exists done, tr, []. split; [reflexivity|]. split; [exact Hhc|].
        split; [exact Eth|]. rewrite Hdl, nth_middle. reflexivity.
      * rewrite existsb_app, Hhc. cbn [existsb]. rewrite Eth. reflexivity.
  - split; [constructor|]. split; [constructor | reflexivity].
  - exists grid, hc, st'. repeat split; assumption.
Qed.

End TableFacts.

Section ColumnFacts.








End ColumnFacts.

Section TableProperties.

Variable toLowerCase : jstring -> jstring.
Variable resolveUrl : jstring -> jstring -> option jstring.

Local Notation renderNode := (renderNode toLowerCase resolveUrl).



(** X15. The header of a table is the first collected row that has a [th]
    cell: its texts, one for each of its cells, so it is not empty.
    Without any [th] the first row is the header and the other rows are
    the body. *)
Theorem table_header_row (fuel : nat) (table : Node) (ctx : Ctx) (st : Store) :
  height table <= fuel ->
  exists grid headerCells st',
    tableGrid (renderNode fuel) table ctx st = Some ((grid, headerCells), st')
    /\ List.length grid = List.length (tableRows table)
    /\ (existsb rowHasTh (tableRows table) = true ->
        exists before tr after,
          tableRows table = before ++ tr :: after
          /\ existsb rowHasTh before = false
          /\ rowHasTh tr = true
          /\ tableHead grid headerCells = nth (List.length before) grid []
          /\ List.length (tableHead grid headerCells)
             = List.length (filter isCell (childrenOf tr))
          /\ tableHead grid headerCells <> [])
    /\ (existsb rowHasTh (tableRows table) = false ->
        tableHead grid headerCells = hd [] grid
        /\ tableBody grid headerCells = tl grid).
Proof.
  intros Hfuel.
  destruct (tableGrid_strong (renderNode fuel) fuel
              (renderNode_ok toLowerCase resolveUrl fuel) table ctx st Hfuel)
    as [grid [hc [st' [Hg [Hrows [_ Hhc]]]]]].
  pose proof (Forall2_length Hrows) as Hlen.
  exists grid, hc, st'. split; [exact Hg|]. split; [symmetry; exact Hlen|]. split.
  - intros Hth. destruct hc as [hd0|]; [|congruence].
    destruct Hhc as [before [tr [after [Hr [Hb [Ht Hn]]]]]].
    exists before, tr, after. cbn [tableHead].
    assert (List.length hd0 = List.length (filter isCell (childrenOf tr))) as Hcells.
    { assert (Forall2 (fun tr texts =>
                         List.length texts = List.length (filter isCell (childrenOf tr)))
                      (before ++ tr :: after) grid) as Hrows' by (rewrite <- Hr; exact Hrows).
      apply Forall2_app_inv_l in Hrows' as [g1 [g2 [H1 [H2 ->]]]].
      inversion H2 as [|? texts ? g3 Hcell H3]; subst.
      rewrite (Forall2_length H1), nth_middle. exact Hcell. }
    repeat split; try assumption; try (symmetry; exact Hn).
    intros ->. unfold rowHasTh in Ht.
    destruct (filter isCell (childrenOf tr)); [discriminate Ht | discriminate Hcells].
  - intros Hth. destruct hc as [hd0|]; [|split; reflexivity].
    destruct Hhc as [before [tr [after [Hr [_ [Ht _]]]]]].
    rewrite Hr, existsb_app in Hth. cbn [existsb] in Hth. rewrite Ht in Hth.
    rewrite orb_true_r in Hth. discriminate Hth.
Qed.

End TableProperties.

Section DispatchProperties.

Variable toLowerCase : jstring -> jstring.
Variable resolveUrl : jstring -> jstring -> option jstring.

Local Notation renderNode := (renderNode toLowerCase resolveUrl).

Lemma headingLevel_spec (tag : jstring) (n : nat) :
  headingLevel tag = Some n ->
  1 <= n <= 6 /\ tag = [72%N; (48 + N.of_nat n)%N].
Proof.
  unfold headingLevel. destruct tag as [|hh [|d [|x tag]]]; try discriminate.
  destruct (N.eqb hh 72 && (49 <=? d)%N && (d <=? 54)%N) eqn:E; [|discriminate].
  apply andb_true_iff in E as [E Hhi]. apply andb_true_iff in E as [Hh Hlo].
  apply N.eqb_eq in Hh. apply N.leb_le in Hlo, Hhi. subst hh.
  intros H. injection H as <-. split; [lia|]. f_equal. f_equal. lia.
Qed.

(** X16. A tag that is taken for a heading is one of [H1] to [H6]; the
    heading has as many [#] as its level (the clamp to 1..6 never changes
    it), one space, and its trimmed content, between blank lines. *)
Theorem heading_hashes (fuel : nat) (el : Node) (ctx : Ctx) (st : Store)
        (n : nat) (inner : jstring) (st' : Store) :
  isElement el = true ->
  headingLevel (tagNameOf el) = Some n ->
  renderInlineChildren (renderNode fuel) el ctx st = Some (inner, st') ->
  1 <= n <= 6
  /\ tagNameOf el = str "H" ++ ofNat n
  /\ renderNode (S fuel) el ctx st
     = Some ([NL; NL] ++ repeat (str "#") n ++ [SP] ++ trimBlankLines inner ++ [NL; NL],
             st').
Proof.
  intros Hel Hlevel Hinner.
  destruct (headingLevel_spec _ _ Hlevel) as [Hn Htag]. split; [exact Hn|].
  destruct el as [v | tag ln attrs ch | k]; try discriminate.
  cbn [tagNameOf] in *. subst tag.
  assert (n = 1 \/ n = 2 \/ n = 3 \/ n = 4 \/ n = 5 \/ n = 6) as Hcases by lia.
  destruct Hcases as [-> | [-> | [-> | [-> | [-> | ->]]]]];
    (split; [reflexivity|]);
    match goal with
    | |- renderNode (S fuel) ?e ctx st = Some (?pre ++ ?hashes ++ _, _) =>
        change (renderNode (S fuel) e ctx st)
          with ((inner0 <- renderInlineChildren (renderNode fuel) e ctx ;;
                 ret (pre ++ hashes ++ [SP] ++ trimBlankLines inner0 ++ [NL; NL])) st)
    end;
    rewrite (bind_some _ _ _ _ _ Hinner); reflexivity.
Qed.

(** X17. An element that no rule claims is transparent: when its tag is
    handled by no earlier rule and is no block tag, and no emphasis
    classifier matches, its rendering is the renderings of its children
    one after the other, with nothing added. *)
Theorem unclaimed_element_is_transparent (fuel : nat) (el : Node) (ctx : Ctx) (st : Store) :
  isElement el = true ->
  handledBeforeEmphasis (tagNameOf el) = false ->
  isBoldLike toLowerCase el || isItalicLike toLowerCase el
  || isStrikeLike toLowerCase el = false ->
  isBlock el = false ->
  renderNode (S fuel) el ctx st = renderInlineChildren (renderNode fuel) el ctx st.
Proof.
  intros Hel Htag Hemph Hblock.
  destruct el as [v | tag ln attrs ch | k]; try discriminate.
  rewrite renderNode_S; cbn [renderNodeBody]. unfold renderElement.
  cbn [tagNameOf] in *. unfold handledBeforeEmphasis in Htag. cbn [existsb] in Htag.
  repeat match goal with
         | H : _ || _ = false |- _ => apply orb_false_iff in H; destruct H
         end.
  destruct (headingLevel tag); [discriminate|].
  repeat match goal with
         | H : ?b = false |- context [if ?b then _ else _] => rewrite H
         end.
  match goal with
  | H : isBoldLike _ _ = false, H1 : isItalicLike _ _ = false,
    H2 : isStrikeLike _ _ = false |- _ => rewrite H, H1, H2
  end.
  cbn [orb]. reflexivity.
Qed.

(** X18. A link whose rendered content is empty after trimming shows its
    [href] attribute as it is written, while the target is the resolved
    URL: the text is not resolved against the base. *)
Theorem empty_link_shows_raw_href (fuel : nat) (el : Node) (ctx : Ctx) (st : Store)
        (inner : jstring) (st' : Store) :
  hasTag "A" el = true ->
  renderInlineChildren (renderNode fuel) el ctx st = Some (inner, st') ->
  trimBlankLines inner = [] ->
  renderNode (S fuel) el ctx st
  = Some (str "[" ++ getAttrOrEmpty el "href" ++ str "]("
          ++ absolutizeUrl resolveUrl (getAttrOrEmpty el "href") (baseUrl ctx)
          ++ titleSuffix (getAttr el "title") ++ str ")", st').
Proof.
  intros Htag Hinner Hempty.
  destruct el as [v | tag ln attrs ch | k]; try discriminate.
  unfold hasTag in Htag. cbn [isElement tagNameOf andb] in Htag.
  apply eqs_eq in Htag. subst tag.
  change (renderNode (S fuel) (ElementNode (str "A") ln attrs ch) ctx st)
    with ((inner0 <- renderInlineChildren (renderNode fuel)
                       (ElementNode (str "A") ln attrs ch) ctx ;;
           ret (str "["
                ++ orElse (trimBlankLines inner0)
                          (getAttrOrEmpty (ElementNode (str "A") ln attrs ch) "href")
                ++ str "]("
                ++ absolutizeUrl resolveUrl
                     (getAttrOrEmpty (ElementNode (str "A") ln attrs ch) "href") (baseUrl ctx)
                ++ titleSuffix (getAttr (ElementNode (str "A") ln attrs ch) "title")
                ++ str ")")) st).
  rewrite (bind_some _ _ _ _ _ Hinner), Hempty. reflexivity.
Qed.

End DispatchProperties.

(* ================================================================== *)
(** ** The origins are dropped: the tagged scanners are the scanners *)
(* ================================================================== *)

Section ErasureFacts.


Lemma erase_app (a b : Tagged.tstring) : Tagged.erase (a ++ b) = Tagged.erase a ++ Tagged.erase b.
Proof. apply map_app. Qed.

Lemma erase_tag (o : Tagged.Origin) (s : jstring) : Tagged.erase (Tagged.tag o s) = s.
Proof.
  unfold Tagged.erase, Tagged.tag. rewrite map_map. cbn [Tagged.code fst]. apply map_id.
Qed.

Lemma erase_isEmpty (s : Tagged.tstring) : JS.isEmpty (Tagged.erase s) = Tagged.isEmpty s.
Proof. destruct s; reflexivity. Qed.

Lemma erase_dropWhile (p : char -> bool) (s : Tagged.tstring) :
  Tagged.erase (Tagged.dropWhile p s) = JS.dropWhile p (Tagged.erase s).
Proof.
  induction s as [|x s IH]; [reflexivity|].
  cbn [Tagged.dropWhile JS.dropWhile Tagged.erase map]. fold (Tagged.erase s).
  destruct (p (Tagged.code x)); [exact IH | reflexivity].
Qed.

Lemma erase_takeWhile (p : char -> bool) (s : Tagged.tstring) :
  Tagged.erase (Tagged.takeWhile p s) = JS.takeWhile p (Tagged.erase s).
Proof.
  induction s as [|x s IH]; [reflexivity|].
  cbn [Tagged.takeWhile JS.takeWhile Tagged.erase map]. fold (Tagged.erase s).
  destruct (p (Tagged.code x)); [|reflexivity].
  cbn [map]. fold (Tagged.erase (Tagged.takeWhile p s)). rewrite IH. reflexivity.
Qed.

Lemma erase_dropWhileEnd (p : char -> bool) (s : Tagged.tstring) :
  Tagged.erase (Tagged.dropWhileEnd p s) = JS.dropWhileEnd p (Tagged.erase s).
Proof.
  induction s as [|x s IH]; [reflexivity|].
  cbn [Tagged.dropWhileEnd JS.dropWhileEnd Tagged.erase map]. fold (Tagged.erase s).
  rewrite <- IH. destruct (Tagged.dropWhileEnd p s) as [|y r].
  - cbn [Tagged.erase map]. destruct (p (Tagged.code x)); reflexivity.
  - reflexivity.
Qed.

Lemma erase_trim (s : Tagged.tstring) : Tagged.erase (Tagged.trim s) = JS.trim (Tagged.erase s).
Proof.
  unfold Tagged.trim, JS.trim. rewrite erase_dropWhileEnd, erase_dropWhile. reflexivity.
Qed.

Lemma erase_split (sep : char) (s : Tagged.tstring) :
  map Tagged.erase (Tagged.split sep s) = JS.split sep (Tagged.erase s).
Proof.
  induction s as [|x s IH]; [reflexivity|].
  cbn [Tagged.split JS.split Tagged.erase map]. fold (Tagged.erase s).
  rewrite <- IH. destruct (N.eqb (Tagged.code x) sep); [reflexivity|].
  destruct (Tagged.split sep s); reflexivity.
Qed.

Lemma erase_join (sep : Tagged.tstring) (parts : list Tagged.tstring) :
  Tagged.erase (Tagged.join sep parts) = JS.join (Tagged.erase sep) (map Tagged.erase parts).
Proof.
  induction parts as [|p parts IH]; [reflexivity|].
  destruct parts as [|q parts]; [reflexivity|].
  change (Tagged.join sep (p :: q :: parts)) with (p ++ sep ++ Tagged.join sep (q :: parts)).
  rewrite !erase_app, IH. reflexivity.
Qed.

Lemma erase_escapeMd (o : Tagged.Origin) (text : jstring) :
  Tagged.erase (Tagged.escapeMd o text) = escapeMd text.
Proof.
  unfold Tagged.escapeMd, escapeMd.
  assert (forall t, Tagged.erase (Tagged.escapeSpecials t) = escapeSpecials (Tagged.erase t)) as H2.
  { induction t as [|x t IH]; [reflexivity|].
    unfold Tagged.escapeSpecials, escapeSpecials in *.
    cbn [flat_map Tagged.erase map]. fold (Tagged.erase t).
    rewrite erase_app, IH. destruct (isMdSpecial (Tagged.code x)); reflexivity. }
  assert (forall t, Tagged.erase (Tagged.doubleBackslashes t) = doubleBackslashes (Tagged.erase t)) as H1.
  { induction t as [|x t IH]; [reflexivity|].
    unfold Tagged.doubleBackslashes, doubleBackslashes in *.
    cbn [flat_map Tagged.erase map]. fold (Tagged.erase t).
    rewrite erase_app, IH. destruct (N.eqb (Tagged.code x) BACKSLASH) eqn:E; [|reflexivity].
    apply N.eqb_eq in E. cbn [Tagged.erase map Tagged.code fst app]. rewrite E. reflexivity. }
  rewrite H2, H1, erase_tag. reflexivity.
Qed.

Lemma erase_squeezeBlanks (s : Tagged.tstring) (inRun : bool) :
  Tagged.erase (Tagged.squeezeBlanks s inRun) = squeezeBlanks (Tagged.erase s) inRun.
Proof.
  revert inRun; induction s as [|x s IH]; intros inRun.
  - destruct inRun; reflexivity.
  - cbn [Tagged.squeezeBlanks squeezeBlanks Tagged.erase map]. fold (Tagged.erase s).
    destruct (isBlank (Tagged.code x)); [apply IH|].
    rewrite erase_app. cbn [Tagged.erase map]. fold (Tagged.erase (Tagged.squeezeBlanks s false)).
    rewrite IH. destruct inRun; reflexivity.
Qed.

Lemma erase_collapseWhitespace (s : Tagged.tstring) :
  Tagged.erase (Tagged.collapseWhitespace s) = collapseWhitespace (Tagged.erase s).
Proof.
  unfold Tagged.collapseWhitespace, collapseWhitespace.
  rewrite erase_squeezeBlanks. f_equal. unfold Tagged.erase. rewrite !map_map.
  apply map_ext. intros x. destruct (N.eqb (Tagged.code x) NBSP); reflexivity.
Qed.

Lemma erase_squeezeNewlines (s : Tagged.tstring) (k : nat) :
  Tagged.erase (Tagged.squeezeNewlines s k) = squeezeNewlines (Tagged.erase s) k.
Proof.
  revert k; induction s as [|x s IH]; intros k.
  - apply erase_tag.
  - cbn [Tagged.squeezeNewlines squeezeNewlines Tagged.erase map]. fold (Tagged.erase s).
    destruct (isNl (Tagged.code x)); [apply IH|].
    rewrite erase_app. unfold Tagged.lit. rewrite erase_tag.
    cbn [Tagged.erase map]. fold (Tagged.erase (Tagged.squeezeNewlines s 0)).
    rewrite IH. reflexivity.
Qed.

Lemma erase_newlinesToSpace (s : Tagged.tstring) (inRun : bool) :
  Tagged.erase (Tagged.newlinesToSpace s inRun) = newlinesToSpace (Tagged.erase s) inRun.
Proof.
  revert inRun; induction s as [|x s IH]; intros inRun.
  - destruct inRun; reflexivity.
  - cbn [Tagged.newlinesToSpace newlinesToSpace Tagged.erase map]. fold (Tagged.erase s).
    destruct (isNl (Tagged.code x)); [apply IH|].
    rewrite erase_app. cbn [Tagged.erase map]. fold (Tagged.erase (Tagged.newlinesToSpace s false)).
    rewrite IH. destruct inRun; reflexivity.
Qed.

Lemma erase_afterLastNewline (w : Tagged.tstring) :
  option_map Tagged.erase (Tagged.afterLastNewline w) = afterLastNewline (Tagged.erase w).
Proof.
  induction w as [|x w IH]; [reflexivity|].
  cbn [Tagged.afterLastNewline afterLastNewline Tagged.erase map]. fold (Tagged.erase w).
  rewrite <- IH. destruct (Tagged.afterLastNewline w); [reflexivity|].
  cbn [option_map]. destruct (isNl (Tagged.code x)); reflexivity.
Qed.

Lemma erase_replaceLeadingBlank (s : Tagged.tstring) :
  Tagged.erase (Tagged.replaceLeadingBlank s) = replaceLeadingBlank (Tagged.erase s).
Proof.
  unfold Tagged.replaceLeadingBlank, replaceLeadingBlank.
  rewrite <- erase_takeWhile.
  destruct (Tagged.takeWhile isSpace s) as [|y w]; [reflexivity|].
  cbn [Tagged.erase map]. fold (Tagged.erase w). rewrite <- erase_afterLastNewline.
  destruct (Tagged.afterLastNewline w) as [after|]; [|reflexivity].
  cbn [option_map]. rewrite !erase_app, erase_dropWhile. reflexivity.
Qed.

Lemma erase_forallb (p : char -> bool) (s : Tagged.tstring) :
  forallb (fun y => p (Tagged.code y)) s = forallb p (Tagged.erase s).
Proof. induction s as [|x s IH]; [reflexivity|]. cbn [forallb Tagged.erase map]. rewrite IH. reflexivity. Qed.

Lemma erase_replaceTrailingBlank (s : Tagged.tstring) :
  Tagged.erase (Tagged.replaceTrailingBlank s) = replaceTrailingBlank (Tagged.erase s).
Proof.
  induction s as [|x s IH]; [reflexivity|].
  cbn [Tagged.replaceTrailingBlank replaceTrailingBlank Tagged.erase map]. fold (Tagged.erase s).
  rewrite erase_forallb, erase_isEmpty.
  destruct (isNl (Tagged.code x) && negb (Tagged.isEmpty s) && forallb isSpace (Tagged.erase s));
    [reflexivity|].
  cbn [Tagged.erase map]. fold (Tagged.erase (Tagged.replaceTrailingBlank s)). rewrite IH. reflexivity.
Qed.

Lemma erase_trimBlankLines (s : Tagged.tstring) :
  Tagged.erase (Tagged.trimBlankLines s) = trimBlankLines (Tagged.erase s).
Proof.
  unfold Tagged.trimBlankLines, trimBlankLines, Tagged.stripNewlines, stripNewlines.
  rewrite erase_dropWhileEnd, erase_dropWhile, erase_replaceTrailingBlank,
    erase_replaceLeadingBlank.
  reflexivity.
Qed.

End ErasureFacts.

(* ================================================================== *)
(** ** The scanners keep the escaping *)
(* ================================================================== *)

Section EscapingFacts.

(** A whitespace character is no part of an escape. *)
Lemma accepts_space (p : bool) (x : Tagged.tchar) :
  Tagged.accepts p x = true -> isSpace (Tagged.code x) = true -> p = false /\ Tagged.next p x = false.
Proof.
  unfold Tagged.accepts, Tagged.next, Tagged.needsEscape, Tagged.isEsc. intros Ha Hs.
  destruct p.
  - destruct (Tagged.origin x); try discriminate;
      apply isEscapable_not_space in Ha; congruence.
  - split; [reflexivity|]. destruct (Tagged.origin x); try reflexivity.
    apply N.eqb_eq in Ha. rewrite Ha in Hs. discriminate Hs.
Qed.

Lemma escOk_cons (x : Tagged.tchar) (r : Tagged.tstring) (p : bool) :
  Tagged.escOk (x :: r) p = true -> Tagged.accepts p x = true /\ Tagged.escOk r (Tagged.next p x) = true.
Proof. cbn [Tagged.escOk]. intros H. apply andb_true_iff in H. exact H. Qed.

Lemma escOk_space (x : Tagged.tchar) (r : Tagged.tstring) (p : bool) :
  Tagged.escOk (x :: r) p = true -> isSpace (Tagged.code x) = true ->
  p = false /\ Tagged.escOk r false = true.
Proof.
  intros H Hs. apply escOk_cons in H as [Ha Hr].
  destruct (accepts_space p x Ha Hs) as [Hp Hn]. rewrite Hn in Hr. split; assumption.
Qed.

Lemma escOk_app (a b : Tagged.tstring) (p : bool) :
  Tagged.escOk a p = true -> Tagged.escOk b false = true -> Tagged.escOk (a ++ b) p = true.
Proof.
  revert p; induction a as [|x a IH]; intros p Ha Hb.
  - destruct p; [discriminate Ha | exact Hb].
  - apply escOk_cons in Ha as [Hx Ha]. cbn [app Tagged.escOk]. rewrite Hx. cbn [andb].
    apply IH; assumption.
Qed.

Lemma escOk_tag (o : Tagged.Origin) (s : jstring) :
  match o with Tagged.Markup | Tagged.Code | Tagged.Raw => True | _ => False end ->
  Tagged.escOk (Tagged.tag o s) false = true.
Proof.
  intros Ho. induction s as [|c s IH]; [reflexivity|].
  cbn [Tagged.tag map Tagged.escOk]. fold (Tagged.tag o s).
  unfold Tagged.accepts, Tagged.next, Tagged.isEsc, Tagged.needsEscape. cbn [Tagged.origin snd Tagged.code fst].
  destruct o; try contradiction; exact IH.
Qed.

Lemma escOk_lit (s : jstring) : Tagged.escOk (Tagged.lit s) false = true.
Proof. apply escOk_tag. exact I. Qed.

Lemma escOk_lit_app (s : jstring) (r : Tagged.tstring) :
  Tagged.escOk r false = true -> Tagged.escOk (Tagged.lit s ++ r) false = true.
Proof. intros H. apply escOk_app; [apply escOk_lit | exact H]. Qed.

Lemma escOk_escapeMd (o : Tagged.Origin) (t : jstring) :
  match o with Tagged.Text | Tagged.Attr => True | _ => False end ->
  Tagged.escOk (Tagged.escapeMd o t) false = true.
Proof.
  intros Ho. unfold Tagged.escapeMd, Tagged.escapeSpecials, Tagged.doubleBackslashes.
  induction t as [|c t IH]; [reflexivity|].
  cbn [Tagged.tag map flat_map]. fold (Tagged.tag o t). rewrite flat_map_app.
  apply escOk_app; [|exact IH].
  cbn [Tagged.code fst]. destruct (N.eqb c BACKSLASH) eqn:E.
  - apply N.eqb_eq in E. subst c. destruct o; try contradiction; reflexivity.
  - cbn [flat_map Tagged.code fst]. rewrite app_nil_r.
    destruct (isMdSpecial c) eqn:Em.
    + cbn [Tagged.escOk]. unfold Tagged.accepts, Tagged.next, Tagged.isEsc, Tagged.needsEscape, isEscapable.
      cbn [Tagged.origin snd Tagged.code fst]. rewrite Em, orb_true_r.
      destruct o; try contradiction; reflexivity.
    + cbn [Tagged.escOk]. unfold Tagged.accepts, Tagged.next, Tagged.isEsc, Tagged.needsEscape, isEscapable.
      cbn [Tagged.origin snd Tagged.code fst]. rewrite Em, E.
      destruct o; try contradiction; reflexivity.
Qed.

Section Whitespace.

(** A class of whitespace characters. *)
Variable q : char -> bool.
Hypothesis q_space : forall c, q c = true -> isSpace c = true.

Lemma escOk_dropWhile (s : Tagged.tstring) (p : bool) :
  Tagged.escOk s p = true -> Tagged.escOk (Tagged.dropWhile q s) p = true.
Proof.
  revert p; induction s as [|x s IH]; intros p H; [exact H|].
  cbn [Tagged.dropWhile]. destruct (q (Tagged.code x)) eqn:E; [|exact H].
  destruct (escOk_space x s p H (q_space _ E)) as [-> Hs]. apply IH, Hs.
Qed.

Lemma escOk_dropWhileEnd (s : Tagged.tstring) (p : bool) :
  Tagged.escOk s p = true -> Tagged.escOk (Tagged.dropWhileEnd q s) p = true.
Proof.
  revert p; induction s as [|x s IH]; intros p H; [exact H|].
  cbn [Tagged.dropWhileEnd].
  pose proof (escOk_cons x s p H) as [Hx Hs]. apply IH in Hs.
  destruct (Tagged.dropWhileEnd q s) as [|y r].
  - destruct (q (Tagged.code x)) eqn:E.
    + destruct (accepts_space p x Hx (q_space _ E)) as [-> _]. reflexivity.
    + cbn [Tagged.escOk]. rewrite Hx. exact Hs.
  - cbn [Tagged.escOk] in *. rewrite Hx. exact Hs.
Qed.

End Whitespace.

Lemma escOk_trim (s : Tagged.tstring) :
  Tagged.escOk s false = true -> Tagged.escOk (Tagged.trim s) false = true.
Proof.
  intros H. unfold Tagged.trim.
  apply escOk_dropWhileEnd; [auto|]. apply escOk_dropWhile; [auto | exact H].
Qed.

Lemma isBlank_isSpace (c : char) : isBlank c = true -> isSpace c = true.
Proof.
  unfold isBlank. intros H.
  repeat (apply orb_true_iff in H as [H | H]); apply N.eqb_eq in H; subst c; reflexivity.
Qed.

Lemma escOk_squeezeBlanks (s : Tagged.tstring) (inRun p : bool) :
  Tagged.escOk s p = true -> (inRun = true -> p = false) ->
  Tagged.escOk (Tagged.squeezeBlanks s inRun) p = true.
Proof.
  revert inRun p; induction s as [|x s IH]; intros inRun p H Hrun.
  - cbn [Tagged.squeezeBlanks]. destruct inRun; [rewrite Hrun; reflexivity | exact H].
  - cbn [Tagged.squeezeBlanks]. destruct (isBlank (Tagged.code x)) eqn:E.
    + destruct (escOk_space x s p H (isBlank_isSpace _ E)) as [-> Hs].
      apply IH; [exact Hs | reflexivity].
    + apply escOk_cons in H as [Hx Hs].
      assert (Tagged.escOk (x :: Tagged.squeezeBlanks s false) p = true) as Hc.
      { cbn [Tagged.escOk]. rewrite Hx. apply IH; [exact Hs | discriminate]. }
      destruct inRun; [|exact Hc]. rewrite (Hrun eq_refl) in *.
      apply escOk_lit_app, Hc.
Qed.

Lemma escOk_nbsp (s : Tagged.tstring) (p : bool) :
  Tagged.escOk s p = true ->
  Tagged.escOk (map (fun x => if N.eqb (Tagged.code x) NBSP then (SP, Tagged.Markup) else x) s) p = true.
Proof.
  revert p; induction s as [|x s IH]; intros p H; [exact H|].
  cbn [map]. destruct (N.eqb (Tagged.code x) NBSP) eqn:E.
  - apply N.eqb_eq in E.
    destruct (escOk_space x s p H) as [-> Hs]; [rewrite E; reflexivity|].
    cbn [Tagged.escOk]. apply IH, Hs.
  - apply escOk_cons in H as [Hx Hs]. cbn [Tagged.escOk]. rewrite Hx. apply IH, Hs.
Qed.

Lemma escOk_collapseWhitespace (s : Tagged.tstring) :
  Tagged.escOk s false = true -> Tagged.escOk (Tagged.collapseWhitespace s) false = true.
Proof.
  intros H. unfold Tagged.collapseWhitespace.
  apply escOk_squeezeBlanks; [apply escOk_nbsp, H | discriminate].
Qed.

Lemma escOk_squeezeNewlines (s : Tagged.tstring) (k : nat) (p : bool) :
  Tagged.escOk s p = true -> (k <> 0 -> p = false) ->
  Tagged.escOk (Tagged.squeezeNewlines s k) p = true.
Proof.
  revert k p; induction s as [|x s IH]; intros k p H Hk.
  - cbn [Tagged.squeezeNewlines]. destruct k as [|k]; [exact H|].
    rewrite Hk by discriminate. apply escOk_lit.
  - cbn [Tagged.squeezeNewlines]. destruct (isNl (Tagged.code x)) eqn:E.
    + destruct (escOk_space x s p H (isNl_isSpace _ E)) as [-> Hs].
      apply IH; [exact Hs | reflexivity].
    + apply escOk_cons in H as [Hx Hs].
      assert (Tagged.escOk (x :: Tagged.squeezeNewlines s 0) p = true) as Hc.
      { cbn [Tagged.escOk]. rewrite Hx. apply IH; [exact Hs | intros F; exfalso; apply F; reflexivity]. }
      destruct k as [|k]; [exact Hc|]. rewrite Hk in * by discriminate.
      apply escOk_lit_app, Hc.
Qed.

Lemma escOk_newlinesToSpace (s : Tagged.tstring) (inRun p : bool) :
  Tagged.escOk s p = true -> (inRun = true -> p = false) ->
  Tagged.escOk (Tagged.newlinesToSpace s inRun) p = true.
Proof.
  revert inRun p; induction s as [|x s IH]; intros inRun p H Hrun.
  - cbn [Tagged.newlinesToSpace]. destruct inRun; [rewrite Hrun; reflexivity | exact H].
  - cbn [Tagged.newlinesToSpace]. destruct (isNl (Tagged.code x)) eqn:E.
    + destruct (escOk_space x s p H (isNl_isSpace _ E)) as [-> Hs].
      apply IH; [exact Hs | reflexivity].
    + apply escOk_cons in H as [Hx Hs].
      assert (Tagged.escOk (x :: Tagged.newlinesToSpace s false) p = true) as Hc.
      { cbn [Tagged.escOk]. rewrite Hx. apply IH; [exact Hs | discriminate]. }
      destruct inRun; [|exact Hc]. rewrite (Hrun eq_refl) in *.
      apply escOk_lit_app, Hc.
Qed.

(** The whitespace a string starts with is well escaped by itself, and so
    is every end of it. *)
Lemma escOk_takeWhile (s : Tagged.tstring) :
  Tagged.escOk s false = true -> Tagged.escOk (Tagged.takeWhile isSpace s) false = true.
Proof.
  induction s as [|x s IH]; intros H; [reflexivity|].
  cbn [Tagged.takeWhile]. destruct (isSpace (Tagged.code x)) eqn:E; [|reflexivity].
  pose proof (escOk_cons x s false H) as [Hx Hs].
  destruct (accepts_space false x Hx E) as [_ Hn]. rewrite Hn in Hs.
  cbn [Tagged.escOk]. rewrite Hx, Hn. apply IH, Hs.
Qed.

Lemma escOk_afterLastNewline (w after : Tagged.tstring) (p : bool) :
  Tagged.escOk w p = true -> Tagged.afterLastNewline w = Some after ->
  Tagged.escOk after false = true.
Proof.
  revert p; induction w as [|x w IH]; intros p H Ha; [discriminate Ha|].
  cbn [Tagged.afterLastNewline] in Ha.
  pose proof (escOk_cons x w p H) as [Hx Hw].
  destruct (Tagged.afterLastNewline w) as [t|] eqn:Et.
  - injection Ha as <-. apply (IH _ Hw eq_refl).
  - destruct (isNl (Tagged.code x)) eqn:E; [|discriminate Ha]. injection Ha as <-.
    destruct (accepts_space p x Hx (isNl_isSpace _ E)) as [_ Hn].
    rewrite Hn in Hw. exact Hw.
Qed.

Lemma escOk_replaceLeadingBlank (s : Tagged.tstring) :
  Tagged.escOk s false = true -> Tagged.escOk (Tagged.replaceLeadingBlank s) false = true.
Proof.
  intros H. unfold Tagged.replaceLeadingBlank.
  pose proof (escOk_takeWhile s H) as Ht.
  destruct (Tagged.takeWhile isSpace s) as [|y w]; [exact H|].
  destruct (Tagged.afterLastNewline w) as [after|] eqn:Ea; [|exact H].
  apply escOk_cons in Ht as [_ Hw].
  apply escOk_lit_app. apply escOk_app.
  - apply (escOk_afterLastNewline w after _ Hw Ea).
  - apply escOk_dropWhile; [auto | exact H].
Qed.

Lemma escOk_replaceTrailingBlank (s : Tagged.tstring) (p : bool) :
  Tagged.escOk s p = true -> Tagged.escOk (Tagged.replaceTrailingBlank s) p = true.
Proof.
  revert p; induction s as [|x s IH]; intros p H; [exact H|].
  cbn [Tagged.replaceTrailingBlank].
  destruct (isNl (Tagged.code x) && negb (Tagged.isEmpty s)
            && forallb (fun y => isSpace (Tagged.code y)) s) eqn:E.
  - apply andb_true_iff in E as [E _]. apply andb_true_iff in E as [E _].
    destruct (escOk_space x s p H (isNl_isSpace _ E)) as [-> _]. reflexivity.
  - apply escOk_cons in H as [Hx Hs]. cbn [Tagged.escOk]. rewrite Hx. apply IH, Hs.
Qed.

Lemma escOk_trimBlankLines (s : Tagged.tstring) :
  Tagged.escOk s false = true -> Tagged.escOk (Tagged.trimBlankLines s) false = true.
Proof.
  intros H. unfold Tagged.trimBlankLines, Tagged.stripNewlines.
  apply escOk_dropWhileEnd; [apply isNl_isSpace|].
  apply escOk_dropWhile; [apply isNl_isSpace|].
  apply escOk_replaceTrailingBlank, escOk_replaceLeadingBlank, H.
Qed.

Lemma split_not_empty (s : Tagged.tstring) : Tagged.split NL s <> [].
Proof.
  induction s as [|x s IH]; [discriminate|].
  cbn [Tagged.split]. destruct (N.eqb (Tagged.code x) NL); [discriminate|].
  destruct (Tagged.split NL s); discriminate.
Qed.

(** The lines of a well escaped string are well escaped. *)
Lemma escOk_split (s : Tagged.tstring) (p : bool) :
  Tagged.escOk s p = true ->
  Tagged.escOk (hd [] (Tagged.split NL s)) p = true
  /\ Forall (fun l => Tagged.escOk l false = true) (tl (Tagged.split NL s)).
Proof.
  revert p; induction s as [|x s IH]; intros p H.
  - split; [exact H | constructor].
  - cbn [Tagged.split]. destruct (N.eqb (Tagged.code x) NL) eqn:E.
    + destruct (escOk_space x s p H) as [-> Hs].
      { apply N.eqb_eq in E. rewrite E. reflexivity. }
      destruct (IH false Hs) as [Hh Ht]. split; [reflexivity|].
      cbn [tl]. pose proof (split_not_empty s) as Hne.
      destruct (Tagged.split NL s) as [|h t]; [congruence|].
      constructor; assumption.
    + apply escOk_cons in H as [Hx Hs]. destruct (IH _ Hs) as [Hh Ht].
      pose proof (split_not_empty s) as Hne.
      destruct (Tagged.split NL s) as [|h t]; [congruence|].
      cbn [hd tl] in *. split; [|exact Ht]. cbn [Tagged.escOk]. rewrite Hx. exact Hh.
Qed.

Lemma escOk_join (sep : Tagged.tstring) (parts : list Tagged.tstring) :
  Tagged.escOk sep false = true ->
  Forall (fun l => Tagged.escOk l false = true) parts ->
  Tagged.escOk (Tagged.join sep parts) false = true.
Proof.
  intros Hsep Hall. induction Hall as [|p parts Hp Hparts IH]; [reflexivity|].
  destruct parts as [|q parts]; [exact Hp|].
  change (Tagged.join sep (p :: q :: parts)) with (p ++ sep ++ Tagged.join sep (q :: parts)).
  apply escOk_app; [exact Hp|]. apply escOk_app; [exact Hsep | exact IH].
Qed.

(** What being well escaped says of the places of a string: a character
    to escape stands right after an escaping backslash, and an escaping
    backslash right before a character to escape. *)
Lemma escOk_escaped (a b : Tagged.tstring) (x : Tagged.tchar) (p : bool) :
  Tagged.escOk (a ++ x :: b) p = true -> Tagged.needsEscape x = true ->
  (a = [] /\ p = true) \/ exists a', a = a' ++ [(BACKSLASH, Tagged.Esc)].
Proof.
  revert p; induction a as [|y a IH]; intros p H Hx.
  - left. split; [reflexivity|]. cbn [app] in H. apply escOk_cons in H as [Ha _].
    unfold Tagged.accepts in Ha. destruct p; [reflexivity|].
    unfold Tagged.needsEscape, Tagged.isEsc in *. destruct (Tagged.origin x); try discriminate;
      rewrite Hx in Ha; discriminate Ha.
  - right. cbn [app] in H. apply escOk_cons in H as [Hy H].
    destruct (IH _ H Hx) as [[-> Hn] | [a' ->]].
    + exists []. cbn [app]. f_equal. unfold Tagged.next in Hn.
      apply andb_true_iff in Hn as [Hp Hesc]. destruct p; [discriminate Hp|].
      unfold Tagged.accepts in Hy. rewrite Hesc in Hy. apply N.eqb_eq in Hy.
      destruct y as [c o]. unfold Tagged.isEsc in Hesc. cbn [Tagged.origin snd Tagged.code fst] in *.
      subst c. destruct o; try discriminate. reflexivity.
    + exists (y :: a'). reflexivity.
Qed.

Lemma escOk_backslash (a b : Tagged.tstring) (e : Tagged.tchar) (p : bool) :
  Tagged.escOk (a ++ e :: b) p = true -> Tagged.isEsc e = true ->
  Tagged.code e = BACKSLASH /\ exists x b', b = x :: b' /\ Tagged.needsEscape x = true.
Proof.
  revert p; induction a as [|y a IH]; intros p H He.
  - cbn [app] in H. apply escOk_cons in H as [Ha Hb].
    unfold Tagged.accepts in Ha. destruct p.
    + unfold Tagged.needsEscape, Tagged.isEsc in *. destruct (Tagged.origin e); discriminate.
    + rewrite He in Ha. apply N.eqb_eq in Ha. split; [exact Ha|].
      unfold Tagged.next in Hb. rewrite He in Hb. cbn [negb andb] in Hb.
      destruct b as [|x b']; [discriminate Hb|].
      apply escOk_cons in Hb as [Hx _]. exists x, b'. split; [reflexivity | exact Hx].
  - cbn [app] in H. apply escOk_cons in H as [_ H]. apply (IH _ H He).
Qed.

End EscapingFacts.

(* ================================================================== *)
(** ** The tagged renderer is the renderer, and it escapes well *)
(* ================================================================== *)

Section StandsFacts.

Lemma stands_nil : Tagged.stands [] [].
Proof. split; reflexivity. Qed.

Lemma stands_app (a b : Tagged.tstring) (a' b' : jstring) :
  Tagged.stands a a' -> Tagged.stands b b' -> Tagged.stands (a ++ b) (a' ++ b').
Proof.
  intros [Ea Ha] [Eb Hb]. split.
  - rewrite erase_app, Ea, Eb. reflexivity.
  - apply escOk_app; assumption.
Qed.

Lemma stands_lit (s : jstring) : Tagged.stands (Tagged.lit s) s.
Proof. split; [apply erase_tag | apply escOk_lit]. Qed.

Lemma stands_code (s : jstring) : Tagged.stands (Tagged.tag Tagged.Code s) s.
Proof. split; [apply erase_tag | apply escOk_tag; exact I]. Qed.

Lemma stands_raw (s : jstring) : Tagged.stands (Tagged.tag Tagged.Raw s) s.
Proof. split; [apply erase_tag | apply escOk_tag; exact I]. Qed.

Lemma stands_escapeMd_text (s : jstring) : Tagged.stands (Tagged.escapeMd Tagged.Text s) (escapeMd s).
Proof. split; [apply erase_escapeMd | apply escOk_escapeMd; exact I]. Qed.

Lemma stands_escapeMd_attr (s : jstring) : Tagged.stands (Tagged.escapeMd Tagged.Attr s) (escapeMd s).
Proof. split; [apply erase_escapeMd | apply escOk_escapeMd; exact I]. Qed.

Lemma stands_isEmpty (t : Tagged.tstring) (s : jstring) :
  Tagged.stands t s -> Tagged.isEmpty t = JS.isEmpty s.
Proof. intros [<- _]. symmetry. apply erase_isEmpty. Qed.

Lemma stands_trimBlankLines (t : Tagged.tstring) (s : jstring) :
  Tagged.stands t s -> Tagged.stands (Tagged.trimBlankLines t) (trimBlankLines s).
Proof.
  intros [<- H]. split; [apply erase_trimBlankLines | apply escOk_trimBlankLines, H].
Qed.

Lemma stands_trim (t : Tagged.tstring) (s : jstring) :
  Tagged.stands t s -> Tagged.stands (Tagged.trim t) (JS.trim s).
Proof. intros [<- H]. split; [apply erase_trim | apply escOk_trim, H]. Qed.

Lemma stands_squeezeNewlines (t : Tagged.tstring) (s : jstring) :
  Tagged.stands t s -> Tagged.stands (Tagged.squeezeNewlines t 0) (squeezeNewlines s 0).
Proof.
  intros [<- H]. split; [apply erase_squeezeNewlines|].
  apply escOk_squeezeNewlines; [exact H | intros F; exfalso; apply F; reflexivity].
Qed.

Lemma stands_collapseWhitespace (t : Tagged.tstring) (s : jstring) :
  Tagged.stands t s -> Tagged.stands (Tagged.collapseWhitespace t) (collapseWhitespace s).
Proof.
  intros [<- H]. split; [apply erase_collapseWhitespace | apply escOk_collapseWhitespace, H].
Qed.

Lemma stands_newlinesToSpace (t : Tagged.tstring) (s : jstring) :
  Tagged.stands t s -> Tagged.stands (Tagged.newlinesToSpace t false) (newlinesToSpace s false).
Proof.
  intros [<- H]. split; [apply erase_newlinesToSpace|].
  apply escOk_newlinesToSpace; [exact H | discriminate].
Qed.

Lemma stands_split (t : Tagged.tstring) (s : jstring) :
  Tagged.stands t s -> Forall2 Tagged.stands (Tagged.split NL t) (JS.split NL s).
Proof.
  intros [<- H]. rewrite <- erase_split.
  destruct (escOk_split t false H) as [Hh Ht].
  pose proof (split_not_empty t) as Hne.
  destruct (Tagged.split NL t) as [|h l]; [congruence|]. cbn [hd tl] in *.
  assert (Forall (fun l => Tagged.escOk l false = true) (h :: l)) as Hall
      by (constructor; assumption).
  clear Hh Ht Hne. induction Hall as [|x xs Hx Hxs IH]; cbn [map]; constructor.
  - split; [reflexivity | exact Hx].
  - exact IH.
Qed.

Lemma stands_join (tsep : Tagged.tstring) (sep : jstring) (tparts : list Tagged.tstring)
      (parts : list jstring) :
  Tagged.stands tsep sep -> Forall2 Tagged.stands tparts parts ->
  Tagged.stands (Tagged.join tsep tparts) (JS.join sep parts).
Proof.
  intros Hsep Hall. induction Hall as [|p p' tparts parts Hp Hparts IH]; [apply stands_nil|].
  destruct Hparts as [|q q' tparts parts Hq Hparts]; [exact Hp|].
  change (Tagged.join tsep (p :: q :: tparts))
    with (p ++ tsep ++ Tagged.join tsep (q :: tparts)).
  change (JS.join sep (p' :: q' :: parts)) with (p' ++ sep ++ JS.join sep (q' :: parts)).
  apply stands_app; [exact Hp|]. apply stands_app; [exact Hsep | exact IH].
Qed.

Lemma Forall2_hd {A B} (R : A -> B -> Prop) (a : A) (b : B) (xs : list A) (ys : list B) :
  R a b -> Forall2 R xs ys -> R (hd a xs) (hd b ys).
Proof. intros Hab H. destruct H; assumption. Qed.

Lemma Forall2_tl {A B} (R : A -> B -> Prop) (xs : list A) (ys : list B) :
  Forall2 R xs ys -> Forall2 R (tl xs) (tl ys).
Proof. intros H. destruct H; [constructor | assumption]. Qed.

Lemma Forall2_map {A B C D} (R : A -> B -> Prop) (R' : C -> D -> Prop)
      (f : A -> C) (g : B -> D) (xs : list A) (ys : list B) :
  (forall x y, R x y -> R' (f x) (g y)) ->
  Forall2 R xs ys -> Forall2 R' (map f xs) (map g ys).
Proof. intros Hfg H. induction H; cbn [map]; constructor; auto. Qed.

Lemma stands_rowLine (tcols : list Tagged.tstring) (cols : list jstring) :
  Forall2 Tagged.stands tcols cols -> Tagged.stands (Tagged.rowLine tcols) (rowLine cols).
Proof.
  intros H. unfold Tagged.rowLine, rowLine.
  apply stands_app; [apply stands_lit|]. apply stands_app; [|apply stands_lit].
  apply stands_join; [apply stands_lit | exact H].
Qed.

Lemma stands_titleSuffix (title : option jstring) :
  Tagged.stands (Tagged.titleSuffix title) (titleSuffix title).
Proof.
  unfold Tagged.titleSuffix, titleSuffix. destruct title as [t|]; [|apply stands_nil].
  destruct (JS.isEmpty t); [apply stands_nil|].
  change (SP :: QUOTE :: escapeMd t ++ [QUOTE]) with ([SP; QUOTE] ++ escapeMd t ++ [QUOTE]).
  apply stands_app; [apply stands_lit|].
  apply stands_app; [apply stands_escapeMd_attr | apply stands_lit].
Qed.

Lemma stands_codeFence (text : jstring) (lang : option jstring) :
  Tagged.stands (Tagged.codeFence text lang) (codeFence text lang).
Proof.
  unfold Tagged.codeFence, codeFence. cbv zeta.
  apply stands_app; [apply stands_lit|].
  apply stands_app.
  { destruct (JS.isEmpty _); [apply stands_nil|].
    apply (stands_app (Tagged.lit [SP]) _ [SP] _); [apply stands_lit | apply stands_raw]. }
  apply stands_app; [apply stands_lit|].
  apply stands_app; [apply stands_code|].
  apply stands_app; apply stands_lit.
Qed.

(** Computations that run alike. *)
Lemma alike_ret {X Y} (R : X -> Y -> Prop) (x : X) (y : Y) :
  R x y -> Tagged.alike R (ret x) (ret y).
Proof. intros H st. split; [exact H | reflexivity]. Qed.

Lemma alike_bind {X Y X' Y'} (R : X -> Y -> Prop) (R' : X' -> Y' -> Prop)
      (tc : M X) (c : M Y) (tk : X -> M X') (k : Y -> M Y') :
  Tagged.alike R tc c -> (forall x y, R x y -> Tagged.alike R' (tk x) (k y)) ->
  Tagged.alike R' (bind tc tk) (bind c k).
Proof.
  intros Hc Hk st. unfold bind. specialize (Hc st).
  destruct (tc st) as [[x s1]|], (c st) as [[y s2]|]; try contradiction; [|exact I].
  destruct Hc as [Hxy ->]. apply (Hk x y Hxy s2).
Qed.

Lemma alike_same {X} (c : M X) : Tagged.alike eq c c.
Proof. intros st. destruct (c st) as [[x s]|]; [split; reflexivity | exact I]. Qed.

Lemma alike_forOf {A X Y} (R : X -> Y -> Prop) (xs : list A)
      (tbody : X -> A -> M X) (body : Y -> A -> M Y) :
  (forall x y a, R x y -> Tagged.alike R (tbody x a) (body y a)) ->
  forall x y, R x y -> Tagged.alike R (forOf xs tbody x) (forOf xs body y).
Proof.
  intros Hbody. induction xs as [|a xs IH]; intros x y Hxy; cbn [forOf].
  - apply alike_ret, Hxy.
  - apply (alike_bind R R); [apply Hbody, Hxy | exact IH].
Qed.

Lemma alike_mapM {A X Y} (R : X -> Y -> Prop) (xs : list A)
      (tf : A -> M X) (f : A -> M Y) :
  (forall a, Tagged.alike R (tf a) (f a)) ->
  Tagged.alike (Forall2 R) (mapM tf xs) (mapM f xs).
Proof.
  intros Hf. induction xs as [|a xs IH]; cbn [mapM].
  - apply alike_ret. constructor.
  - apply (alike_bind R (Forall2 R)); [apply Hf|]. intros x y Hxy.
    apply (alike_bind (Forall2 R) (Forall2 R)); [exact IH|]. intros l l' Hl.
    apply alike_ret. constructor; assumption.
Qed.

End StandsFacts.

Section TaggedRenderer.

Variable toLowerCase : jstring -> jstring.
Variable resolveUrl : jstring -> jstring -> option jstring.

Section OpenFacts.

Variable trender : Node -> Ctx -> M Tagged.tstring.
Variable render : Node -> Ctx -> M jstring.
Hypothesis render_alike : forall n ctx, Tagged.alike Tagged.stands (trender n ctx) (render n ctx).

Lemma renderInlineChildren_alike (el : Node) (ctx : Ctx) :
  Tagged.alike Tagged.stands (Tagged.renderInlineChildren trender el ctx)
        (renderInlineChildren render el ctx).
Proof.
  unfold Tagged.renderInlineChildren, renderInlineChildren.
  apply alike_forOf; [|apply stands_nil].
  intros x y a Hxy. apply (alike_bind Tagged.stands Tagged.stands); [apply render_alike|].
  intros m m' Hm. apply alike_ret, stands_app; assumption.
Qed.

Lemma renderListItem_alike (li : Node) (ctx : Ctx) :
  Tagged.alike Tagged.stands (Tagged.renderListItem trender li ctx) (renderListItem render li ctx).
Proof.
  unfold Tagged.renderListItem, renderListItem.
  apply (alike_bind (Forall2 Tagged.stands) Tagged.stands).
  - apply alike_forOf; [|constructor].
    intros x y a Hxy. apply (alike_bind Tagged.stands (Forall2 Tagged.stands)); [apply render_alike|].
    intros m m' Hm. rewrite (stands_isEmpty _ _ Hm).
    destruct (JS.isEmpty m'); apply alike_ret; [exact Hxy|].
    apply Forall2_app; [exact Hxy | constructor; [exact Hm | constructor]].
  - intros parts parts' Hparts. apply alike_ret, stands_squeezeNewlines.
    apply stands_join; [apply stands_lit | exact Hparts].
Qed.

Lemma renderList_alike (el : Node) (ctx : Ctx) (ordered : bool) :
  Tagged.alike Tagged.stands (Tagged.renderList trender el ctx ordered) (renderList render el ctx ordered).
Proof.
  unfold Tagged.renderList, renderList.
  apply (alike_bind eq Tagged.stands); [apply alike_same|]. intros counters ? <-.
  apply (alike_bind (Forall2 Tagged.stands) Tagged.stands).
  - apply alike_forOf; [|constructor].
    intros out out' li Hout.
    apply (alike_bind eq (Forall2 Tagged.stands)); [apply alike_same|]. intros prev ? <-.
    apply (alike_bind eq (Forall2 Tagged.stands)); [apply alike_same|]. intros u ? <-.
    apply (alike_bind Tagged.stands (Forall2 Tagged.stands)); [apply renderListItem_alike|].
    intros md md' Hmd. apply alike_ret.
    apply Forall2_app; [exact Hout|]. constructor; [|constructor].
    pose proof (stands_split _ _ (stands_trimBlankLines _ _ Hmd)) as Hlines.
    apply stands_join; [apply stands_lit|]. constructor.
    + apply stands_app; [apply stands_lit|]. apply stands_app; [apply stands_lit|].
      apply Forall2_hd; [apply stands_nil | exact Hlines].
    + apply (Forall2_map Tagged.stands Tagged.stands); [|apply Forall2_tl, Hlines].
      intros l l' Hl. apply stands_app; [apply stands_lit|].
      apply stands_app; [apply stands_lit | exact Hl].
  - intros out out' Hout. apply alike_ret.
    apply stands_join; [apply stands_lit | exact Hout].
Qed.

Lemma cellText_alike (td : Node) (ctx : Ctx) :
  Tagged.alike Tagged.stands (Tagged.cellText trender td ctx) (cellText render td ctx).
Proof.
  unfold Tagged.cellText, cellText.
  apply (alike_bind Tagged.stands Tagged.stands); [apply renderInlineChildren_alike|].
  intros inner inner' Hinner. apply alike_ret.
  apply stands_trim, stands_newlinesToSpace, stands_collapseWhitespace,
    stands_trimBlankLines, Hinner.
Qed.

Lemma tableGrid_alike (table : Node) (ctx : Ctx) :
  Tagged.alike Tagged.gridsAgree (Tagged.tableGrid trender table ctx) (tableGrid render table ctx).
Proof.
  unfold Tagged.tableGrid, tableGrid.
  apply alike_forOf; [|split; [constructor | exact I]].
  intros [tgrid thc] [grid hc] tr [Hgrid Hhc]. cbn [fst snd] in Hgrid, Hhc.
  apply (alike_bind (Forall2 Tagged.stands) Tagged.gridsAgree).
  - apply alike_mapM. intros td. apply cellText_alike.
  - intros texts texts' Htexts. apply alike_ret. split; cbn [fst snd].
    + apply Forall2_app; [exact Hgrid | constructor; [exact Htexts | constructor]].
    + destruct thc as [th|], hc as [h|]; try contradiction; [exact Hhc|].
      destruct (existsb (hasTag "TH") (filter isCell (childrenOf tr))); [exact Htexts | exact I].
Qed.

Lemma renderTable_alike (table : Node) (ctx : Ctx) :
  Tagged.alike Tagged.stands (Tagged.renderTable trender table ctx) (renderTable render table ctx).
Proof.
  unfold Tagged.renderTable, renderTable.
  apply (alike_bind Tagged.gridsAgree Tagged.stands); [apply tableGrid_alike|].
  intros [tgrid thc] [grid hc] [Hgrid Hhc]. cbn [fst snd] in Hgrid, Hhc.
  assert (Forall2 Tagged.stands (Tagged.tableHead tgrid thc) (tableHead grid hc)) as Hhead.
  { unfold Tagged.tableHead, tableHead.
    destruct thc as [th|], hc as [h|]; try contradiction; [exact Hhc|].
    apply Forall2_hd; [constructor | exact Hgrid]. }
  assert (Forall2 (Forall2 Tagged.stands) (Tagged.tableBody tgrid thc) (tableBody grid hc)) as Hbody.
  { unfold Tagged.tableBody, tableBody.
    destruct thc as [th|], hc as [h|]; try contradiction; [exact Hgrid|].
    apply Forall2_tl, Hgrid. }
  destruct Hhead as [|c c' thead head Hc Hhead]; [apply alike_ret, stands_nil|].
  apply alike_ret. apply stands_join; [apply stands_lit|].
  unfold Tagged.tableLines, tableLines.
  apply Forall2_app; [|apply Forall2_app].
  - constructor; [|constructor]. apply stands_rowLine. constructor; assumption.
  - constructor; [|constructor]. apply stands_rowLine.
    apply (Forall2_map Tagged.stands Tagged.stands); [|constructor; eassumption].
    intros; apply stands_lit.
  - apply (Forall2_map (Forall2 Tagged.stands) Tagged.stands); [|exact Hbody].
    intros; apply stands_rowLine; assumption.
Qed.

Lemma stands_emphasize (el : Node) (t : Tagged.tstring) (s : jstring) :
  Tagged.stands t s ->
  Tagged.stands (Tagged.emphasize toLowerCase el t) (emphasize toLowerCase el s).
Proof.
  intros H. unfold Tagged.emphasize, emphasize.
  destruct (isBoldLike toLowerCase el), (isItalicLike toLowerCase el),
    (isStrikeLike toLowerCase el);
    repeat first [exact H | apply stands_lit | apply stands_app].
Qed.

Lemma renderElement_alike (el : Node) (ctx : Ctx) :
  Tagged.alike Tagged.stands (Tagged.renderElement toLowerCase resolveUrl trender el ctx)
        (renderElement toLowerCase resolveUrl render el ctx).
Proof.
  unfold Tagged.renderElement, renderElement.
  destruct (isIgnoredTag (tagNameOf el)); [apply alike_ret, stands_nil|].
  destruct (eqs (tagNameOf el) (str "BR")); [apply alike_ret, stands_lit|].
  destruct (eqs (tagNameOf el) (str "HR")); [apply alike_ret, stands_lit|].
  destruct (eqs (tagNameOf el) (str "IMG")).
  { apply alike_ret.
    repeat first [apply stands_lit | apply stands_escapeMd_attr | apply stands_raw
                  | apply stands_titleSuffix | apply stands_app]. }
  destruct (eqs (tagNameOf el) (str "A")).
  { apply (alike_bind Tagged.stands Tagged.stands); [apply renderInlineChildren_alike|].
    intros inner inner' Hinner. apply alike_ret.
    apply stands_trimBlankLines in Hinner.
    assert (Tagged.stands (Tagged.orElse (Tagged.trimBlankLines inner)
                      (Tagged.tag Tagged.Raw (getAttrOrEmpty el "href")))
                   (JS.orElse (trimBlankLines inner') (getAttrOrEmpty el "href"))) as Htext.
    { unfold Tagged.orElse, JS.orElse. rewrite (stands_isEmpty _ _ Hinner).
      destruct (JS.isEmpty (trimBlankLines inner')); [apply stands_raw | exact Hinner]. }
    repeat first [exact Htext | apply stands_lit | apply stands_raw
                  | apply stands_titleSuffix | apply stands_app]. }
  destruct (eqs (tagNameOf el) (str "CODE")).
  { apply alike_ret.
    repeat first [apply stands_lit | apply stands_code | apply stands_app]. }
  destruct (eqs (tagNameOf el) (str "PRE")).
  { apply alike_ret.
    repeat first [apply stands_lit | apply stands_codeFence | apply stands_app]. }
  destruct (headingLevel (tagNameOf el)) as [level|].
  { apply (alike_bind Tagged.stands Tagged.stands); [apply renderInlineChildren_alike|].
    intros inner inner' Hinner. apply alike_ret.
    apply stands_trimBlankLines in Hinner.
    repeat first [exact Hinner | apply stands_lit | apply stands_app]. }
  destruct (eqs (tagNameOf el) (str "BLOCKQUOTE")).
  { apply (alike_bind Tagged.stands Tagged.stands); [apply renderInlineChildren_alike|].
    intros inner inner' Hinner. apply alike_ret.
    apply stands_trimBlankLines, stands_split in Hinner.
    apply stands_app; [apply stands_lit|]. apply stands_app; [|apply stands_lit].
    apply stands_join; [apply stands_lit|].
    apply (Forall2_map Tagged.stands Tagged.stands); [|exact Hinner].
    intros l l' Hl. apply stands_app; [apply stands_lit | exact Hl]. }
  destruct (eqs (tagNameOf el) (str "UL")).
  { apply (alike_bind Tagged.stands Tagged.stands); [apply renderList_alike|].
    intros l l' Hl. apply alike_ret.
    repeat first [exact Hl | apply stands_lit | apply stands_app]. }
  destruct (eqs (tagNameOf el) (str "OL")).
  { apply (alike_bind Tagged.stands Tagged.stands); [apply renderList_alike|].
    intros l l' Hl. apply alike_ret.
    repeat first [exact Hl | apply stands_lit | apply stands_app]. }
  destruct (eqs (tagNameOf el) (str "TABLE")).
  { apply (alike_bind Tagged.stands Tagged.stands); [apply renderTable_alike|].
    intros l l' Hl. apply alike_ret.
    repeat first [exact Hl | apply stands_lit | apply stands_app]. }
  destruct (isBoldLike toLowerCase el || isItalicLike toLowerCase el
            || isStrikeLike toLowerCase el).
  { apply (alike_bind Tagged.stands Tagged.stands); [apply renderInlineChildren_alike|].
    intros c c' Hc. apply alike_ret, stands_emphasize, Hc. }
  destruct (isBlock el); [|apply renderInlineChildren_alike].
  apply (alike_bind Tagged.stands Tagged.stands); [apply renderInlineChildren_alike|].
  intros inner inner' Hinner. apply stands_trimBlankLines in Hinner.
  rewrite (stands_isEmpty _ _ Hinner).
  destruct (JS.isEmpty (trimBlankLines inner')); apply alike_ret; [apply stands_nil|].
  repeat first [exact Hinner | apply stands_lit | apply stands_app].
Qed.

Lemma renderNodeBody_alike (node : Node) (ctx : Ctx) :
  Tagged.alike Tagged.stands (Tagged.renderNodeBody toLowerCase resolveUrl trender node ctx)
        (renderNodeBody toLowerCase resolveUrl render node ctx).
Proof.
  destruct node as [v | t ln a ch | k]; cbn [Tagged.renderNodeBody renderNodeBody].
  - apply alike_ret, stands_escapeMd_text.
  - apply renderElement_alike.
  - apply alike_ret, stands_nil.
Qed.

End OpenFacts.

(** Dropping the origins of the tagged rendering gives the rendering, and
    the tagged rendering is well escaped; the two return together. *)
Lemma renderNode_alike (fuel : nat) (node : Node) (ctx : Ctx) :
  Tagged.alike Tagged.stands (Tagged.renderNode toLowerCase resolveUrl fuel node ctx)
        (renderNode toLowerCase resolveUrl fuel node ctx).
Proof.
  revert node ctx; induction fuel as [|fuel IH]; intros node ctx.
  - intros st. exact I.
  - cbn [Tagged.renderNode renderNode]. apply renderNodeBody_alike. exact IH.
Qed.

Variable parseFromString : jstring -> Document.

Lemma stands_finish (t : Tagged.tstring) (s : jstring) :
  Tagged.stands t s -> Tagged.stands (Tagged.finish t) (finish s).
Proof.
  intros H. unfold Tagged.finish, finish, Tagged.normalizeLines, normalizeLines.
  apply stands_app; [|apply stands_lit].
  apply stands_trim, stands_squeezeNewlines, stands_trimBlankLines, H.
Qed.

Lemma htmlToMarkdown_alike (fuel : nat) (html : jstring) (opts : Opts) :
  match Tagged.htmlToMarkdown toLowerCase resolveUrl parseFromString fuel html opts,
        htmlToMarkdown toLowerCase resolveUrl parseFromString fuel html opts with
  | Some t, Some s => Tagged.stands t s
  | None, None => True
  | _, _ => False
  end.
Proof.
  unfold Tagged.htmlToMarkdown, htmlToMarkdown.
  destruct (JS.isEmpty html || JS.isEmpty (JS.trim html)); [apply stands_nil|].
  destruct (getElementById (parseFromString (wrapHtml html)) "__root__") as [root|];
    [|apply stands_nil].
  assert (Tagged.alike Tagged.stands
            (ctx <- initialCtx opts ;;
             forOf (childNodesOf root)
                   (fun out child =>
                      md <- Tagged.renderNode toLowerCase resolveUrl fuel child ctx ;;
                      ret (out ++ md)) [])
            (ctx <- initialCtx opts ;;
             forOf (childNodesOf root)
                   (fun out child =>
                      md <- renderNode toLowerCase resolveUrl fuel child ctx ;;
                      ret (out ++ md)) [])) as Hrun.
  { apply (alike_bind eq Tagged.stands); [apply alike_same|]. intros ctx ? <-.
    apply alike_forOf; [|apply stands_nil].
    intros x y a Hxy. apply (alike_bind Tagged.stands Tagged.stands); [apply renderNode_alike|].
    intros m m' Hm. apply alike_ret, stands_app; assumption. }
  specialize (Hrun []).
  match type of Hrun with
  | match ?a with _ => _ end => destruct a as [[t s1]|]
  end;
    match type of Hrun with
    | match ?b with _ => _ end => destruct b as [[s s2]|]
    end; try contradiction; [|exact I].
  destruct Hrun as [Hts _]. apply stands_finish, Hts.
Qed.

End TaggedRenderer.

(* ================================================================== *)
(** ** The further properties on the samples *)
(* ================================================================== *)

(** X11 on the nested list. *)
Lemma renderNode_keeps_arrays_witness :
  exists out st',
    renderNode asciiLower Samples.resolveSample 5 MoreSamples.nestedListNode
               Samples.ctx0 Samples.store0 = Some (out, st')
    /\ List.length Samples.store0 <= List.length st'
    /\ forall r, r < List.length Samples.store0 -> nth r st' [] = nth r Samples.store0 [].
Proof.
  apply (renderNode_keeps_arrays asciiLower Samples.resolveSample 5
           MoreSamples.nestedListNode Samples.ctx0 Samples.store0).
  vm_compute. lia.
Defined.

(** X12 on a quote of two lines. *)
Lemma blockquote_prefixes_every_line_witness :
  exists quoted,
    renderNode asciiLower Samples.resolveSample 2 MoreSamples.quoteNode
               Samples.ctx0 Samples.store0
    = Some ([NL; NL] ++ quoted ++ [NL; NL], Samples.store0)
    /\ split NL quoted
       = map (fun l => str "> " ++ l) (split NL (trimBlankLines (str "a" ++ [NL] ++ str "b"))).
Proof.
  apply (blockquote_prefixes_every_line asciiLower Samples.resolveSample 1
           MoreSamples.quoteNode Samples.ctx0 Samples.store0
           (str "a" ++ [NL] ++ str "b") Samples.store0); reflexivity.
Defined.

(** X13 on the nested list. *)
Lemma list_lines_are_indented_witness :
  exists contents out st',
    renderList (renderNode asciiLower Samples.resolveSample 4) MoreSamples.nestedListNode
               Samples.ctx0 false Samples.store0 = Some (out, st')
    /\ List.length contents
       = List.length (filter (hasTag "LI") (childrenOf MoreSamples.nestedListNode))
    /\ (contents = [] -> out = [])
    /\ (contents <> [] ->
        split NL out
        = flat_map (fun '(n, c) => itemLines 0 (bulletOf false n) c)
                   (combine (seq 1 (List.length contents)) contents)
        /\ Forall (fun l => startsWith (repeat (str "  ") 0) l = true) (split NL out)).
Proof.
  apply (list_lines_are_indented asciiLower Samples.resolveSample 4
           MoreSamples.nestedListNode Samples.ctx0 false Samples.store0).
  vm_compute. lia.
Defined.


(** X15 on the table with a header row. *)
Lemma table_header_row_witness :
  exists grid headerCells st',
    tableGrid (renderNode asciiLower Samples.resolveSample 4) MoreSamples.headedTableNode
              Samples.ctx0 Samples.store0 = Some ((grid, headerCells), st')
    /\ List.length grid = List.length (tableRows MoreSamples.headedTableNode)
    /\ (existsb rowHasTh (tableRows MoreSamples.headedTableNode) = true ->
        exists before tr after,
          tableRows MoreSamples.headedTableNode = before ++ tr :: after
          /\ existsb rowHasTh before = false
          /\ rowHasTh tr = true
          /\ tableHead grid headerCells = nth (List.length before) grid []
          /\ List.length (tableHead grid headerCells)
             = List.length (filter isCell (childrenOf tr))
          /\ tableHead grid headerCells <> [])
    /\ (existsb rowHasTh (tableRows MoreSamples.headedTableNode) = false ->
        tableHead grid headerCells = hd [] grid
        /\ tableBody grid headerCells = tl grid).
Proof.
  apply (table_header_row asciiLower Samples.resolveSample 4
           MoreSamples.headedTableNode Samples.ctx0 Samples.store0).
  vm_compute. lia.
Defined.


(** The columns of a row without cells and of a cell with a pipe in a
    code span; and the rows of a foreign [thead] are collected. *)
Lemma table_columns_on_samples :
  renderTable (renderNode asciiLower Samples.resolveSample 4) MoreSamples.emptyRowTable
              Samples.ctx0 Samples.store0
  = Some (str "| A |" ++ [NL] ++ str "| --- |" ++ [NL] ++ str "|  |", Samples.store0)
  /\ pipeColumns (str "|  |") = 1
  /\ renderTable (renderNode asciiLower Samples.resolveSample 5) MoreSamples.pipeInCodeTable
                 Samples.ctx0 Samples.store0
     = Some (str "| `a|b` |" ++ [NL] ++ str "| --- |", Samples.store0)
  /\ pipeColumns (str "| `a|b` |") = 2
  /\ List.length (tableRows MoreSamples.foreignTheadTable) = 2
  /\ renderTable (renderNode asciiLower Samples.resolveSample 7)
                 MoreSamples.foreignTheadTable Samples.ctx0 Samples.store0
     = Some ([], Samples.store0).
Proof. repeat split; vm_compute; reflexivity. Qed.

(** X16 on a third-level heading. *)
Lemma heading_hashes_witness :
  1 <= 3 <= 6
  /\ tagNameOf MoreSamples.headingNode = str "H" ++ ofNat 3
  /\ renderNode asciiLower Samples.resolveSample 2 MoreSamples.headingNode
                Samples.ctx0 Samples.store0
     = Some ([NL; NL] ++ repeat (str "#") 3 ++ [SP] ++ trimBlankLines (str "t") ++ [NL; NL],
             Samples.store0).
Proof.
  apply (heading_hashes asciiLower Samples.resolveSample 1 MoreSamples.headingNode
           Samples.ctx0 Samples.store0 3 (str "t") Samples.store0); reflexivity.
Defined.

(** X17 on a span in a span. *)
Lemma unclaimed_element_is_transparent_witness :
  renderNode asciiLower Samples.resolveSample 3 MoreSamples.wrapperNode
             Samples.ctx0 Samples.store0
  = renderInlineChildren (renderNode asciiLower Samples.resolveSample 2)
                         MoreSamples.wrapperNode Samples.ctx0 Samples.store0.
Proof.
  apply (unclaimed_element_is_transparent asciiLower Samples.resolveSample 2
           MoreSamples.wrapperNode Samples.ctx0 Samples.store0); reflexivity.
Defined.

(** X18 on a link without content, with a base URL. *)
Lemma empty_link_shows_raw_href_witness :
  renderNode asciiLower Samples.resolveSample 1 MoreSamples.emptyLinkNode
             MoreSamples.ctxWithBase Samples.store0
  = Some (str "[" ++ str "/x" ++ str "]("
          ++ absolutizeUrl Samples.resolveSample (str "/x") (Some (str "https://h/"))
          ++ titleSuffix None ++ str ")", Samples.store0)
  /\ absolutizeUrl Samples.resolveSample (str "/x") (Some (str "https://h/"))
     = str "https://h/x".
Proof.
  split; [|reflexivity].
  apply (empty_link_shows_raw_href asciiLower Samples.resolveSample 0
           MoreSamples.emptyLinkNode MoreSamples.ctxWithBase Samples.store0
           [] Samples.store0); reflexivity.
Defined.

(* ================================================================== *)
(** ** Escaping, over the whole document *)
(* ================================================================== *)

Section EscapingProperties.

Variable toLowerCase : jstring -> jstring.
Variable resolveUrl : jstring -> jstring -> option jstring.
Variable parseFromString : jstring -> Document.

Local Notation renderNode := (renderNode toLowerCase resolveUrl).
Local Notation htmlToMarkdown := (htmlToMarkdown toLowerCase resolveUrl parseFromString).

(** C5, as amended.  A text node comes out with a backslash in front of
    each of [\ * _ ` # | > -] and is otherwise unchanged; the text of a
    [code] element stands between its backticks as it is, and the text of
    a [pre] element between its fences with nothing escaped (only its line
    ends are normalized).  The last pass over the document changes
    whitespace only.  And in the output of [htmlToMarkdown], whatever the
    document: every one of these characters that comes from a text node
    rendered by the text rule stands right after a backslash that
    [escapeMd] has put, and every backslash that [escapeMd] has put stands
    right before such a character of a text node or of an [alt] or [title]
    attribute, so never before a character of the text of a [code] or
    [pre] element. *)
Theorem escaping_outside_code_only (fuel : nat) (ctx : Ctx) (st : Store) :
  (forall v,
      let t := collapseSpaceRuns v false false in
      renderNode (S fuel) (TextNode v) ctx st = Some (escapeEach t, st)
      /\ wellEscaped (escapeEach t) = true
      /\ unescape (escapeEach t) = t)
  /\ (forall ln attrs ch,
         let el := ElementNode (str "CODE") ln attrs ch in
         exists ticks,
           (ticks = str "`" \/ ticks = str "``")
           /\ renderNode (S fuel) el ctx st = Some (ticks ++ textContentOf el ++ ticks, st))
  /\ (forall ln attrs ch,
         let el := ElementNode (str "PRE") ln attrs ch in
         let body := dropFinalNewline (normalizeEol (preText el)) in
         exists fence info,
           renderNode (S fuel) el ctx st
           = Some ([NL; NL] ++ fence ++ info ++ [NL] ++ body ++ [NL] ++ fence ++ [NL; NL], st)
           /\ (existsb (N.eqb CR) (preText el) = false ->
               body = preText el \/ preText el = body ++ [NL]))
  /\ (forall html opts root raw st',
         isEmpty html || isEmpty (trim html) = false ->
         getElementById (parseFromString (wrapHtml html)) "__root__" = Some root ->
         renderInlineChildren (renderNode fuel) root
           {| listDepth := 0; orderedStack := []; orderedIndex := 0;
              baseUrl := opts_baseUrl opts |} [[]] = Some (raw, st') ->
         exists out,
           htmlToMarkdown fuel html opts = Some out /\ nonSpace out = nonSpace raw)
  /\ (forall html opts,
         heightOfForest (parseFromString (wrapHtml html)) <= fuel ->
         exists tout,
           Tagged.htmlToMarkdown toLowerCase resolveUrl parseFromString fuel html opts
           = Some tout
           /\ htmlToMarkdown fuel html opts = Some (Tagged.erase tout)
           /\ (forall a x b,
                  tout = a ++ x :: b ->
                  Tagged.origin x = Tagged.Text ->
                  isEscapable (Tagged.code x) = true ->
                  exists a', a = a' ++ [(BACKSLASH, Tagged.Esc)])
           /\ (forall a e b,
                  tout = a ++ e :: b ->
                  Tagged.origin e = Tagged.Esc ->
                  Tagged.code e = BACKSLASH
                  /\ exists x b',
                      b = x :: b'
                      /\ isEscapable (Tagged.code x) = true
                      /\ (Tagged.origin x = Tagged.Text
                          \/ Tagged.origin x = Tagged.Attr))).
Proof.
  split; [|split; [|split; [|split]]].
  - intros v t. split; [|split].
    + rewrite renderNode_S; cbn [renderNodeBody]. rewrite escapeMd_escapeEach. reflexivity.
    + apply wellEscaped_escapeEach.
    + apply unescape_escapeEach.
  - intros ln attrs ch el.
    exists (if includes [BACKTICK] (textContentOf el) then str "``" else str "`").
    split; [destruct (includes _ _); [right | left]; reflexivity|].
    reflexivity.
  - intros ln attrs ch el body. subst body el.
    set (el := ElementNode (str "PRE") ln attrs ch).
    exists (if includes (str "```") (normalizeEol (preText el)) then str "````" else str "```").
    exists (match (match querySelector el "code" with
                   | Some c => getCodeLang toLowerCase c
                   | None => None
                   end) with
            | Some l => if isEmpty l then [] else SP :: l
            | None => []
            end).
    split.
    + change (renderNode (S fuel) el ctx st)
        with (Some ([NL; NL]
                    ++ codeFence (normalizeEol (preText el))
                         (match querySelector el "code" with
                          | Some c => getCodeLang toLowerCase c
                          | None => None
                          end)
                    ++ [NL; NL], st)).
      unfold codeFence.
      destruct (match querySelector el "code" with
                | Some c => getCodeLang toLowerCase c
                | None => None
                end) as [l|]; cbn [isEmpty]; repeat rewrite <- app_assoc; reflexivity.
    + intros Hcr. rewrite (normalizeEol_no_cr _ Hcr).
      apply dropFinalNewline_cases.
  - intros html opts root raw st' Hblank Hroot Hraw.
    exists (finish raw). split; [|apply nonSpace_finish].
    rewrite (htmlToMarkdown_root _ _ _ fuel html opts root Hblank Hroot), Hraw.
    reflexivity.
  - intros html opts Hfuel.
    destruct (htmlToMarkdown_returns toLowerCase resolveUrl parseFromString fuel html opts
                Hfuel) as [out Hout].
    pose proof (htmlToMarkdown_alike toLowerCase resolveUrl parseFromString fuel html opts)
      as Hrun.
    rewrite Hout in Hrun.
    destruct (Tagged.htmlToMarkdown toLowerCase resolveUrl parseFromString fuel html opts)
      as [tout|]; [|contradiction].
    destruct Hrun as [He Hok]. exists tout. split; [reflexivity|].
    split; [rewrite He; exact Hout|]. split.
    + intros a x b -> Ho Hx.
      destruct (escOk_escaped a b x false Hok) as [[_ F] | H'];
        [unfold Tagged.needsEscape; rewrite Ho; exact Hx | discriminate F | exact H'].
    + intros a e b -> Ho.
      destruct (escOk_backslash a b e false Hok) as [Hc [x [b' [-> Hx]]]];
        [unfold Tagged.isEsc; rewrite Ho; reflexivity|].
      split; [exact Hc|]. exists x, b'. split; [reflexivity|].
      unfold Tagged.needsEscape in Hx.
      destruct (Tagged.origin x); try discriminate Hx; auto.
Qed.

End EscapingProperties.

(** C5 at a text, a code element and a pre element, and on the document
    of a paragraph with a text and a code element. *)
Lemma escaping_outside_code_only_witness :
  (renderNode asciiLower Samples.resolveSample 1 (Samples.text "a*b") Samples.ctx0
              Samples.store0
   = Some (escapeEach (collapseSpaceRuns (str "a*b") false false), Samples.store0)
   /\ wellEscaped (escapeEach (collapseSpaceRuns (str "a*b") false false)) = true
   /\ unescape (escapeEach (collapseSpaceRuns (str "a*b") false false))
      = collapseSpaceRuns (str "a*b") false false)
  /\ (exists ticks,
         (ticks = str "`" \/ ticks = str "``")
         /\ renderNode asciiLower Samples.resolveSample 1
                       (Samples.el "CODE" [] [Samples.text "a*b"]) Samples.ctx0
                       Samples.store0
            = Some (ticks ++ str "a*b" ++ ticks, Samples.store0))
  /\ (dropFinalNewline (normalizeEol (preText (Samples.el "PRE" [] [Samples.text "a*b"])))
      = preText (Samples.el "PRE" [] [Samples.text "a*b"])
      \/ preText (Samples.el "PRE" [] [Samples.text "a*b"])
         = dropFinalNewline (normalizeEol (preText (Samples.el "PRE" [] [Samples.text "a*b"])))
           ++ [NL])
  /\ (exists tout,
         Tagged.htmlToMarkdown asciiLower Samples.resolveSample MoreSamples.parseMore 5
                               MoreSamples.paragraphHtml Samples.noOpts = Some tout
         /\ htmlToMarkdown asciiLower Samples.resolveSample MoreSamples.parseMore 5
                           MoreSamples.paragraphHtml Samples.noOpts
            = Some (Tagged.erase tout)
         /\ (forall a x b,
                tout = a ++ x :: b ->
                Tagged.origin x = Tagged.Text ->
                isEscapable (Tagged.code x) = true ->
                exists a', a = a' ++ [(BACKSLASH, Tagged.Esc)])).
Proof.
  destruct (escaping_outside_code_only asciiLower Samples.resolveSample
              MoreSamples.parseMore 0 Samples.ctx0 Samples.store0)
    as [Htext [Hcode [Hpre _]]].
  split; [exact (Htext (str "a*b"))|].
  split; [exact (Hcode (str "code") [] [Samples.text "a*b"])|].
  split.
  - destruct (Hpre (str "pre") [] [Samples.text "a*b"]) as [fence [info [_ Hverbatim]]].
    apply Hverbatim. reflexivity.
  - destruct (escaping_outside_code_only asciiLower Samples.resolveSample
                MoreSamples.parseMore 5 Samples.ctx0 Samples.store0)
      as [_ [_ [_ [_ Hdoc]]]].
    destruct (Hdoc MoreSamples.paragraphHtml Samples.noOpts) as [tout [Ht [Hout [Hesc _]]]];
      [vm_compute; lia|].
    exists tout. split; [exact Ht|]. split; [exact Hout | exact Hesc].
Defined.

(** The paragraph, with the origins of its characters and without. *)
Lemma paragraph_rendering :
  Tagged.htmlToMarkdown asciiLower Samples.resolveSample MoreSamples.parseMore 5
                        MoreSamples.paragraphHtml Samples.noOpts
  = Some ([ (97, Tagged.Text); (BACKSLASH, Tagged.Esc); (42, Tagged.Text);
            (98, Tagged.Text); (BACKSLASH, Tagged.Esc); (95, Tagged.Text);
            (99, Tagged.Text); (BACKTICK, Tagged.Markup); (100, Tagged.Code);
            (42, Tagged.Code); (101, Tagged.Code); (BACKTICK, Tagged.Markup);
            (NL, Tagged.Markup) ]%N)
  /\ htmlToMarkdown asciiLower Samples.resolveSample MoreSamples.parseMore 5
                    MoreSamples.paragraphHtml Samples.noOpts
     = Some (str "a" ++ [BACKSLASH] ++ str "*b" ++ [BACKSLASH] ++ str "_c`d*e`" ++ [NL]).
Proof. split; vm_compute; reflexivity. Qed.

(** C5 as stated fails on the text of a [pre] element with three newlines
    in a row, of which the output has two, and on a [code] element of two
    lines in a quote, whose second line gets the marker of the quote: the
    text is not in the output as it is. *)
Lemma code_text_is_not_always_verbatim :
  preText (Samples.el "PRE" [] [ TextNode (str "a" ++ [NL; NL; NL] ++ str "b") ])
  = str "a" ++ [NL; NL; NL] ++ str "b"
  /\ htmlToMarkdown asciiLower Samples.resolveSample Samples.parseSample 2
                    Samples.preWithBlankLinesHtml Samples.noOpts
     = Some (str "```" ++ [NL] ++ str "a" ++ [NL; NL] ++ str "b" ++ [NL] ++ str "```"
             ++ [NL])
  /\ includes (str "a" ++ [NL; NL; NL] ++ str "b")
              (str "```" ++ [NL] ++ str "a" ++ [NL; NL] ++ str "b" ++ [NL] ++ str "```"
               ++ [NL]) = false
  /\ textContentOf (Samples.el "CODE" [] [ TextNode (str "a" ++ [NL] ++ str "b") ])
     = str "a" ++ [NL] ++ str "b"
  /\ renderNode asciiLower Samples.resolveSample 2 MoreSamples.codeInQuoteNode
                Samples.ctx0 Samples.store0
     = Some ([NL; NL] ++ str "> `a" ++ [NL] ++ str "> b`" ++ [NL; NL], Samples.store0)
  /\ includes (str "a" ++ [NL] ++ str "b")
              ([NL; NL] ++ str "> `a" ++ [NL] ++ str "> b`" ++ [NL; NL]) = false.
Proof. repeat split; vm_compute; reflexivity. Qed.
